(** * AI-CV-Generator: relevance selection, response normalisation and
      bullet generation of [app.py]

    A shallow embedding of the scoring/selection/normalisation core of
    [src/app.py] together with the properties stated about it.

    Conventions of the embedding.
    - A Python [str] is a [string] whose characters are the code points
      U+0000..U+00FF (Latin-1).  On that alphabet [str.lower] is
      character-wise and [str.isspace] / the regex class [\s] are the finite
      sets written out below.  The two relevance scores are also given over
      a wider alphabet ([Wide]), on which [str.lower] depends on the
      neighbours of a character.
    - Python exceptions are values of [exn]; a computation that may raise
      returns a [res].  Functions that call [random.choice] additionally
      thread the state of the random source ([rng]).
    - The text-completion gateway is opaque: a generator receives the outcome
      of its single call, either the text of the first content block or the
      exception raised while obtaining it. *)

From Stdlib Require Import Bool Arith ZArith NArith Lia List String Ascii.
From Stdlib Require Import DecimalString Permutation Sorted.
Import ListNotations.
Local Open Scope list_scope.
Local Open Scope string_scope.
Local Open Scope nat_scope.

(* ------------------------------------------------------------------ *)
(** ** Python strings *)

Module Py.

Definition code (c : ascii) : nat := nat_of_ascii c.

(** [str.isspace] on one Latin-1 character; also the regex class [\s]. *)
Definition isspace (c : ascii) : bool :=
  let n := code c in
  ((9 <=? n) && (n <=? 13)) || ((28 <=? n) && (n <=? 32))
  || (n =? 133) || (n =? 160).

(** [str.lower] on one Latin-1 character: A-Z and the upper-case letters
    U+00C0..U+00DE (the multiplication sign U+00D7 is not a letter). *)
Definition lower_char (c : ascii) : ascii :=
  let n := code c in
  if ((65 <=? n) && (n <=? 90))
     || ((192 <=? n) && (n <=? 222) && negb (n =? 215))
  then ascii_of_nat (n + 32) else c.

Fixpoint lower (s : string) : string :=
  match s with
  | EmptyString => EmptyString
  | String c t => String (lower_char c) (lower t)
  end.

Fixpoint startswith (p s : string) : bool :=
  match p, s with
  | EmptyString, _ => true
  | String _ _, EmptyString => false
  | String a p', String b s' => Ascii.eqb a b && startswith p' s'
  end.

(** [needle in hay] for two strings. *)
Fixpoint contains (needle hay : string) : bool :=
  startswith needle hay ||
  match hay with
  | EmptyString => false
  | String _ t => contains needle t
  end.

(** [any(k in s for k in ks)] *)
Definition any_in (ks : list string) (s : string) : bool :=
  existsb (fun k => contains k s) ks.

Fixpoint drop (n : nat) (s : string) : string :=
  match n, s with
  | 0, _ => s
  | S _, EmptyString => EmptyString
  | S n', String _ t => drop n' t
  end.

Fixpoint lstrip_with (p : ascii -> bool) (s : string) : string :=
  match s with
  | EmptyString => EmptyString
  | String c t => if p c then lstrip_with p t else s
  end.

Fixpoint rstrip_with (p : ascii -> bool) (s : string) : string :=
  match s with
  | EmptyString => EmptyString
  | String c t =>
      match rstrip_with p t with
      | EmptyString => if p c then EmptyString else String c EmptyString
      | t' => String c t'
      end
  end.

Definition strip_with (p : ascii -> bool) (s : string) : string :=
  rstrip_with p (lstrip_with p s).

(** [s.strip()] *)
Definition strip (s : string) : string := strip_with isspace s.

(** [s.strip(c)] for a one-character argument *)
Definition strip_char (c : ascii) (s : string) : string :=
  strip_with (Ascii.eqb c) s.

(** [str(n)] for a non-negative integer *)
Definition str_of_nat (n : nat) : string :=
  NilEmpty.string_of_uint (Nat.to_uint n).

(** [bool(s)] for a string *)
Definition nonempty (s : string) : bool :=
  match s with EmptyString => false | _ => true end.

(** Exceptions; every one of them is a subclass of [Exception]. *)
Inductive exn : Type :=
| JSONDecodeError
| RecursionError
| TypeError
| AttributeError
| UnicodeOutOfModel
| GatewayError.

Inductive res (A : Type) : Type :=
| Ok (a : A)
| Raise (e : exn).
Arguments Ok {A} a.
Arguments Raise {A} e.

Definition bind {A B} (r : res A) (k : A -> res B) : res B :=
  match r with
  | Ok a => k a
  | Raise e => Raise e
  end.

End Py.

Notation "x <- r ;; k" := (Py.bind r (fun x => k))
  (at level 61, r at next level, right associativity).
Notation "' pat <- r ;; k" := (Py.bind r (fun pat => k))
  (at level 61, pat pattern, r at next level, right associativity).

Import Py.

(* ------------------------------------------------------------------ *)
(** ** JSON values and [json.loads] *)

Module Json.

(** The decimal literal of a JSON number that has a fraction or an exponent:
    the float it denotes is [(-1)^neg * mant * 10^exp10], rounded to
    binary64 by Python's [float]. *)
Record decimal : Type := { neg : bool; mant : N; exp10 : Z }.

(** The Python objects [json.loads] can return.  A [dict] keeps its keys in
    insertion order and holds each key once. *)
#[warnings="-register-all"]
Inductive json : Type :=
| JNull
| JBool (b : bool)
| JInt (z : Z)
| JFloat (d : decimal)
| JNaN
| JInf (negative : bool)
| JStr (s : string)
| JList (l : list json)
| JDict (d : list (string * json)).

(** Whether the literal rounds to [0.0] (or [-0.0]): the mantissa is zero
    or the value is at most 2^-1075, half the smallest subnormal. *)
Definition rounds_to_zero (d : decimal) : bool :=
  (N.eqb (mant d) 0)
  || (Z.ltb (exp10 d) 0
      && Z.leb (Z.of_N (mant d) * 2 ^ 1075) (10 ^ (- exp10 d)))%Z.

(** [bool(v)]: the truth value of a Python object. *)
Definition truthy (v : json) : bool :=
  match v with
  | JNull => false
  | JBool b => b
  | JInt z => negb (Z.eqb z 0)
  | JFloat d => negb (rounds_to_zero d)
  | JNaN => true
  | JInf _ => true
  | JStr s => nonempty s
  | JList l => match l with [] => false | _ => true end
  | JDict d => match d with [] => false | _ => true end
  end.

(** [d[k] = v] on an insertion-ordered dict. *)
Fixpoint dict_set (k : string) (v : json) (d : list (string * json))
  : list (string * json) :=
  match d with
  | [] => [(k, v)]
  | (k', v') :: t =>
      if String.eqb k k' then (k, v) :: t else (k', v') :: dict_set k v t
  end.

(** JSON whitespace: space, tab, line feed, carriage return. *)
Definition is_ws (c : ascii) : bool :=
  let n := code c in (n =? 32) || (n =? 9) || (n =? 10) || (n =? 13).

Definition skip_ws (s : string) : string := lstrip_with is_ws s.

Definition is_digit (c : ascii) : bool :=
  let n := code c in (48 <=? n) && (n <=? 57).

Fixpoint span_digits (s : string) : string * string :=
  match s with
  | EmptyString => (EmptyString, EmptyString)
  | String c t =>
      if is_digit c
      then let '(ds, r) := span_digits t in (String c ds, r)
      else (EmptyString, s)
  end.

Fixpoint digits_value (acc : N) (ds : string) : N :=
  match ds with
  | EmptyString => acc
  | String c t => digits_value (10 * acc + N.of_nat (code c - 48))%N t
  end.

Definition hexval (c : ascii) : option nat :=
  let n := code c in
  if (48 <=? n) && (n <=? 57) then Some (n - 48)
  else if (65 <=? n) && (n <=? 70) then Some (n - 55)
  else if (97 <=? n) && (n <=? 102) then Some (n - 87)
  else None.

Definition hex4 (a b c d : ascii) : option nat :=
  match hexval a, hexval b, hexval c, hexval d with
  | Some x, Some y, Some z, Some w => Some (((x * 16 + y) * 16 + z) * 16 + w)
  | _, _, _, _ => None
  end.

Definition quote : ascii := "034"%char.
Definition backslash : ascii := "\"%char.

(** The one-character escapes of a JSON string. *)
Definition unescape (e : ascii) : option ascii :=
  if Ascii.eqb e quote then Some quote
  else if Ascii.eqb e backslash then Some backslash
  else if Ascii.eqb e "/"%char then Some "/"%char
  else if Ascii.eqb e "b"%char then Some "008"%char
  else if Ascii.eqb e "f"%char then Some "012"%char
  else if Ascii.eqb e "n"%char then Some "010"%char
  else if Ascii.eqb e "r"%char then Some "013"%char
  else if Ascii.eqb e "t"%char then Some "009"%char
  else None.

(** [scanstring] in strict mode, started after the opening quote; returns
    the decoded string and the text after the closing quote.  An escape
    [\uXXXX] above U+00FF denotes a character outside the alphabet of the
    embedding and is reported as [UnicodeOutOfModel]. *)
Fixpoint scanstring (s : string) : res (string * string) :=
  match s with
  | EmptyString => Raise JSONDecodeError
  | String c t =>
      if Ascii.eqb c quote then Ok (EmptyString, t)
      else if Ascii.eqb c backslash then
        match t with
        | EmptyString => Raise JSONDecodeError
        | String e t1 =>
            if Ascii.eqb e "u"%char then
              match t1 with
              | String h1 (String h2 (String h3 (String h4 t2))) =>
                  match hex4 h1 h2 h3 h4 with
                  | Some n =>
                      if n <=? 255 then
                        match scanstring t2 with
                        | Ok (str, r) => Ok (String (ascii_of_nat n) str, r)
                        | Raise e => Raise e
                        end
                      else Raise UnicodeOutOfModel
                  | None => Raise JSONDecodeError
                  end
              | _ => Raise JSONDecodeError
              end
            else
              match unescape e with
              | Some ch =>
                  match scanstring t1 with
                  | Ok (str, r) => Ok (String ch str, r)
                  | Raise e => Raise e
                  end
              | None => Raise JSONDecodeError
              end
        end
      else if code c <? 32 then Raise JSONDecodeError
      else
        match scanstring t with
        | Ok (str, r) => Ok (String c str, r)
        | Raise e => Raise e
        end
  end.

(** The number grammar matched at the start of [s]: an optional minus
    sign, then either 0 or a non-zero digit followed by digits; optionally
    a dot with at least one digit; optionally e or E, an optional sign and
    at least one digit.  A number with a fraction or an exponent is a
    float, any other an integer of any size (the limit on the number of
    digits of an integer literal that recent Python versions can be
    configured with is not modelled). *)
Definition match_number (s : string) : option (json * string) :=
  let '(sign, s1) :=
    match s with
    | String c t => if Ascii.eqb c "-"%char then (true, t) else (false, s)
    | EmptyString => (false, s)
    end in
  let int_part : option (string * string) :=
    match s1 with
    | String c t =>
        if Ascii.eqb c "0"%char then Some (String c EmptyString, t)
        else if is_digit c then Some (span_digits s1)
        else None
    | EmptyString => None
    end in
  match int_part with
  | None => None
  | Some (ids, r1) =>
      let '(fds, r2) :=
        match r1 with
        | String c t =>
            if Ascii.eqb c "."%char then
              match span_digits t with
              | (EmptyString, _) => (EmptyString, r1)
              | (fs, r) => (fs, r)
              end
            else (EmptyString, r1)
        | EmptyString => (EmptyString, r1)
        end in
      let '(ex, r3) :=
        match r2 with
        | String c t =>
            if Ascii.eqb c "e"%char || Ascii.eqb c "E"%char then
              let '(eneg, t1) :=
                match t with
                | String sg t' =>
                    if Ascii.eqb sg "-"%char then (true, t')
                    else if Ascii.eqb sg "+"%char then (false, t')
                    else (false, t)
                | EmptyString => (false, t)
                end in
              match span_digits t1 with
              | (EmptyString, _) => (None, r2)
              | (es, r) =>
                  let v := Z.of_N (digits_value 0 es) in
                  (Some (if eneg then (- v)%Z else v), r)
              end
            else (None, r2)
        | EmptyString => (None, r2)
        end in
      match fds, ex with
      | EmptyString, None =>
          let v := Z.of_N (digits_value 0 ids) in
          Some (JInt (if sign then (- v)%Z else v), r3)
      | _, _ =>
          let e := match ex with Some e => e | None => 0%Z end in
          Some (JFloat {| neg := sign;
                          mant := digits_value 0 (ids ++ fds);
                          exp10 := (e - Z.of_nat (String.length fds))%Z |},
                r3)
      end
  end.

(** The scanner.  [scan_once] reads one value at the start of [s];
    [parse_array] and [parse_object] read the remaining items of an array or
    an object whose opening bracket and leading whitespace are consumed.
    [fuel] bounds the number of nested calls; [loads] supplies more than any
    text can use, so that [RecursionError] is never raised here (CPython
    raises it for texts nested deeper than its recursion limit). *)
Fixpoint scan_once (fuel : nat) (s : string) : res (json * string) :=
  match fuel with
  | 0 => Raise RecursionError
  | S fuel' =>
      match s with
      | EmptyString => Raise JSONDecodeError
      | String c t =>
          if Ascii.eqb c quote then
            '(str, r) <- scanstring t ;; Ok (JStr str, r)
          else if Ascii.eqb c "{"%char then
            match skip_ws t with
            | String c' r =>
                if Ascii.eqb c' "}"%char then Ok (JDict [], r)
                else parse_object fuel' (skip_ws t) []
            | EmptyString => Raise JSONDecodeError
            end
          else if Ascii.eqb c "["%char then
            match skip_ws t with
            | String c' r =>
                if Ascii.eqb c' "]"%char then Ok (JList [], r)
                else parse_array fuel' (skip_ws t) []
            | EmptyString => Raise JSONDecodeError
            end
          else if startswith "null" s then Ok (JNull, drop 4 s)
          else if startswith "true" s then Ok (JBool true, drop 4 s)
          else if startswith "false" s then Ok (JBool false, drop 5 s)
          else if startswith "NaN" s then Ok (JNaN, drop 3 s)
          else if startswith "Infinity" s then Ok (JInf false, drop 8 s)
          else if startswith "-Infinity" s then Ok (JInf true, drop 9 s)
          else
            match match_number s with
            | Some vr => Ok vr
            | None => Raise JSONDecodeError
            end
      end
  end

with parse_array (fuel : nat) (s : string) (acc : list json)
  : res (json * string) :=
  match fuel with
  | 0 => Raise RecursionError
  | S fuel' =>
      '(v, r) <- scan_once fuel' s ;;
      match skip_ws r with
      | String c r' =>
          if Ascii.eqb c "]"%char then Ok (JList (acc ++ [v]), r')
          else if Ascii.eqb c ","%char
          then parse_array fuel' (skip_ws r') (acc ++ [v])
          else Raise JSONDecodeError
      | EmptyString => Raise JSONDecodeError
      end
  end

with parse_object (fuel : nat) (s : string) (acc : list (string * json))
  : res (json * string) :=
  match fuel with
  | 0 => Raise RecursionError
  | S fuel' =>
      match s with
      | String q t =>
          if Ascii.eqb q quote then
            '(k, r) <- scanstring t ;;
            match skip_ws r with
            | String c r1 =>
                if Ascii.eqb c ":"%char then
                  '(v, r2) <- scan_once fuel' (skip_ws r1) ;;
                  match skip_ws r2 with
                  | String c' r3 =>
                      if Ascii.eqb c' "}"%char
                      then Ok (JDict (dict_set k v acc), r3)
                      else if Ascii.eqb c' ","%char
                      then parse_object fuel' (skip_ws r3) (dict_set k v acc)
                      else Raise JSONDecodeError
                  | EmptyString => Raise JSONDecodeError
                  end
                else Raise JSONDecodeError
            | EmptyString => Raise JSONDecodeError
            end
          else Raise JSONDecodeError
      | EmptyString => Raise JSONDecodeError
      end
  end.

(** [json.loads(s)]: one value surrounded by optional whitespace; anything
    after it is an error ("Extra data"). *)
Definition loads (s : string) : res json :=
  '(v, r) <- scan_once (2 * String.length s + 2) (skip_ws s) ;;
  match skip_ws r with
  | EmptyString => Ok v
  | String _ _ => Raise JSONDecodeError
  end.

End Json.

Import Json.

(* ------------------------------------------------------------------ *)
(** ** The regular expressions of [clean_json_response] *)

Module Re.

Definition newline : ascii := "010"%char.

(** The greedy [\s*]: drops the leading whitespace of [s] and tells whether
    the last character dropped was a line feed ([last_nl] if none was). *)
Fixpoint skip_space (last_nl : bool) (s : string) : bool * string :=
  match s with
  | EmptyString => (last_nl, s)
  | String c t =>
      if isspace c then skip_space (Ascii.eqb c newline) t else (last_nl, s)
  end.

(** [re.sub('^' + marker + '\s*', '', s, flags=re.MULTILINE)] for a
    non-empty literal [marker].  [bol] tells whether the current position is
    at the beginning of a line; every step consumes a character, so
    [String.length s] is enough [fuel]. *)
Fixpoint sub_line_prefix (marker : string) (fuel : nat) (bol : bool)
  (s : string) : string :=
  match fuel with
  | 0 => s
  | S fuel' =>
      match s with
      | EmptyString => EmptyString
      | String c t =>
          if bol && startswith marker s then
            let '(nl, r) := skip_space false (drop (String.length marker) s) in
            sub_line_prefix marker fuel' nl r
          else String c (sub_line_prefix marker fuel' (Ascii.eqb c newline) t)
      end
  end.

(** A match of [\s*```$] (MULTILINE) starting at the beginning of [s]:
    whitespace, three backticks, then the end of the text or a line feed.
    Returns the text after the match. *)
Definition match_close_fence (s : string) : option string :=
  let r := lstrip_with isspace s in
  if startswith "```" r then
    match drop 3 r with
    | EmptyString => Some EmptyString
    | String c t => if Ascii.eqb c newline then Some (String c t) else None
    end
  else None.

(** [re.sub('\s*```$', '', s, flags=re.MULTILINE)] *)
Fixpoint sub_close_fence (fuel : nat) (s : string) : string :=
  match fuel with
  | 0 => s
  | S fuel' =>
      match s with
      | EmptyString => EmptyString
      | String c t =>
          match match_close_fence s with
          | Some r => sub_close_fence fuel' r
          | None => String c (sub_close_fence fuel' t)
          end
      end
  end.

(** The text after the first occurrence of [c]. *)
Fixpoint after_first (c : ascii) (s : string) : option string :=
  match s with
  | EmptyString => None
  | String a t => if Ascii.eqb a c then Some t else after_first c t
  end.

(** The prefix of [s] that ends with the last occurrence of [c]. *)
Fixpoint upto_last (c : ascii) (s : string) : option string :=
  match s with
  | EmptyString => None
  | String a t =>
      match upto_last c t with
      | Some p => Some (String a p)
      | None => if Ascii.eqb a c then Some (String a EmptyString) else None
      end
  end.

(** [re.search(open + '.*' + close, s, re.DOTALL)] for two literal
    characters: the span from the first [open] to the last [close] after
    it. *)
Definition search_span (open close : ascii) (s : string) : option string :=
  match after_first open s with
  | Some t =>
      match upto_last close t with
      | Some p => Some (String open p)
      | None => None
      end
  | None => None
  end.

End Re.

(* ------------------------------------------------------------------ *)
(** ** Response normaliser *)

(** [clean_json_response(text)] *)
Definition clean_json_response (text : string) : string :=
  if negb (nonempty text) then EmptyString
  else
    let text := Re.sub_line_prefix "```json" (String.length text) true text in
    let text := Re.sub_line_prefix "```" (String.length text) true text in
    let text := Re.sub_close_fence (String.length text) text in
    match Re.search_span "{"%char "}"%char text with
    | Some m => m
    | None =>
        match Re.search_span "["%char "]"%char text with
        | Some m => m
        | None => strip text
        end
    end.

(** [try: body  except Exception as e: handler(e)] *)
Definition try_except {A} (body : res A) (handler : exn -> res A) : res A :=
  match body with
  | Ok a => Ok a
  | Raise e => handler e
  end.

(** [safe_json_parse(text, fallback_data)]; [text] is [None] for Python's
    [None].  Both handlers, the one for [json.JSONDecodeError] and the one
    for [Exception], return the fallback. *)
Definition safe_json_parse (text : option string) (fallback_data : json)
  : res json :=
  try_except
    match text with
    | None => Ok fallback_data
    | Some text =>
        if negb (nonempty text) then Ok fallback_data
        else
          let cleaned_text := clean_json_response text in
          if negb (nonempty cleaned_text) then Ok fallback_data
          else
            parsed <- loads cleaned_text ;;
            Ok (if truthy parsed then parsed else fallback_data)
    end
    (fun e =>
       match e with
       | JSONDecodeError => Ok fallback_data
       | _ => Ok fallback_data
       end).

(* ------------------------------------------------------------------ *)
(** ** The random source and computations that use it *)

(** The state of Python's [random] module, as the sequence of raw draws it
    will deliver and the number of draws made so far. *)
Record rng : Type := { draws : nat -> nat; pos : nat }.

(** A computation that may draw random numbers and may raise. *)
Definition M (A : Type) : Type := rng -> res A * rng.

Definition ret {A} (a : A) : M A := fun g => (Ok a, g).

Definition raise {A} (e : exn) : M A := fun g => (Raise e, g).

Definition bindM {A B} (m : M A) (k : A -> M B) : M B :=
  fun g =>
    match m g with
    | (Ok a, g') => k a g'
    | (Raise e, g') => (Raise e, g')
    end.

Definition lift {A} (r : res A) : M A := fun g => (r, g).

(** [try: body  except Exception as e: handler(e)]; the draws made by
    [body] before it raised stay made. *)
Definition try_exceptM {A} (body : M A) (handler : exn -> M A) : M A :=
  fun g =>
    match body g with
    | (Ok a, g') => (Ok a, g')
    | (Raise e, g') => handler e g'
    end.

Notation "x <~ m ;; k" := (bindM m (fun x => k))
  (at level 61, m at next level, right associativity).

(** [random.choice(l)] for a non-empty list [l]. *)
Definition random_choice {A} (default : A) (l : list A) : M A :=
  fun g =>
    (Ok (nth (draws g (pos g) mod List.length l) l default),
     {| draws := draws g; pos := S (pos g) |}).

Record metrics : Type :=
  { performance : nat; uptime : string; reduction : nat }.

Definition performance_improvements : list nat :=
  [25; 30; 35; 40; 45; 50; 60; 65; 70].

Definition uptime_metrics : list string :=
  ["99.9%"; "99.95%"; "99.8%"; "high availability";
   "enterprise-grade reliability"].

Definition reduction_metrics : list nat :=
  [15; 20; 25; 30; 35; 40; 45; 50; 55; 60].

(** [get_varied_metrics()] *)
Definition get_varied_metrics : M metrics :=
  p <~ random_choice 0 performance_improvements ;;
  u <~ random_choice EmptyString uptime_metrics ;;
  r <~ random_choice 0 reduction_metrics ;;
  ret {| performance := p; uptime := u; reduction := r |}.

(* ------------------------------------------------------------------ *)
(** ** Data model *)

(** The requirement profile returned by the job-description analyser. *)
Record jd_analysis : Type :=
  { role_type : string;
    seniority_level : string;
    primary_skills : list string;
    key_technologies : list string;
    ats_keywords : list string;
    focus_areas : list string;
    industry_context : string }.

Module Experience.
Record t : Type :=
  { company : string;
    role : string;
    duration : string;
    job_type : string;
    description : string }.

End Experience.

Module Project.
Record t : Type :=
  { name : string;
    link : string;
    description : string }.

End Project.

(* ------------------------------------------------------------------ *)
(** ** Relevance selector *)

(** [for k in keys: if k in text: score += bonus] *)
Definition add_matches (bonus : nat) (keys : list string) (text : string)
  (score : nat) : nat :=
  fold_left (fun score k => if contains k text then score + bonus else score)
    keys score.

(** Insertion of [x] in front of the first element whose key is not greater
    than the key of [x]. *)
Fixpoint insert_desc {A} (key : A -> nat) (x : A) (l : list A) : list A :=
  match l with
  | [] => [x]
  | y :: l' =>
      if key x <? key y then y :: insert_desc key x l' else x :: y :: l'
  end.

(** [l.sort(key=key, reverse=True)].  Python's sort is stable and keeps the
    original order of elements with equal keys under [reverse=True] too, so
    its result is the one a stable insertion sort by descending key gives. *)
Fixpoint sort_reverse {A} (key : A -> nat) (l : list A) : list A :=
  match l with
  | [] => []
  | x :: l' => insert_desc key x (sort_reverse key l')
  end.

(** The score [select_relevant_experiences] gives to one record: the body
    of its loop. *)
Definition experience_score (jd : jd_analysis) (exp : Experience.t) : nat :=
  let role_type := role_type jd in
  let key_technologies := map lower (key_technologies jd) in
  let primary_skills := map lower (primary_skills jd) in
  let score := 0 in
  let description_lower := lower (Experience.description exp) in
  let score := add_matches 2 key_technologies description_lower score in
  let score := add_matches 1 primary_skills description_lower score in
  let score :=
    if contains "present" (lower (Experience.duration exp)) then score + 3
    else if any_in ["2023"; "2024"; "2025"] (Experience.duration exp)
    then score + 2
    else if any_in ["2020"; "2021"; "2022"] (Experience.duration exp)
    then score + 1
    else score in
  let score :=
    if String.eqb role_type "mobile"
       && any_in ["react native"; "ios"; "android"; "mobile"]
            description_lower
    then score + 3
    else if String.eqb role_type "ai-ml"
       && any_in ["ai"; "ml"; "machine learning"; "nlp"; "tensorflow"]
            description_lower
    then score + 3
    else if String.eqb role_type "backend"
       && any_in ["node.js"; "python"; "api"; "database"; "server"]
            description_lower
    then score + 3
    else if String.eqb role_type "frontend"
       && any_in ["react"; "vue"; "angular"; "frontend"; "ui"]
            description_lower
    then score + 3
    else score in
  score.

(** [select_relevant_experiences(all_experiences, jd_analysis,
    max_experiences)]; the default and the only value passed for
    [max_experiences] is 4. *)
Definition select_relevant_experiences (all_experiences : list Experience.t)
  (jd : jd_analysis) (max_experiences : nat) : list Experience.t :=
  let scored_experiences :=
    map (fun exp => (exp, experience_score jd exp)) all_experiences in
  let scored_experiences := sort_reverse snd scored_experiences in
  map fst (firstn max_experiences scored_experiences).

(** The score [select_relevant_projects] gives to one record. *)
Definition project_score (jd : jd_analysis) (proj : Project.t) : nat :=
  let role_type := role_type jd in
  let key_technologies := map lower (key_technologies jd) in
  let primary_skills := map lower (primary_skills jd) in
  let industry_context := industry_context jd in
  let score := 0 in
  let description_lower := lower (Project.description proj) in
  let name_lower := lower (Project.name proj) in
  let score := add_matches 2 key_technologies description_lower score in
  let score := add_matches 1 primary_skills description_lower score in
  let score :=
    if String.eqb industry_context "healthcare"
       && any_in ["health"; "medical"; "hipaa"; "patient"] description_lower
    then score + 3
    else if String.eqb industry_context "fintech"
       && any_in ["payment"; "financial"; "stripe"; "blockchain"]
            description_lower
    then score + 3
    else if String.eqb industry_context "ecommerce"
       && any_in ["ecommerce"; "shopping"; "marketplace"; "retail"]
            description_lower
    then score + 3
    else score in
  let score :=
    if String.eqb role_type "mobile"
       && any_in ["react native"; "ios"; "android"; "mobile app"]
            description_lower
    then score + 4
    else if String.eqb role_type "ai-ml"
       && any_in ["ai"; "ml"; "machine learning"; "nlp"; "openai"; "llm"]
            description_lower
    then score + 4
    else if String.eqb role_type "blockchain"
       && any_in ["blockchain"; "web3"; "ethereum"; "smart contract"]
            description_lower
    then score + 4
    else if String.eqb role_type "backend"
       && any_in ["api"; "database"; "server"; "microservices"]
            description_lower
    then score + 3
    else if String.eqb role_type "frontend"
       && any_in ["react"; "vue"; "angular"; "frontend"; "ui/ux"]
            description_lower
    then score + 3
    else score in
  score.

(** [select_relevant_projects(all_projects, jd_analysis, max_projects)];
    the default and the only value passed for [max_projects] is 5. *)
Definition select_relevant_projects (all_projects : list Project.t)
  (jd : jd_analysis) (max_projects : nat) : list Project.t :=
  let scored_projects :=
    map (fun proj => (proj, project_score jd proj)) all_projects in
  let scored_projects := sort_reverse snd scored_projects in
  map fst (firstn max_projects scored_projects).

(* ------------------------------------------------------------------ *)
(** ** Content generators *)

(** The gateway as a generator sees it: [None] when the client could not be
    created, otherwise the outcome of
    [client.messages.create(...).content[0].text]. *)
Definition client : Type := option (res string).

(** A Python list of strings, as an object. *)
Definition str_list (l : list string) : json := JList (map JStr l).

(** [get_fallback_bullets(company)] *)
Definition get_fallback_bullets (company : string) : M (list string) :=
  metrics <~ get_varied_metrics ;;
  if contains "hellogov" (lower company) then
    ret [ "Led full-stack development for AI-powered government services platform, achieving "
            ++ str_of_nat (performance metrics)
            ++ "% improvement in document processing efficiency";
          "Built comprehensive passport application portal with machine learning validation, reducing processing errors and improving user experience";
          "Implemented SEO-optimized marketing website generating significant revenue through strategic optimization and conversion tracking";
          "Developed scalable architecture supporting government API integrations with "
            ++ uptime metrics ++ " reliability" ]
  else if contains "facebook" (lower company) then
    ret [ "Developed Oculus VR ecosystem serving 2.8B+ users, implementing real-time streaming with "
            ++ str_of_nat (performance metrics) ++ "% performance improvement";
          "Built scalable News Feed backend services optimizing content delivery for billions of daily active users";
          "Architected GraphQL live query systems reducing content loading latency by "
            ++ str_of_nat (reduction metrics) ++ "%";
          "Led cross-platform development initiatives with focus on performance and reliability" ]
  else if contains "microsoft" (lower company) then
    ret [ "Developed enterprise communication applications for 300M+ Skype users with "
            ++ uptime metrics ++ " availability";
          "Led Android Remote Desktop Client development reducing connection failures by "
            ++ str_of_nat (reduction metrics) ++ "%";
          "Implemented comprehensive telemetry systems improving application stability and user satisfaction";
          "Built cross-platform solutions with focus on enterprise security and scalability" ]
  else
    ret [ "Developed scalable applications at " ++ company
            ++ " using modern frameworks and architectural patterns";
          "Implemented performance optimizations improving system efficiency by "
            ++ str_of_nat (performance metrics)
            ++ "% and enhancing user experience";
          "Led technical initiatives and collaborated with cross-functional teams for successful project delivery";
          "Delivered high-quality solutions with measurable business impact and "
            ++ uptime metrics ++ " reliability" ].

Definition healthcare_companies : list string :=
  ["bicyclehealth"; "midato health"; "midato healt"].

Definition healthcare_context_keywords : list string :=
  ["health"; "medical"; "patient"; "hipaa"; "telemedicine"].

Definition healthcare_keywords : list string :=
  ["healthcare"; "patient"; "medical"; "hipaa"; "clinical"; "health"].

(** [any(h in experience['company'].lower() for h in healthcare_companies)] *)
Definition is_healthcare_experience (experience : Experience.t) : bool :=
  existsb (fun h => contains h (lower (Experience.company experience)))
    healthcare_companies.

(** [any(keyword in experience['description'].lower() for keyword in ...)] *)
Definition has_healthcare_in_description (experience : Experience.t) : bool :=
  existsb (fun keyword =>
             contains keyword (lower (Experience.description experience)))
    healthcare_context_keywords.

(** [any(keyword in bullet.lower() for keyword in healthcare_keywords)] *)
Definition mentions_healthcare (bullet : string) : bool :=
  existsb (fun keyword => contains keyword (lower bullet)) healthcare_keywords.

Fixpoint chars (s : string) : list json :=
  match s with
  | EmptyString => []
  | String c t => JStr (String c EmptyString) :: chars t
  end.

(** The items [for bullet in result] visits: the elements of a list, the
    keys of a dict, the characters of a string; any other object is not
    iterable. *)
Definition iterate (result : json) : res (list json) :=
  match result with
  | JList l => Ok l
  | JDict d => Ok (map (fun kv => JStr (fst kv)) d)
  | JStr s => Ok (chars s)
  | _ => Raise TypeError
  end.

(** The filtering loop of [generate_experience_bullets_claude]; only a
    string has a method [lower]. *)
Fixpoint filter_bullets (items : list json) (filtered_bullets : list string)
  : res (list string) :=
  match items with
  | [] => Ok filtered_bullets
  | JStr bullet :: rest =>
      if negb (mentions_healthcare bullet)
      then filter_bullets rest (filtered_bullets ++ [bullet])
      else filter_bullets rest filtered_bullets
  | _ :: _ => Raise AttributeError
  end.

Definition filler_bullet (company : string) : string :=
  "Delivered high-performance solutions at " ++ company
  ++ " with measurable business impact".

(** [while len(filtered_bullets) < 3: filtered_bullets.append(...)], run for
    at most [fuel] iterations. *)
Fixpoint pad_bullets (fuel : nat) (company : string)
  (filtered_bullets : list string) : list string :=
  match fuel with
  | 0 => filtered_bullets
  | S fuel' =>
      if List.length filtered_bullets <? 3
      then pad_bullets fuel' company
             (filtered_bullets ++ [filler_bullet company])
      else filtered_bullets
  end.

(** [generate_experience_bullets_claude(job_description, jd_analysis,
    experience)] *)
Definition generate_experience_bullets_claude (client : client)
  (job_description : string) (jd : jd_analysis) (experience : Experience.t)
  : M json :=
  match client with
  | None =>
      bullets <~ get_fallback_bullets (Experience.company experience) ;;
      ret (str_list bullets)
  | Some call =>
      metrics <~ get_varied_metrics ;;
      let is_healthcare_experience := is_healthcare_experience experience in
      let has_healthcare_in_description :=
        has_healthcare_in_description experience in
      try_exceptM
        (text <~ lift call ;;
         let response_text := strip text in
         fallback <~ get_fallback_bullets (Experience.company experience) ;;
         result <~ lift (safe_json_parse (Some response_text)
                           (str_list fallback)) ;;
         if negb is_healthcare_experience
            && negb has_healthcare_in_description
         then
           items <~ lift (iterate result) ;;
           filtered_bullets <~ lift (filter_bullets items []) ;;
           let filtered_bullets :=
             pad_bullets 3 (Experience.company experience) filtered_bullets in
           ret (str_list (firstn 4 filtered_bullets))
         else ret result)
        (fun e =>
           bullets <~ get_fallback_bullets (Experience.company experience) ;;
           ret (str_list bullets))
  end.

(** [get_fallback_project_bullets(project_name)] *)
Definition get_fallback_project_bullets (project_name : string)
  : M (list string) :=
  metrics <~ get_varied_metrics ;;
  ret [ "Engineered " ++ project_name
          ++ " with modern technologies and scalable architecture for optimal performance";
        "Delivered high-impact solution improving system efficiency by "
          ++ str_of_nat (performance metrics)
          ++ "% with measurable business results" ].

(** [isinstance(result, list) and len(result) >= 2] *)
Definition is_list_of_two_or_more (result : json) : bool :=
  match result with
  | JList l => 2 <=? List.length l
  | _ => false
  end.

(** [result[:2]] for a list *)
Definition first_two (result : json) : json :=
  match result with
  | JList l => JList (firstn 2 l)
  | v => v
  end.

(** [generate_project_bullets_claude(job_description, jd_analysis,
    project)] *)
Definition generate_project_bullets_claude (client : client)
  (job_description : string) (jd : jd_analysis) (project : Project.t)
  : M json :=
  match client with
  | None =>
      bullets <~ get_fallback_project_bullets (Project.name project) ;;
      ret (str_list bullets)
  | Some call =>
      metrics <~ get_varied_metrics ;;
      try_exceptM
        (text <~ lift call ;;
         let response_text := strip text in
         fallback <~ get_fallback_project_bullets (Project.name project) ;;
         result <~ lift (safe_json_parse (Some response_text)
                           (str_list fallback)) ;;
         if is_list_of_two_or_more result then ret (first_two result)
         else
           bullets <~ get_fallback_project_bullets (Project.name project) ;;
           ret (str_list bullets))
        (fun e =>
           bullets <~ get_fallback_project_bullets (Project.name project) ;;
           ret (str_list bullets))
  end.

(** [d.get(k, default)] on a table with string keys *)
Fixpoint dict_get {A} (d : list (string * A)) (k : string) (default : A) : A :=
  match d with
  | [] => default
  | (k', v) :: t => if String.eqb k k' then v else dict_get t k default
  end.

(** [get_fallback_tech_stack(role_type)] *)
Definition get_fallback_tech_stack (role_type : string) : string :=
  let tech_stacks :=
    [ ("mobile", "React Native | TypeScript | Node.js");
      ("ai-ml", "Python | TensorFlow | Machine Learning");
      ("frontend", "React.js | TypeScript | CSS3");
      ("backend", "Node.js | PostgreSQL | REST APIs");
      ("fullstack", "React | Node.js | PostgreSQL");
      ("blockchain", "Solidity | Web3.js | Ethereum");
      ("devops", "AWS | Docker | Kubernetes");
      ("data-engineer", "Python | Apache Spark | SQL") ] in
  dict_get tech_stacks role_type "Full-Stack Development".

(** [extract_tech_stack_claude(description, project_name, jd_analysis)] *)
Definition extract_tech_stack_claude (client : client)
  (description project_name : string) (jd : jd_analysis) : res string :=
  match client with
  | None => Ok (get_fallback_tech_stack (role_type jd))
  | Some call =>
      try_except
        (text <- call ;;
         let tech_stack := strip text in
         if contains "|" tech_stack && (String.length tech_stack <? 120)
         then Ok tech_stack
         else Ok (get_fallback_tech_stack (role_type jd)))
        (fun e => Ok (get_fallback_tech_stack (role_type jd)))
  end.

(** [get_fallback_summary(role_type)] *)
Definition get_fallback_summary (role_type : string) : string :=
  let summaries :=
    [ ("mobile", "Senior Mobile Engineer with 10+ years at Microsoft and Facebook, specializing in React Native and cross-platform mobile development, with experience delivering healthcare solutions through projects like BicycleHealth telemedicine platform.");
      ("ai-ml", "Senior AI/ML Engineer with 10+ years at Microsoft and Facebook, expert in machine learning, NLP, and AI systems, with healthcare domain experience through telemedicine and consent management platforms.");
      ("frontend", "Senior Frontend Engineer with 10+ years at Microsoft and Facebook, specializing in React.js and modern web technologies, with proven experience building HIPAA-compliant healthcare applications.");
      ("backend", "Senior Backend Engineer with 10+ years at Microsoft and Facebook, expert in scalable systems, APIs, and microservices architecture, with healthcare platform experience including telemedicine solutions.");
      ("fullstack", "Senior Full-Stack Engineer with 10+ years at Microsoft and Facebook, expert in modern web technologies and scalable systems, with hands-on experience developing healthcare platforms including BicycleHealth and Midato Health.");
      ("blockchain", "Senior Blockchain Engineer with 10+ years at Microsoft and Facebook, specializing in Web3 technologies, smart contracts, and decentralized applications.");
      ("devops", "Senior DevOps Engineer with 10+ years at Microsoft and Facebook, expert in cloud infrastructure, automation, and scalable deployment pipelines.") ] in
  if contains "healthcare" (lower role_type) then
    dict_get summaries "fullstack" (dict_get summaries "fullstack" EmptyString)
  else
    dict_get summaries role_type
      ("Senior " ++ role_type
       ++ " with 10+ years at Microsoft and Facebook, expert in scalable systems and modern technologies, with experience in healthcare applications through BicycleHealth and Midato Health projects.").

(** [generate_professional_summary_claude(job_description, jd_analysis)] *)
Definition generate_professional_summary_claude (client : client)
  (job_description : string) (jd : jd_analysis) : res string :=
  match client with
  | None => Ok (get_fallback_summary (role_type jd))
  | Some call =>
      let role_type := role_type jd in
      try_except
        (text <- call ;;
         let summary := strip text in
         let summary := strip_char "'"%char (strip_char quote summary) in
         if nonempty summary && (30 <? String.length summary)
         then Ok summary
         else Ok (get_fallback_summary role_type))
        (fun e => Ok (get_fallback_summary role_type))
  end.

Definition skills (languages frameworks tools cloud other : list string)
  : json :=
  JDict [ ("languages", str_list languages);
          ("frameworks", str_list frameworks);
          ("tools", str_list tools);
          ("cloud", str_list cloud);
          ("other", str_list other) ].

(** [get_fallback_skills(role_type)] *)
Definition get_fallback_skills (role_type : string) : json :=
  let skills_by_role :=
    [ ("mobile",
       skills ["JavaScript"; "TypeScript"; "Swift"; "Kotlin"]
              ["React Native"; "React.js"; "Node.js"; "Express.js"]
              ["Xcode"; "Android Studio"; "Firebase"; "GraphQL"]
              ["AWS"; "Google Cloud"; "Azure"; "Heroku"]
              ["iOS Development"; "Android Development"; "Mobile UI/UX";
               "App Store Optimization"]);
      ("ai-ml",
       skills ["Python"; "JavaScript"; "R"; "SQL"]
              ["TensorFlow"; "PyTorch"; "Scikit-learn"; "OpenAI"]
              ["Jupyter"; "Docker"; "Git"; "MLflow"]
              ["AWS"; "Google Cloud"; "Azure"; "Databricks"]
              ["Machine Learning"; "NLP"; "Deep Learning"; "Data Science"]);
      ("frontend",
       skills ["JavaScript"; "TypeScript"; "HTML5"; "CSS3"]
              ["React.js"; "Vue.js"; "Next.js"; "Angular"]
              ["Webpack"; "Vite"; "ESLint"; "Jest"]
              ["AWS"; "Vercel"; "Netlify"; "CloudFlare"]
              ["Responsive Design"; "UI/UX"; "Accessibility";
               "Performance Optimization"]);
      ("backend",
       skills ["JavaScript"; "Python"; "Java"; "Go"]
              ["Node.js"; "Express.js"; "Django"; "Spring"]
              ["PostgreSQL"; "MongoDB"; "Redis"; "GraphQL"]
              ["AWS"; "Docker"; "Kubernetes"; "Azure"]
              ["API Design"; "Microservices"; "Database Design";
               "System Architecture"]) ] in
  dict_get skills_by_role role_type
    (skills ["JavaScript"; "TypeScript"; "Python"; "Java"]
            ["React.js"; "Node.js"; "Express.js"; "Next.js"]
            ["Git"; "Docker"; "PostgreSQL"; "GraphQL"]
            ["AWS"; "Azure"; "Google Cloud"; "Heroku"]
            ["Agile"; "REST APIs"; "CI/CD"; "Testing"]).

(** [isinstance(result, dict)] *)
Definition is_dict (result : json) : bool :=
  match result with JDict _ => true | _ => false end.

(** [generate_skills_section_claude(job_description, jd_analysis,
    all_experiences, all_projects)] *)
Definition generate_skills_section_claude (client : client)
  (job_description : string) (jd : jd_analysis)
  (all_experiences : list Experience.t) (all_projects : list Project.t)
  : res json :=
  match client with
  | None => Ok (get_fallback_skills (role_type jd))
  | Some call =>
      try_except
        (text <- call ;;
         let response_text := strip text in
         result <- safe_json_parse (Some response_text)
                     (get_fallback_skills (role_type jd)) ;;
         if is_dict result then Ok result
         else Ok (get_fallback_skills (role_type jd)))
        (fun e => Ok (get_fallback_skills (role_type jd)))
  end.

(* ------------------------------------------------------------------ *)
(** ** Vocabulary of the properties *)

(** The result of a computation started in the state [g] of the random
    source. *)
Definition run {A} (m : M A) (g : rng) : res A := fst (m g).

(** A random source whose every draw is [n]. *)
Definition constant_rng (n : nat) : rng := {| draws := fun _ => n; pos := 0 |}.

(** Two states of the random source that deliver the same draws from now
    on. *)
Definition same_draws (g1 g2 : rng) : Prop :=
  forall i, draws g1 (pos g1 + i) = draws g2 (pos g2 + i).

(** The gateway is unavailable: the client is not configured or the call
    fails. *)
Definition unavailable (c : client) : bool :=
  match c with
  | None => true
  | Some (Raise _) => true
  | Some (Ok _) => false
  end.

(** Occurrence of a character in a string. *)
Fixpoint occurs (c : ascii) (s : string) : bool :=
  match s with
  | EmptyString => false
  | String a t => Ascii.eqb a c || occurs c t
  end.

(** A JSON text written with apostrophes in place of double quotes. *)
Fixpoint json_text (s : string) : string :=
  match s with
  | EmptyString => EmptyString
  | String c t =>
      String (if Ascii.eqb c "'"%char then quote else c) (json_text t)
  end.

(** [l] is in descending order of [key]. *)
Definition descending {A} (key : A -> nat) (l : list A) : Prop :=
  StronglySorted (fun a b => key b <= key a) l.

(** [x] stands at some position of [l] and [y] at a later one. *)
Definition before {A} (x y : A) (l : list A) : Prop :=
  exists l1 l2 l3, l = (l1 ++ x :: l2 ++ y :: l3)%list.

Definition has_key {A} (key : A -> nat) (s : nat) (x : A) : bool :=
  key x =? s.

Definition set_description (exp : Experience.t) (d : string) : Experience.t :=
  {| Experience.company := Experience.company exp;
     Experience.role := Experience.role exp;
     Experience.duration := Experience.duration exp;
     Experience.job_type := Experience.job_type exp;
     Experience.description := d |}.

Definition set_project_description (proj : Project.t) (d : string)
  : Project.t :=
  {| Project.name := Project.name proj;
     Project.link := Project.link proj;
     Project.description := d |}.

Definition set_name (proj : Project.t) (n : string) : Project.t :=
  {| Project.name := n;
     Project.link := Project.link proj;
     Project.description := Project.description proj |}.

(** The profile [jd] with its list of key technologies emptied: under it a
    record collects every bonus but the one for key technologies. *)
Definition without_key_technologies (jd : jd_analysis) : jd_analysis :=
  {| role_type := role_type jd;
     seniority_level := seniority_level jd;
     primary_skills := primary_skills jd;
     key_technologies := [];
     ats_keywords := ats_keywords jd;
     focus_areas := focus_areas jd;
     industry_context := industry_context jd |}.

(** The profile of scenario A. *)
Definition backend_profile : jd_analysis :=
  {| role_type := "backend";
     seniority_level := "senior";
     primary_skills := ["Node.js"];
     key_technologies := ["PostgreSQL"];
     ats_keywords := [];
     focus_areas := [];
     industry_context := "enterprise" |}.

Definition experience (company duration description : string)
  : Experience.t :=
  {| Experience.company := company;
     Experience.role := "SOFTWARE ENGINEER";
     Experience.duration := duration;
     Experience.job_type := "Remote";
     Experience.description := description |}.

Definition project (name description : string) : Project.t :=
  {| Project.name := name;
     Project.link := "https://example.org/";
     Project.description := description |}.

(** Two records for scenario A: only the first mentions PostgreSQL. *)
Definition postgresql_record : Experience.t :=
  experience "ACME" "Jan 2015 - Dec 2016" "Maintained PostgreSQL clusters".

Definition recent_api_record : Experience.t :=
  experience "INITECH" "Mar 2021 - Present" "Built Node.js API services".

Definition plain_record : Experience.t :=
  experience "INITECH" "Jan 2015 - Dec 2016" "Maintained build scripts".

(** A gateway answer with three bullets, one with two numbers. *)
Definition three_bullets : string := json_text "['a', 'b', 'c']".

Definition two_numbers : string := json_text "[1, 2]".

Definition sample_project : Project.t :=
  project "WikiSearch" "AI-powered vector search engine".

(** A computation whose result depends on the random source only through
    the draws it makes. *)
Definition respects_draws {A} (m : M A) : Prop :=
  forall g1 g2,
    same_draws g1 g2 ->
    fst (m g1) = fst (m g2) /\ same_draws (snd (m g1)) (snd (m g2)).

(** A bullet without healthcare keyword. *)
Definition clean (bullet : string) : Prop := mentions_healthcare bullet = false.

(** An employer that is not flagged as healthcare, neither by its name nor
    by its description. *)
Definition unflagged (exp : Experience.t) : Prop :=
  is_healthcare_experience exp = false /\
  has_healthcare_in_description exp = false.

Definition acme_record : Experience.t :=
  experience "ACME" "2019 - 2021" "Built the ordering portal".

(** A record of an employer whose name contains a healthcare keyword
    without being one of the recognised healthcare employers. *)
Definition healthy_snacks_record : Experience.t :=
  experience "Healthy Snacks" "2019 - 2021" "Built the ordering portal".

Definition one_plain_bullet : string :=
  json_text "['Built the ordering API']".

(** A record of a recognised healthcare employer. *)
Definition bicyclehealth_record : Experience.t :=
  experience "BicycleHealth" "2019 - 2021"
    "Built the telemedicine app for patients".

Definition one_healthcare_bullet : string :=
  json_text "['Led development of the telemedicine app']".

Definition bullets_in_an_object : string :=
  json_text "{'bullets': ['a', 'b', 'c']}".

(** Two different states of the random source with the same draws ahead. *)
Definition rng_a : rng := {| draws := fun i => i; pos := 2 |}.
Definition rng_b : rng := {| draws := fun i => i + 2; pos := 0 |}.

(** A gateway answer of scenario D: five bullets, two about patient care. *)
Definition five_bullets : string :=
  json_text "['Built APIs', 'Improved patient care workflows', 'Led a team', 'Supported patient care staff', 'Cut latency']".

(* ------------------------------------------------------------------ *)
(** ** LaTeX escaping *)

(** [s.replace(old, new)] for a one-character string [old]: every
    occurrence of the character is replaced. *)
Fixpoint replace (old : ascii) (new : string) (s : string) : string :=
  match s with
  | EmptyString => EmptyString
  | String c t =>
      if Ascii.eqb c old then new ++ replace old new t
      else String c (replace old new t)
  end.

(** The table [latex_special_chars], in the order of its items; every key
    is one character. *)
Definition latex_special_chars : list (ascii * string) :=
  [ ("&"%char, "\&");
    ("%"%char, "\%");
    ("$"%char, "\$");
    ("#"%char, "\#");
    ("_"%char, "\_");
    ("{"%char, "\{");
    ("}"%char, "\}");
    ("~"%char, "\textasciitilde{}");
    ("^"%char, "\textasciicircum{}") ].

(** [escape_latex_chars(text)] *)
Definition escape_latex_chars (text : string) : string :=
  if negb (nonempty text) then EmptyString
  else
    let escaped_text := text in
    fold_left
      (fun escaped_text item => replace (fst item) (snd item) escaped_text)
      latex_special_chars escaped_text.

(* ------------------------------------------------------------------ *)
(** ** Job-description analyser *)

(** [get_fallback_jd_analysis()] *)
Definition get_fallback_jd_analysis : json :=
  JDict
    [ ("role_type", JStr "fullstack");
      ("seniority_level", JStr "senior");
      ("primary_skills",
       str_list ["JavaScript"; "React"; "Node.js"; "Python"; "AWS"]);
      ("key_technologies",
       str_list ["React Native"; "TypeScript"; "PostgreSQL"; "Docker";
                 "GraphQL"]);
      ("ats_keywords",
       str_list ["software engineer"; "development"; "full-stack";
                 "scalable"; "agile"]);
      ("focus_areas",
       str_list ["scalability"; "performance"; "user experience"]);
      ("industry_context", JStr "enterprise") ].

(** [k in d] for a dict [d] *)
Definition key_in (k : string) (d : list (string * json)) : bool :=
  existsb (fun kv => String.eqb k (fst kv)) d.

(** [analyze_job_description_claude(job_description)]; the description
    only enters the prompt, cut to its first 2500 characters. *)
Definition analyze_job_description_claude (client : client)
  (job_description : string) : res json :=
  match client with
  | None => Ok get_fallback_jd_analysis
  | Some call =>
      try_except
        (text <- call ;;
         let response_text := strip text in
         result <- safe_json_parse (Some response_text)
                     get_fallback_jd_analysis ;;
         match result with
         | JDict d =>
             if negb (key_in "role_type" d) then Ok get_fallback_jd_analysis
             else Ok result
         | _ => Ok get_fallback_jd_analysis
         end)
        (fun e => Ok get_fallback_jd_analysis)
  end.

(* ------------------------------------------------------------------ *)
(** ** Loading the records *)

(** [load_experience_data()].  [file] is the outcome of opening and reading
    [experience_data.json]: its content, or the exception raised
    ([FileNotFoundError] or any other); [get_sample_data] stands for the
    literal that [get_sample_data()] returns.  The three handlers return
    the sample data. *)
Definition load_experience_data (get_sample_data : json) (file : res string)
  : res json :=
  try_except
    (content <- file ;;
     let content := strip content in
     if negb (nonempty content) then Ok get_sample_data
     else loads content)
    (fun e => Ok get_sample_data).

(* ------------------------------------------------------------------ *)
(** ** Vocabulary of the further properties *)

(** The escape of one character: its entry in [latex_special_chars], or
    the character itself. *)
Definition escape_char (c : ascii) : string :=
  match find (fun item => Ascii.eqb (fst item) c) latex_special_chars with
  | Some item => snd item
  | None => String c EmptyString
  end.

(** Every character replaced by its escape, in one pass. *)
Fixpoint escape_each (s : string) : string :=
  match s with
  | EmptyString => EmptyString
  | String c t => escape_char c ++ escape_each t
  end.

(** [c] is a key of [latex_special_chars]. *)
Definition is_special (c : ascii) : bool :=
  existsb (fun item => Ascii.eqb (fst item) c) latex_special_chars.

Fixpoint has_special (s : string) : bool :=
  match s with
  | EmptyString => false
  | String c t => is_special c || has_special t
  end.

(** [s] has an [open] character with a [close] character somewhere after
    it. *)
Definition has_span (open close : ascii) (s : string) : bool :=
  match Re.after_first open s with
  | Some t => occurs close t
  | None => false
  end.

(** [isinstance(v, list)] *)
Definition is_list (v : json) : bool :=
  match v with JList _ => true | _ => false end.

(** [isinstance(v, str)] *)
Definition is_str (v : json) : bool :=
  match v with JStr _ => true | _ => false end.

(** A record is flagged as healthcare by its employer name or by its
    description. *)
Definition flagged (exp : Experience.t) : Prop :=
  is_healthcare_experience exp = true \/
  has_healthcare_in_description exp = true.

Definition set_key_technologies (jd : jd_analysis) (kt : list string)
  : jd_analysis :=
  {| role_type := role_type jd;
     seniority_level := seniority_level jd;
     primary_skills := primary_skills jd;
     key_technologies := kt;
     ats_keywords := ats_keywords jd;
     focus_areas := focus_areas jd;
     industry_context := industry_context jd |}.

Definition set_primary_skills (jd : jd_analysis) (ps : list string)
  : jd_analysis :=
  {| role_type := role_type jd;
     seniority_level := seniority_level jd;
     primary_skills := ps;
     key_technologies := key_technologies jd;
     ats_keywords := ats_keywords jd;
     focus_areas := focus_areas jd;
     industry_context := industry_context jd |}.

(** The characters of [s] that satisfy [p], in their order. *)
Fixpoint keep (p : ascii -> bool) (s : string) : string :=
  match s with
  | EmptyString => EmptyString
  | String c t => if p c then String c (keep p t) else keep p t
  end.

(** [c] is one of the two characters [a] and [b]. *)
Definition either (a b : ascii) (c : ascii) : bool :=
  Ascii.eqb c a || Ascii.eqb c b.

(** The two sentences that quote the employer name: the filler of the
    truthfulness filter and the first sentence of the general fallback. *)
Definition names_employer (company bullet : string) : Prop :=
  bullet = filler_bullet company \/
  bullet = "Developed scalable applications at " ++ company
           ++ " using modern frameworks and architectural patterns".

(** A bullet with no healthcare keyword of its own: it is clean, or it is
    one of the two sentences above for an employer name that has a
    keyword. *)
Definition truthful (company bullet : string) : Prop :=
  clean bullet \/
  (mentions_healthcare company = true /\ names_employer company bullet).

(* ------------------------------------------------------------------ *)
(** ** The scores on text beyond Latin-1 *)

(** [str.lower] is character-wise on Latin-1 text.  On Unicode text it is
    not: the capital sigma U+03A3 becomes the final sigma U+03C2 at the end
    of a word and the small sigma U+03C3 elsewhere, so the lowering of one
    character depends on its neighbours.  The two scores are therefore given
    a second time, over the alphabet that adds the three sigmas to Latin-1;
    on Latin-1 records they are the scores above. *)
Module Wide.
Local Open Scope list_scope.

Inductive char : Type :=
| Latin1 (c : ascii)
| CapitalSigma
| SmallSigma
| FinalSigma.

(** A Python [str] over Latin-1 and the three sigmas. *)
Definition str : Type := list char.

(** A Latin-1 text as a text of the wider alphabet. *)
Definition text (s : string) : str := map Latin1 (list_ascii_of_string s).

Definition char_eqb (a b : char) : bool :=
  match a, b with
  | Latin1 x, Latin1 y => Ascii.eqb x y
  | CapitalSigma, CapitalSigma => true
  | SmallSigma, SmallSigma => true
  | FinalSigma, FinalSigma => true
  | _, _ => false
  end.

(** [a == b] for two strings *)
Fixpoint eqb (a b : str) : bool :=
  match a, b with
  | [], [] => true
  | x :: a', y :: b' => char_eqb x y && eqb a' b'
  | _, _ => false
  end.

(** The Unicode property Cased: the letters of Latin-1 (the feminine and
    masculine ordinal indicators and the micro sign among them) and the
    sigmas. *)
Definition cased (c : char) : bool :=
  match c with
  | Latin1 a =>
      let n := code a in
      ((65 <=? n) && (n <=? 90)) || ((97 <=? n) && (n <=? 122))
      || (n =? 170) || (n =? 181) || (n =? 186)
      || ((192 <=? n) && (n <=? 255) && negb (n =? 215) && negb (n =? 247))
  | _ => true
  end.

(** The Unicode property Case_Ignorable: apostrophe, full stop, colon,
    circumflex, grave accent, diaeresis, soft hyphen, macron, acute accent,
    middle dot and cedilla. *)
Definition case_ignorable (c : char) : bool :=
  match c with
  | Latin1 a =>
      existsb (Nat.eqb (code a))
        [39; 46; 58; 94; 96; 168; 173; 175; 180; 183; 184]
  | _ => false
  end.

Fixpoint skip_ignorable (s : str) : str :=
  match s with
  | [] => []
  | c :: t => if case_ignorable c then skip_ignorable t else s
  end.

(** Whether a capital sigma is in final position: the nearest character
    before it that is not case-ignorable exists and is cased, and the
    nearest such character after it does not exist or is not cased.
    [before] holds the characters in front of the sigma, the nearest one
    first. *)
Definition final_sigma (before after : str) : bool :=
  match skip_ignorable before with
  | [] => false
  | c :: _ =>
      cased c
      && match skip_ignorable after with
         | [] => true
         | c' :: _ => negb (cased c')
         end
  end.

(** The lowering of the characters [s] that follow the characters [before]
    (nearest first) in a text. *)
Fixpoint lower_from (before s : str) : str :=
  match s with
  | [] => []
  | c :: t =>
      match c with
      | Latin1 a => Latin1 (lower_char a)
      | CapitalSigma =>
          if final_sigma before t then FinalSigma else SmallSigma
      | SmallSigma => SmallSigma
      | FinalSigma => FinalSigma
      end :: lower_from (c :: before) t
  end.

(** [s.lower()] *)
Definition lower (s : str) : str := lower_from [] s.

Fixpoint startswith (p s : str) : bool :=
  match p, s with
  | [], _ => true
  | _ :: _, [] => false
  | a :: p', b :: s' => char_eqb a b && startswith p' s'
  end.

(** [needle in hay] for two strings. *)
Fixpoint contains (needle hay : str) : bool :=
  startswith needle hay ||
  match hay with
  | [] => false
  | _ :: t => contains needle t
  end.

(** [any(k in s for k in ks)] for keywords written in Latin-1 *)
Definition any_in (ks : list string) (s : str) : bool :=
  existsb (fun k => contains (text k) s) ks.

Record jd_analysis : Type :=
  { role_type : str;
    seniority_level : str;
    primary_skills : list str;
    key_technologies : list str;
    ats_keywords : list str;
    focus_areas : list str;
    industry_context : str }.

Module Experience.
Record t : Type :=
  { company : str;
    role : str;
    duration : str;
    job_type : str;
    description : str }.

End Experience.

Module Project.
Record t : Type :=
  { name : str;
    link : str;
    description : str }.

End Project.

(** [for k in keys: if k in text: score += bonus] *)
Definition add_matches (bonus : nat) (keys : list str) (text : str)
  (score : nat) : nat :=
  fold_left (fun score k => if contains k text then score + bonus else score)
    keys score.

(** The score [select_relevant_experiences] gives to one record: the body
    of its loop. *)
Definition experience_score (jd : jd_analysis) (exp : Experience.t) : nat :=
  let role_type := role_type jd in
  let key_technologies := map lower (key_technologies jd) in
  let primary_skills := map lower (primary_skills jd) in
  let score := 0 in
  let description_lower := lower (Experience.description exp) in
  let score := add_matches 2 key_technologies description_lower score in
  let score := add_matches 1 primary_skills description_lower score in
  let score :=
    if contains (text "present") (lower (Experience.duration exp))
    then score + 3
    else if any_in ["2023"; "2024"; "2025"] (Experience.duration exp)
    then score + 2
    else if any_in ["2020"; "2021"; "2022"] (Experience.duration exp)
    then score + 1
    else score in
  let score :=
    if eqb role_type (text "mobile")
       && any_in ["react native"; "ios"; "android"; "mobile"]
            description_lower
    then score + 3
    else if eqb role_type (text "ai-ml")
       && any_in ["ai"; "ml"; "machine learning"; "nlp"; "tensorflow"]
            description_lower
    then score + 3
    else if eqb role_type (text "backend")
       && any_in ["node.js"; "python"; "api"; "database"; "server"]
            description_lower
    then score + 3
    else if eqb role_type (text "frontend")
       && any_in ["react"; "vue"; "angular"; "frontend"; "ui"]
            description_lower
    then score + 3
    else score in
  score.

(** The score [select_relevant_projects] gives to one record. *)
Definition project_score (jd : jd_analysis) (proj : Project.t) : nat :=
  let role_type := role_type jd in
  let key_technologies := map lower (key_technologies jd) in
  let primary_skills := map lower (primary_skills jd) in
  let industry_context := industry_context jd in
  let score := 0 in
  let description_lower := lower (Project.description proj) in
  let name_lower := lower (Project.name proj) in
  let score := add_matches 2 key_technologies description_lower score in
  let score := add_matches 1 primary_skills description_lower score in
  let score :=
    if eqb industry_context (text "healthcare")
       && any_in ["health"; "medical"; "hipaa"; "patient"] description_lower
    then score + 3
    else if eqb industry_context (text "fintech")
       && any_in ["payment"; "financial"; "stripe"; "blockchain"]
            description_lower
    then score + 3
    else if eqb industry_context (text "ecommerce")
       && any_in ["ecommerce"; "shopping"; "marketplace"; "retail"]
            description_lower
    then score + 3
    else score in
  let score :=
    if eqb role_type (text "mobile")
       && any_in ["react native"; "ios"; "android"; "mobile app"]
            description_lower
    then score + 4
    else if eqb role_type (text "ai-ml")
       && any_in ["ai"; "ml"; "machine learning"; "nlp"; "openai"; "llm"]
            description_lower
    then score + 4
    else if eqb role_type (text "blockchain")
       && any_in ["blockchain"; "web3"; "ethereum"; "smart contract"]
            description_lower
    then score + 4
    else if eqb role_type (text "backend")
       && any_in ["api"; "database"; "server"; "microservices"]
            description_lower
    then score + 3
    else if eqb role_type (text "frontend")
       && any_in ["react"; "vue"; "angular"; "frontend"; "ui/ux"]
            description_lower
    then score + 3
    else score in
  score.

(** *** Vocabulary *)

Definition set_description (exp : Experience.t) (d : str) : Experience.t :=
  {| Experience.company := Experience.company exp;
     Experience.role := Experience.role exp;
     Experience.duration := Experience.duration exp;
     Experience.job_type := Experience.job_type exp;
     Experience.description := d |}.

Definition set_project_description (proj : Project.t) (d : str)
  : Project.t :=
  {| Project.name := Project.name proj;
     Project.link := Project.link proj;
     Project.description := d |}.

(** The text has a capital sigma. *)
Definition has_capital_sigma (s : str) : bool :=
  existsb (char_eqb CapitalSigma) s.

(** Appending [extra] to [description] leaves the lowering of the characters
    of [description] as it is: the lowered description is the beginning of
    the lowered extended description. *)
Definition lowers_alike (description extra : str) : bool :=
  startswith (lower description) (lower (description ++ extra)).

End Wide.

(** Latin-1 records as records of the wider alphabet. *)
Definition widen_profile (jd : jd_analysis) : Wide.jd_analysis :=
  {| Wide.role_type := Wide.text (role_type jd);
     Wide.seniority_level := Wide.text (seniority_level jd);
     Wide.primary_skills := map Wide.text (primary_skills jd);
     Wide.key_technologies := map Wide.text (key_technologies jd);
     Wide.ats_keywords := map Wide.text (ats_keywords jd);
     Wide.focus_areas := map Wide.text (focus_areas jd);
     Wide.industry_context := Wide.text (industry_context jd) |}.

Definition widen_experience (exp : Experience.t) : Wide.Experience.t :=
  {| Wide.Experience.company := Wide.text (Experience.company exp);
     Wide.Experience.role := Wide.text (Experience.role exp);
     Wide.Experience.duration := Wide.text (Experience.duration exp);
     Wide.Experience.job_type := Wide.text (Experience.job_type exp);
     Wide.Experience.description := Wide.text (Experience.description exp) |}.

Definition widen_project (proj : Project.t) : Wide.Project.t :=
  {| Wide.Project.name := Wide.text (Project.name proj);
     Wide.Project.link := Wide.text (Project.link proj);
     Wide.Project.description := Wide.text (Project.description proj) |}.

(** The profile and the record of a description that ends in a capital
    sigma: the profile asks for the final sigma, as a key technology and as
    a primary skill, and for the key technology "B". *)
Definition sigma_profile : Wide.jd_analysis :=
  {| Wide.role_type := Wide.text "fullstack";
     Wide.seniority_level := Wide.text "senior";
     Wide.primary_skills := [[Wide.FinalSigma]];
     Wide.key_technologies := [[Wide.FinalSigma]; Wide.text "B"];
     Wide.ats_keywords := [];
     Wide.focus_areas := [];
     Wide.industry_context := Wide.text "enterprise" |}.

Definition sigma_record : Wide.Experience.t :=
  {| Wide.Experience.company := Wide.text "ACME";
     Wide.Experience.role := Wide.text "SOFTWARE ENGINEER";
     Wide.Experience.duration := Wide.text "2019";
     Wide.Experience.job_type := Wide.text "Remote";
     Wide.Experience.description :=
       (Wide.text "A" ++ [Wide.CapitalSigma])%list |}.

Definition sigma_project : Wide.Project.t :=
  {| Wide.Project.name := Wide.text "Portal";
     Wide.Project.link := Wide.text "https://example.org/";
     Wide.Project.description :=
       (Wide.text "A" ++ [Wide.CapitalSigma])%list |}.

(* ------------------------------------------------------------------ *)
(** ** Facts about strings *)

Section StringFacts.

Lemma append_nil_r (s : string) : s ++ "" = s.
Proof. induction s; simpl; congruence. Qed.

Lemma append_assoc (a b c : string) : (a ++ b) ++ c = a ++ (b ++ c).
Proof. induction a; simpl; congruence. Qed.

Lemma length_append (a b : string) :
  String.length (a ++ b) = String.length a + String.length b.
Proof. induction a; simpl; congruence. Qed.

Lemma lower_append (a b : string) : lower (a ++ b) = lower a ++ lower b.
Proof. induction a; simpl; congruence. Qed.

Lemma startswith_iff (p s : string) :
  startswith p s = true <-> exists q, s = p ++ q.
Proof.
  revert s; induction p as [|a p IH]; intros s; simpl.
  - split; [eauto | reflexivity].
  - destruct s as [|b s].
    + split; [discriminate | intros [q Hq]; discriminate].
    + rewrite andb_true_iff, Ascii.eqb_eq, IH. split.
      * intros [-> [q ->]]. eauto.
      * intros [q Hq]. injection Hq as -> ->. eauto.
Qed.

Lemma contains_iff (k s : string) :
  contains k s = true <-> exists p q, s = p ++ k ++ q.
Proof.
  induction s as [|c s IH]; simpl.
  - rewrite orb_false_r, startswith_iff. split.
    + intros [q ->]. exists "", q. reflexivity.
    + intros [p [q H]]. destruct p; simpl in H; [eauto | discriminate].
  - rewrite orb_true_iff, startswith_iff, IH. split.
    + intros [[q ->] | [p [q ->]]].
      * exists "", q. reflexivity.
      * exists (String c p), q. reflexivity.
    + intros [p [q H]]. destruct p as [|c' p]; simpl in H.
      * left. eauto.
      * right. injection H as _ ->. eauto.
Qed.

Lemma contains_append_l (k a b : string) :
  contains k a = true -> contains k (a ++ b) = true.
Proof.
  rewrite !contains_iff. intros [p [q ->]]. exists p, (q ++ b).
  now rewrite !append_assoc.
Qed.

Lemma contains_append_r (k a b : string) :
  contains k b = true -> contains k (a ++ b) = true.
Proof.
  rewrite !contains_iff. intros [p [q ->]]. exists (a ++ p), q.
  now rewrite !append_assoc.
Qed.

Lemma occurs_append (c : ascii) (a b : string) :
  occurs c (a ++ b) = occurs c a || occurs c b.
Proof. induction a; simpl; [reflexivity | rewrite IHa; now rewrite orb_assoc]. Qed.

(** Two ways of cutting one string in two. *)
Lemma append_eq_append (a b c d : string) :
  a ++ b = c ++ d ->
  (exists m, c = a ++ m /\ b = m ++ d) \/ (exists m, a = c ++ m /\ d = m ++ b).
Proof.
  revert c; induction a as [|x a IH]; intros c H; simpl in H.
  - left. exists c. split; [reflexivity | assumption].
  - destruct c as [|y c]; simpl in H.
    + right. exists (String x a). split; [reflexivity | now rewrite <- H].
    + injection H as -> H. destruct (IH _ H) as [[m [-> ->]] | [m [-> ->]]].
      * left. exists m. split; reflexivity.
      * right. exists m. split; reflexivity.
Qed.

(** A needle that does not contain the separator cannot lie across it. *)
Lemma contains_separated (k a b : string) (sep : ascii) :
  occurs sep k = false ->
  contains k (a ++ String sep b) = contains k a || contains k b.
Proof.
  intros Hk. apply eq_true_iff_eq. rewrite orb_true_iff. split.
  - rewrite contains_iff. intros [p [q H]].
    destruct (append_eq_append _ _ _ _ H) as [[m [Hp Hm]] | [m [Ha Hm]]].
    + (* p = a ++ m *)
      destruct m as [|x m]; simpl in Hm.
      * (* k ++ q = sep :: b, k must start with sep or be empty *)
        destruct k as [|y k]; simpl in *.
        -- left. apply contains_iff. exists a, "". now rewrite append_nil_r.
        -- injection Hm as <- _. rewrite Ascii.eqb_refl in Hk. discriminate.
      * injection Hm as _ ->. right. apply contains_iff. eauto.
    + (* a = p ++ m, k ++ q = m ++ sep :: b *)
      symmetry in Hm.
      destruct (append_eq_append _ _ _ _ Hm) as [[n [Hk' Hn]] | [n [Hm' Hn]]].
      * (* k = m ++ n, sep :: b = n ++ q *)
        destruct n as [|x n]; simpl in Hn.
        -- left. rewrite append_nil_r in Hk'. subst. apply contains_iff.
           exists p, "". now rewrite append_nil_r.
        -- injection Hn as <- _. subst k. rewrite occurs_append in Hk.
           simpl in Hk. rewrite Ascii.eqb_refl in Hk. simpl in Hk.
           rewrite orb_true_r in Hk. discriminate.
      * left. subst. apply contains_iff. eauto.
  - intros [H | H].
    + now apply contains_append_l.
    + apply contains_append_r. simpl. rewrite H. apply orb_true_r.
Qed.

End StringFacts.

(* ------------------------------------------------------------------ *)
(** ** Facts about the stable sort *)

Section Sorting.
Context {A : Type} (key : A -> nat).

Lemma insert_desc_perm (x : A) (l : list A) :
  Permutation (insert_desc key x l) (x :: l).
Proof.
  induction l as [|y l IH]; simpl; [reflexivity|].
  destruct (key x <? key y); [|reflexivity].
  rewrite IH. apply perm_swap.
Qed.

Lemma sort_reverse_perm (l : list A) : Permutation (sort_reverse key l) l.
Proof.
  induction l as [|x l IH]; simpl; [reflexivity|].
  rewrite insert_desc_perm. now constructor.
Qed.

Lemma insert_desc_descending (x : A) (l : list A) :
  descending key l -> descending key (insert_desc key x l).
Proof.
  unfold descending. induction l as [|y l IH]; intros Hl; simpl.
  - repeat constructor.
  - inversion Hl as [|? ? Hs Hy]; subst.
    destruct (key x <? key y) eqn:E.
    + apply Nat.ltb_lt in E. constructor; [auto|].
      rewrite Forall_forall in *. intros z Hz.
      apply (Permutation_in _ (insert_desc_perm x l)) in Hz.
      destruct Hz as [<- | Hz]; [lia | auto].
    + apply Nat.ltb_ge in E. constructor; [assumption|].
      constructor; [assumption|].
      rewrite Forall_forall in *. intros z Hz. specialize (Hy z Hz). lia.
Qed.

Lemma sort_reverse_descending (l : list A) : descending key (sort_reverse key l).
Proof.
  induction l; simpl; [constructor | now apply insert_desc_descending].
Qed.

Lemma insert_desc_filter (s : nat) (x : A) (l : list A) :
  filter (has_key key s) (insert_desc key x l) = filter (has_key key s) (x :: l).
Proof.
  induction l as [|y l IH]; [reflexivity|].
  cbn [insert_desc]. destruct (key x <? key y) eqn:E; [|reflexivity].
  apply Nat.ltb_lt in E. cbn [filter] in *. rewrite IH. unfold has_key.
  destruct (key x =? s) eqn:Ex, (key y =? s) eqn:Ey; try reflexivity.
  apply Nat.eqb_eq in Ex, Ey. lia.
Qed.

(** Stability: the elements of any one key keep their order. *)
Lemma sort_reverse_stable (s : nat) (l : list A) :
  filter (has_key key s) (sort_reverse key l) = filter (has_key key s) l.
Proof.
  induction l as [|x l IH]; [reflexivity|].
  cbn [sort_reverse]. rewrite insert_desc_filter. cbn [filter]. now rewrite IH.
Qed.

Lemma descending_firstn (k : nat) (l : list A) :
  descending key l -> descending key (firstn k l).
Proof.
  unfold descending. revert k; induction l as [|x l IH]; intros k Hl.
  - destruct k; constructor.
  - destruct k; [constructor|]. inversion Hl as [|? ? Hs Hx]; subst.
    cbn [firstn]. constructor; [auto|].
    rewrite Forall_forall in *. intros z Hz. apply Hx.
    rewrite <- (firstn_skipn k l). apply in_or_app. now left.
Qed.

Lemma filter_firstn_prefix (p : A -> bool) (k : nat) (l : list A) :
  filter p l = (filter p (firstn k l) ++ filter p (skipn k l))%list.
Proof. rewrite <- filter_app. now rewrite firstn_skipn. Qed.

Lemma filter_split (p : A -> bool) (l a b : list A) (x : A) :
  filter p l = (a ++ x :: b)%list ->
  exists l1 l2, l = (l1 ++ x :: l2)%list /\ filter p l1 = a /\ filter p l2 = b.
Proof.
  revert a; induction l as [|y l IH]; intros a H; cbn [filter] in H.
  - destruct a; discriminate.
  - destruct (p y) eqn:E.
    + destruct a as [|z a]; cbn in H.
      * injection H as -> <-. exists [], l. cbn. auto.
      * injection H as -> H. destruct (IH _ H) as [l1 [l2 [-> [<- <-]]]].
        exists (z :: l1), l2. cbn. rewrite E. auto.
    + destruct (IH _ H) as [l1 [l2 [-> [<- <-]]]].
      exists (y :: l1), l2. cbn. rewrite E. auto.
Qed.

(** Two elements of one key that follow each other in a selection from the
    sorted list follow each other in the list that was sorted. *)
Lemma firstn_sort_reverse_before (k : nat) (l : list A) (x y : A) :
  key x = key y ->
  before x y (firstn k (sort_reverse key l)) -> before x y l.
Proof.
  intros Hxy [l1 [l2 [l3 Hout]]].
  pose proof (sort_reverse_stable (key x) l) as Hst.
  rewrite (filter_firstn_prefix _ k), Hout in Hst.
  rewrite !filter_app in Hst. cbn [filter] in Hst. rewrite filter_app in Hst.
  cbn [filter] in Hst. unfold has_key at 2 4 in Hst.
  rewrite <- Hxy, Nat.eqb_refl in Hst.
  rewrite <- !app_assoc in Hst. cbn [app] in Hst.
  symmetry in Hst.
  destruct (filter_split _ _ _ _ _ Hst) as [m1 [m2 [-> [_ H2]]]].
  rewrite <- app_assoc in H2. cbn [app] in H2.
  destruct (filter_split _ _ _ _ _ H2) as [n1 [n2 [-> _]]].
  exists m1, n1, n2. reflexivity.
Qed.

Lemma sort_reverse_map {B} (f : B -> A) (l : list B) :
  sort_reverse key (map f l) = map f (sort_reverse (fun b => key (f b)) l).
Proof.
  induction l as [|x l IH]; [reflexivity|]. cbn [map sort_reverse]. rewrite IH.
  generalize (sort_reverse (fun b => key (f b)) l). intros m.
  induction m as [|y m IHm]; [reflexivity|]. cbn [map insert_desc].
  destruct (key (f x) <? key (f y)); [|reflexivity]. cbn [map]. now rewrite IHm.
Qed.

Lemma firstn_length_min (k : nat) (l : list A) :
  List.length (firstn k (sort_reverse key l)) = Nat.min k (List.length l).
Proof.
  rewrite length_firstn. now rewrite (Permutation_length (sort_reverse_perm l)).
Qed.

Lemma firstn_sort_reverse_sub (k : nat) (l : list A) :
  Permutation (firstn k (sort_reverse key l) ++ skipn k (sort_reverse key l)) l.
Proof. rewrite firstn_skipn. apply sort_reverse_perm. Qed.

End Sorting.

(* ------------------------------------------------------------------ *)
(** ** The fuel of the loops is enough *)

Lemma drop_length (n : nat) (s : string) :
  String.length (drop n s) = String.length s - n.
Proof.
  revert s; induction n as [|n IH]; intros [|c s]; cbn; auto.
Qed.

Lemma startswith_length (p s : string) :
  startswith p s = true -> String.length p <= String.length s.
Proof.
  rewrite startswith_iff. intros [q ->]. rewrite length_append. lia.
Qed.

Lemma lstrip_with_length (p : ascii -> bool) (s : string) :
  String.length (lstrip_with p s) <= String.length s.
Proof.
  induction s as [|c s IH]; cbn; [lia|]. destruct (p c); cbn; lia.
Qed.

Lemma skip_space_length (nl : bool) (s : string) :
  String.length (snd (Re.skip_space nl s)) <= String.length s.
Proof.
  revert nl; induction s as [|c s IH]; intros nl; cbn; [lia|].
  destruct (isspace c); cbn; [specialize (IH (Ascii.eqb c Re.newline))|]; lia.
Qed.

(** Any fuel of at least the length of the text gives [sub_line_prefix] the
    same result. *)
Lemma sub_line_prefix_fuel (marker : string) (fuel fuel' : nat) (bol : bool)
  (s : string) :
  marker <> EmptyString ->
  String.length s <= fuel -> String.length s <= fuel' ->
  Re.sub_line_prefix marker fuel bol s = Re.sub_line_prefix marker fuel' bol s.
Proof.
  intros Hm. revert fuel' bol s.
  induction fuel as [|fuel IH]; intros fuel' bol s H H'.
  - destruct s; [|cbn in H; lia]. destruct fuel'; reflexivity.
  - destruct fuel' as [|fuel'].
    + destruct s; [reflexivity | cbn in H'; lia].
    + destruct s as [|c t]; [reflexivity|]. cbn [Re.sub_line_prefix].
      destruct (bol && startswith marker (String c t)) eqn:E.
      * apply andb_true_iff in E. destruct E as [_ E].
        apply startswith_length in E.
        pose proof (skip_space_length false
                      (drop (String.length marker) (String c t))) as Hr.
        rewrite drop_length in Hr.
        destruct (Re.skip_space false
                    (drop (String.length marker) (String c t))) as [nl r].
        cbn [snd] in Hr.
        assert (0 < String.length marker)
          by (destruct marker; [congruence | cbn; lia]).
        apply IH; cbn [String.length] in *; lia.
      * f_equal. apply IH; cbn [String.length] in *; lia.
Qed.

Lemma match_close_fence_length (s r : string) :
  Re.match_close_fence s = Some r -> String.length r < String.length s.
Proof.
  unfold Re.match_close_fence. intros H.
  pose proof (lstrip_with_length isspace s) as Hl.
  destruct (startswith "```" (lstrip_with isspace s)) eqn:E; [|discriminate].
  apply startswith_length in E. cbn [String.length] in E.
  pose proof (drop_length 3 (lstrip_with isspace s)) as Hd.
  destruct (drop 3 (lstrip_with isspace s)) as [|c t].
  - injection H as <-. cbn [String.length]. lia.
  - destruct (Ascii.eqb c Re.newline); [|discriminate].
    injection H as <-. lia.
Qed.

(** Any fuel of at least the length of the text gives [sub_close_fence] the
    same result. *)
Lemma sub_close_fence_fuel (fuel fuel' : nat) (s : string) :
  String.length s <= fuel -> String.length s <= fuel' ->
  Re.sub_close_fence fuel s = Re.sub_close_fence fuel' s.
Proof.
  revert fuel' s. induction fuel as [|fuel IH]; intros fuel' s H H'.
  - destruct s; [|cbn in H; lia]. destruct fuel'; reflexivity.
  - destruct fuel' as [|fuel'].
    + destruct s; [reflexivity | cbn in H'; lia].
    + destruct s as [|c t]; [reflexivity|]. cbn [Re.sub_close_fence].
      destruct (Re.match_close_fence (String c t)) as [r|] eqn:E.
      * apply match_close_fence_length in E.
        apply IH; cbn [String.length] in *; lia.
      * f_equal. apply IH; cbn [String.length] in *; lia.
Qed.

(** The padding loop has stopped after three iterations: more fuel changes
    nothing. *)
Lemma pad_bullets_fuel (n : nat) (company : string) (l : list string) :
  pad_bullets (3 + n) company l = pad_bullets 3 company l.
Proof.
  destruct l as [|a [|b [|c l]]]; cbn; destruct n; reflexivity.
Qed.

Lemma span_digits_length (s : string) :
  String.length (snd (span_digits s)) <= String.length s.
Proof.
  induction s as [|c s IH]; cbn [span_digits]; [cbn; lia|].
  destruct (is_digit c); [|cbn; lia].
  destruct (span_digits s) as [ds r]. cbn [snd String.length] in *. lia.
Qed.

Lemma span_digits_cons_length (c : ascii) (t : string) :
  is_digit c = true ->
  String.length (snd (span_digits (String c t))) <= String.length t.
Proof.
  intros H. cbn [span_digits]. rewrite H.
  pose proof (span_digits_length t) as Ht.
  destruct (span_digits t) as [ds r]. exact Ht.
Qed.

Lemma match_number_length (s : string) (v : json) (r : string) :
  match_number s = Some (v, r) -> String.length r < String.length s.
Proof.
  unfold match_number. intros H.
  (* the sign *)
  set (signed := match s with
                 | EmptyString => (false, s)
                 | String c t =>
                     if Ascii.eqb c "-"%char then (true, t) else (false, s)
                 end) in H.
  assert (Hs1 : String.length (snd signed) <= String.length s).
  { subst signed. destruct s as [|c t]; [cbn; lia|].
    destruct (Ascii.eqb c "-"%char); cbn; lia. }
  destruct signed as [sign s1]. cbn [snd] in Hs1.
  (* the integer part *)
  destruct s1 as [|c t]; [discriminate|].
  set (int_part := if Ascii.eqb c "0"%char then Some (String c EmptyString, t)
                   else if is_digit c then Some (span_digits (String c t))
                   else None) in H.
  assert (Hr1 : forall ids r1, int_part = Some (ids, r1) ->
                               String.length r1 <= String.length t).
  { subst int_part. intros ids r1 E.
    destruct (Ascii.eqb c "0"%char); [injection E as _ <-; lia|].
    destruct (is_digit c) eqn:Hd; [|discriminate].
    pose proof (span_digits_cons_length c t Hd) as Hl.
    assert (E' : span_digits (String c t) = (ids, r1)) by congruence.
    rewrite E' in Hl. exact Hl. }
  destruct int_part as [[ids r1]|]; [|discriminate].
  specialize (Hr1 ids r1 eq_refl).
  (* the fraction *)
  set (frac := match r1 with
               | EmptyString => (EmptyString, r1)
               | String c0 t0 =>
                   if Ascii.eqb c0 "."%char then
                     match span_digits t0 with
                     | (EmptyString, _) => (EmptyString, r1)
                     | (String a s0 as fs, r0) => (fs, r0)
                     end
                   else (EmptyString, r1)
               end) in H.
  assert (Hr2 : String.length (snd frac) <= String.length r1).
  { subst frac. destruct r1 as [|c0 t0]; [cbn; lia|].
    destruct (Ascii.eqb c0 "."%char); [|cbn; lia].
    pose proof (span_digits_length t0) as Hl.
    destruct (span_digits t0) as [[|a fs] r0]; cbn [snd String.length] in *;
      lia. }
  destruct frac as [fds r2]. cbn [snd] in Hr2.
  (* the exponent *)
  match type of H with
  | (let '(ex, r3) := ?e in _) = _ => set (expo := e) in H
  end.
  assert (Hr3 : String.length (snd expo) <= String.length r2).
  { subst expo. destruct r2 as [|c0 t0]; [cbn; lia|].
    destruct (Ascii.eqb c0 "e"%char || Ascii.eqb c0 "E"%char); [|cbn; lia].
    match goal with
    | |- context [let '(eneg, t1) := ?e in _] => set (sgn := e)
    end.
    assert (Hsg : String.length (snd sgn) <= String.length t0).
    { subst sgn. destruct t0 as [|sg t']; [cbn; lia|].
      destruct (Ascii.eqb sg "-"%char); [cbn; lia|].
      destruct (Ascii.eqb sg "+"%char); cbn; lia. }
    destruct sgn as [eneg t1]. cbn [snd] in Hsg.
    pose proof (span_digits_length t1) as Hl.
    destruct (span_digits t1) as [[|a es] r0]; cbn [snd String.length] in *;
      lia. }
  destruct expo as [ex r3]. cbn [snd] in Hr3.
  assert (r = r3) as ->.
  { destruct fds; destruct ex; injection H as _ <-; reflexivity. }
  cbn [String.length] in *. lia.
Qed.

(** What [scanstring] leaves is strictly shorter than what it was given;
    it never reports exhausted fuel. *)
Lemma scanstring_length (n : nat) (s : string) :
  String.length s <= n ->
  match scanstring s with
  | Ok (_, r) => String.length r < String.length s
  | Raise e => e <> RecursionError
  end.
Proof.
  revert s; induction n as [|n IH]; intros s Hn.
  - destruct s; [cbn; discriminate | cbn in Hn; lia].
  - destruct s as [|c t]; [cbn; discriminate|].
    cbn [scanstring String.length] in *.
    destruct (Ascii.eqb c quote); [lia|].
    destruct (Ascii.eqb c backslash).
    + destruct t as [|e t1]; [discriminate|].
      destruct (Ascii.eqb e "u"%char).
      * destruct t1 as [|h1 [|h2 [|h3 [|h4 t2]]]]; try discriminate.
        destruct (hex4 h1 h2 h3 h4) as [k|]; [|discriminate].
        destruct (k <=? 255); [|discriminate].
        specialize (IH t2). cbn [String.length] in *.
        destruct (scanstring t2) as [[str r]|e'];
          [assert (String.length r < String.length t2) by (apply IH; lia); lia
          | apply IH; lia].
      * destruct (unescape e); [|discriminate].
        specialize (IH t1). cbn [String.length] in *.
        destruct (scanstring t1) as [[str r]|e'];
          [assert (String.length r < String.length t1) by (apply IH; lia); lia
          | apply IH; lia].
    + destruct (code c <? 32); [discriminate|].
      specialize (IH t).
      destruct (scanstring t) as [[str r]|e'];
        [assert (String.length r < String.length t) by (apply IH; lia); lia
        | apply IH; lia].
Qed.

Lemma skip_ws_length (s : string) :
  String.length (skip_ws s) <= String.length s.
Proof. apply lstrip_with_length. Qed.

(** With fuel for twice the length of the text the scanner never runs out
    of fuel, and what it leaves is strictly shorter than what it was
    given. *)
Lemma scanner_fuel (fuel : nat) :
  (forall s, 2 * String.length s + 1 <= fuel ->
     match scan_once fuel s with
     | Ok (_, r) => String.length r < String.length s
     | Raise e => e <> RecursionError
     end) /\
  (forall s acc, 2 * String.length s + 2 <= fuel ->
     match parse_array fuel s acc with
     | Ok (_, r) => String.length r < String.length s
     | Raise e => e <> RecursionError
     end) /\
  (forall s acc, 2 * String.length s + 2 <= fuel ->
     match parse_object fuel s acc with
     | Ok (_, r) => String.length r < String.length s
     | Raise e => e <> RecursionError
     end).
Proof.
  induction fuel as [|fuel [IHscan [IHarr IHobj]]].
  - repeat split; intros; lia.
  - split; [|split].
    + (* scan_once *)
      intros [|c t] Hf; [cbn; discriminate|].
      cbn [scan_once String.length] in *.
      destruct (Ascii.eqb c quote).
      { unfold bind. pose proof (scanstring_length _ t (le_n _)) as Hs.
        destruct (scanstring t) as [[str r]|e]; [lia | exact Hs]. }
      destruct (Ascii.eqb c "{"%char).
      { pose proof (skip_ws_length t) as Hw.
        destruct (skip_ws t) as [|c' r] eqn:E; [discriminate|].
        destruct (Ascii.eqb c' "}"%char); [cbn [String.length] in *; lia|].
        specialize (IHobj (String c' r) []).
        destruct (parse_object fuel (String c' r) []) as [[v r']|e];
          [assert (String.length r' < String.length (String c' r))
             by (apply IHobj; lia); lia
          | apply IHobj; lia]. }
      destruct (Ascii.eqb c "["%char).
      { pose proof (skip_ws_length t) as Hw.
        destruct (skip_ws t) as [|c' r] eqn:E; [discriminate|].
        destruct (Ascii.eqb c' "]"%char); [cbn [String.length] in *; lia|].
        specialize (IHarr (String c' r) []).
        destruct (parse_array fuel (String c' r) []) as [[v r']|e];
          [assert (String.length r' < String.length (String c' r))
             by (apply IHarr; lia); lia
          | apply IHarr; lia]. }
      repeat match goal with
        | |- context [if startswith ?p ?s then _ else _] =>
            let E := fresh "E" in
            destruct (startswith p s) eqn:E;
            [apply startswith_length in E; rewrite drop_length;
             cbn [String.length] in *; lia|]
        end.
      pose proof (match_number_length (String c t)) as Hnum.
      destruct (match_number (String c t)) as [[v r]|]; [|discriminate].
      specialize (Hnum v r eq_refl). cbn [String.length] in Hnum. lia.
    + (* parse_array *)
      intros s acc Hf. cbn [parse_array]. unfold bind.
      specialize (IHscan s).
      destruct (scan_once fuel s) as [[v r]|e]; [|apply IHscan; lia].
      assert (Hr : String.length r < String.length s) by (apply IHscan; lia).
      pose proof (skip_ws_length r) as Hw.
      destruct (skip_ws r) as [|c r'] eqn:E; [discriminate|].
      cbn [String.length] in Hw.
      destruct (Ascii.eqb c "]"%char); [lia|].
      destruct (Ascii.eqb c ","%char); [|discriminate].
      pose proof (skip_ws_length r') as Hw'.
      specialize (IHarr (skip_ws r') (acc ++ [v])%list).
      destruct (parse_array fuel (skip_ws r') (acc ++ [v])%list)
        as [[v' r'']|e];
        [assert (String.length r'' < String.length (skip_ws r'))
           by (apply IHarr; lia); lia
        | apply IHarr; lia].
    + (* parse_object *)
      intros [|q t] acc Hf; cbn [parse_object]; [discriminate|].
      cbn [String.length] in Hf.
      destruct (Ascii.eqb q quote); [|discriminate].
      unfold bind. pose proof (scanstring_length _ t (le_n _)) as Hs.
      destruct (scanstring t) as [[k r]|e]; [|exact Hs].
      pose proof (skip_ws_length r) as Hw.
      destruct (skip_ws r) as [|c r1] eqn:E; [discriminate|].
      cbn [String.length] in Hw.
      destruct (Ascii.eqb c ":"%char); [|discriminate].
      pose proof (skip_ws_length r1) as Hw1.
      specialize (IHscan (skip_ws r1)).
      destruct (scan_once fuel (skip_ws r1)) as [[v r2]|e];
        [|apply IHscan; lia].
      assert (Hr2 : String.length r2 < String.length (skip_ws r1))
        by (apply IHscan; lia).
      pose proof (skip_ws_length r2) as Hw2.
      destruct (skip_ws r2) as [|c' r3] eqn:E2; [discriminate|].
      cbn [String.length] in Hw2 |- *.
      destruct (Ascii.eqb c' "}"%char); [lia|].
      destruct (Ascii.eqb c' ","%char); [|discriminate].
      pose proof (skip_ws_length r3) as Hw3.
      specialize (IHobj (skip_ws r3) (dict_set k v acc)).
      destruct (parse_object fuel (skip_ws r3) (dict_set k v acc))
        as [[v' r4]|e];
        [assert (String.length r4 < String.length (skip_ws r3))
           by (apply IHobj; lia); lia
        | apply IHobj; lia].
Qed.

(** [loads] never reports exhausted fuel: its fuel is enough for every
    text. *)
Lemma loads_fuel (s : string) : loads s <> Raise RecursionError.
Proof.
  unfold loads, bind.
  pose proof (proj1 (scanner_fuel (2 * String.length s + 2)) (skip_ws s))
    as H.
  pose proof (skip_ws_length s) as Hw.
  destruct (scan_once (2 * String.length s + 2) (skip_ws s)) as [[v r]|e].
  - destruct (skip_ws r); discriminate.
  - intros E. injection E as ->. apply H; [lia | reflexivity].
Qed.

(* ------------------------------------------------------------------ *)
(** ** Relevance selector *)

Lemma select_relevant_experiences_eq exps jd k :
  select_relevant_experiences exps jd k
  = firstn k (sort_reverse (experience_score jd) exps).
Proof.
  unfold select_relevant_experiences.
  rewrite (sort_reverse_map snd (fun exp => (exp, experience_score jd exp))).
  cbn [snd]. rewrite firstn_map, map_map. cbn [fst]. apply map_id.
Qed.

Lemma select_relevant_projects_eq projs jd k :
  select_relevant_projects projs jd k
  = firstn k (sort_reverse (project_score jd) projs).
Proof.
  unfold select_relevant_projects.
  rewrite (sort_reverse_map snd (fun proj => (proj, project_score jd proj))).
  cbn [snd]. rewrite firstn_map, map_map. cbn [fst]. apply map_id.
Qed.

Section TopK.
Context {A : Type} (key : A -> nat) (k : nat) (l : list A).
Let out := firstn k (sort_reverse key l).

Lemma top_stable :
  descending key out /\
  (forall s, exists rest,
      filter (has_key key s) l = (filter (has_key key s) out ++ rest)%list) /\
  (forall x y, key x = key y -> before x y out -> before x y l).
Proof.
  split; [|split].
  - apply descending_firstn, sort_reverse_descending.
  - intros s. exists (filter (has_key key s) (skipn k (sort_reverse key l))).
    rewrite <- (sort_reverse_stable key s l). apply filter_firstn_prefix.
  - intros x y. apply firstn_sort_reverse_before.
Qed.

Lemma top_cardinality :
  List.length out = Nat.min k (List.length l) /\
  (exists dropped, Permutation (out ++ dropped) l) /\
  (forall x, In x out -> In x l) /\
  (NoDup l -> NoDup out) /\
  (List.length l <= k -> Permutation out l).
Proof.
  pose proof (firstn_sort_reverse_sub key k l) as Hsub. fold out in Hsub.
  split; [apply firstn_length_min|].
  split; [eauto|].
  split.
  { intros x Hx. apply (Permutation_in _ Hsub). apply in_or_app. now left. }
  split.
  { intros Hnd. apply (Permutation_NoDup (Permutation_sym Hsub)) in Hnd.
    now apply NoDup_app_remove_r in Hnd. }
  intros Hk. unfold out. rewrite firstn_all2.
  - apply sort_reverse_perm.
  - now rewrite (Permutation_length (sort_reverse_perm key l)).
Qed.

End TopK.

(** C2.  Both selectors sort stably by descending score: the output is in
    descending order of score; for every score, the selected records of that
    score are the first records of that score of the input, in the order of
    the input; hence two records of equal score that follow each other in
    the output follow each other in the input. *)
Theorem selectors_are_stable (jd : jd_analysis) (k : nat) :
  (forall exps : list Experience.t,
      let out := select_relevant_experiences exps jd k in
      let score := experience_score jd in
      descending score out /\
      (forall s, exists rest,
          filter (has_key score s) exps
          = (filter (has_key score s) out ++ rest)%list) /\
      (forall x y, score x = score y -> before x y out -> before x y exps))
  /\
  (forall projs : list Project.t,
      let out := select_relevant_projects projs jd k in
      let score := project_score jd in
      descending score out /\
      (forall s, exists rest,
          filter (has_key score s) projs
          = (filter (has_key score s) out ++ rest)%list) /\
      (forall x y, score x = score y -> before x y out -> before x y projs)).
Proof.
  split; intros l out score; subst out score.
  - rewrite select_relevant_experiences_eq. apply top_stable.
  - rewrite select_relevant_projects_eq. apply top_stable.
Qed.

(** C7.  A selector returns exactly [min k (len records)] records; they are
    records of the input, each position of the input used at most once
    (the output together with the records dropped is a permutation of the
    input), so an input without duplicates gives an output without
    duplicates; with at most [k] records, all of them are returned. *)
Theorem selectors_cardinality (jd : jd_analysis) (k : nat) :
  (forall exps : list Experience.t,
      let out := select_relevant_experiences exps jd k in
      List.length out = Nat.min k (List.length exps) /\
      (exists dropped, Permutation (out ++ dropped) exps) /\
      (forall x, In x out -> In x exps) /\
      (NoDup exps -> NoDup out) /\
      (List.length exps <= k -> Permutation out exps))
  /\
  (forall projs : list Project.t,
      let out := select_relevant_projects projs jd k in
      List.length out = Nat.min k (List.length projs) /\
      (exists dropped, Permutation (out ++ dropped) projs) /\
      (forall x, In x out -> In x projs) /\
      (NoDup projs -> NoDup out) /\
      (List.length projs <= k -> Permutation out projs)).
Proof.
  split; intros l out; subst out.
  - rewrite select_relevant_experiences_eq. apply top_cardinality.
  - rewrite select_relevant_projects_eq. apply top_cardinality.
Qed.

(** C10.  The score of a project does not depend on its name: renaming a
    project, all other fields kept, leaves its score unchanged under every
    profile. *)
Theorem project_score_ignores_name (jd : jd_analysis) (proj : Project.t)
  (n : string) :
  project_score jd (set_name proj n) = project_score jd proj.
Proof. reflexivity. Qed.

(* ------------------------------------------------------------------ *)
(** ** Scores *)

Lemma add_matches_mono (bonus : nat) (keys : list string) (t t' : string)
  (s s' : nat) :
  (forall k, contains k t = true -> contains k t' = true) ->
  s <= s' ->
  add_matches bonus keys t s <= add_matches bonus keys t' s'.
Proof.
  intros Ht. unfold add_matches. revert s s'.
  induction keys as [|k keys IH]; intros s s' Hs; cbn [fold_left]; [assumption|].
  apply IH. specialize (Ht k).
  destruct (contains k t); destruct (contains k t');
    first [lia | specialize (Ht eq_refl); discriminate].
Qed.

Lemma add_matches_shift (bonus : nat) (keys : list string) (t : string)
  (n s : nat) :
  add_matches bonus keys t (n + s) = n + add_matches bonus keys t s.
Proof.
  unfold add_matches. revert s.
  induction keys as [|k keys IH]; intros s; cbn [fold_left]; [reflexivity|].
  destruct (contains k t); [|apply IH].
  rewrite <- Nat.add_assoc. apply IH.
Qed.

Lemma any_in_mono (ks : list string) (t t' : string) :
  (forall k, contains k t = true -> contains k t' = true) ->
  any_in ks t = true -> any_in ks t' = true.
Proof.
  intros Ht. unfold any_in. rewrite !existsb_exists.
  intros [k [Hin Hk]]. exists k. auto.
Qed.

(** Case analysis along the chains of conditionals of a score, on the left
    for a text [t] and on the right for a text [t'] that has every keyword
    of [t]. *)
Ltac score_cases :=
  repeat first
    [ lia
    | match goal with
      | |- context [(String.eqb ?a ?b && _)%bool] =>
          destruct (String.eqb a b); cbn [andb]
      | Hany : forall ks, any_in ks ?t = true -> any_in ks ?t' = true
        |- context [if any_in ?ks ?t then _ else _] =>
          let E := fresh "E" in
          destruct (any_in ks t) eqn:E;
          [rewrite (Hany ks E) | destruct (any_in ks t')]; clear E
      | |- context [if ?c then _ else _] => destruct c
      end ].

Section Growth.
Context (jd : jd_analysis) (d extra : string).
Let d' := d ++ lower extra.

Lemma grown_contains k : contains k d = true -> contains k d' = true.
Proof. apply contains_append_l. Qed.

Lemma grown_any_in ks : any_in ks d = true -> any_in ks d' = true.
Proof. apply any_in_mono, grown_contains. Qed.

Lemma grown_matches :
  add_matches 1 (map lower (primary_skills jd)) d
    (add_matches 2 (map lower (key_technologies jd)) d 0)
  <= add_matches 1 (map lower (primary_skills jd)) d'
       (add_matches 2 (map lower (key_technologies jd)) d' 0).
Proof.
  apply add_matches_mono; [apply grown_contains|].
  apply add_matches_mono; [apply grown_contains | apply le_n].
Qed.

End Growth.

Lemma experience_score_mono (jd : jd_analysis) (exp : Experience.t)
  (extra : string) :
  experience_score jd exp
  <= experience_score jd
       (set_description exp (Experience.description exp ++ extra)).
Proof.
  unfold experience_score.
  cbn [set_description Experience.description Experience.duration].
  rewrite lower_append.
  pose proof (grown_any_in (lower (Experience.description exp)) extra) as Hany.
  pose proof (grown_matches jd (lower (Experience.description exp)) extra)
    as Hs.
  revert Hany Hs.
  generalize (lower (Experience.description exp) ++ lower extra).
  generalize (lower (Experience.description exp)).
  intros d d' Hany.
  generalize (add_matches 1 (map lower (primary_skills jd)) d
                (add_matches 2 (map lower (key_technologies jd)) d 0)).
  generalize (add_matches 1 (map lower (primary_skills jd)) d'
                (add_matches 2 (map lower (key_technologies jd)) d' 0)).
  intros s' s Hs. score_cases.
Qed.

Lemma project_score_mono (jd : jd_analysis) (proj : Project.t)
  (extra : string) :
  project_score jd proj
  <= project_score jd
       (set_project_description proj (Project.description proj ++ extra)).
Proof.
  unfold project_score.
  cbn [set_project_description Project.description Project.name].
  rewrite lower_append.
  pose proof (grown_any_in (lower (Project.description proj)) extra) as Hany.
  pose proof (grown_matches jd (lower (Project.description proj)) extra)
    as Hs.
  revert Hany Hs.
  generalize (lower (Project.description proj) ++ lower extra).
  generalize (lower (Project.description proj)).
  intros d d' Hany.
  generalize (add_matches 1 (map lower (primary_skills jd)) d
                (add_matches 2 (map lower (key_technologies jd)) d 0)).
  generalize (add_matches 1 (map lower (primary_skills jd)) d'
                (add_matches 2 (map lower (key_technologies jd)) d' 0)).
  intros s' s Hs.
  (* the industry bonus first, then the role bonus on top of it *)
  match goal with
  | |- ?L <= ?R =>
      match L with context [?x + 4] =>
        match R with context [?x' + 4] =>
          assert (Hind : x <= x') by score_cases;
          revert Hind; generalize x, x'
        end
      end
  end.
  clear s s' Hs. intros s s' Hs. score_cases.
Qed.

(* ------------------------------------------------------------------ *)
(** ** Scores on text beyond Latin-1 *)

Section WideScores.
Local Open Scope list_scope.

Lemma wide_char_eqb_eq (a b : Wide.char) :
  Wide.char_eqb a b = true <-> a = b.
Proof.
  destruct a as [x| | |], b as [y| | |]; cbn [Wide.char_eqb];
    try (split; [discriminate | discriminate]);
    try (split; reflexivity).
  rewrite Ascii.eqb_eq. split; [now intros -> | now intros [= ->]].
Qed.

Lemma wide_startswith_iff (p s : Wide.str) :
  Wide.startswith p s = true <-> exists x, s = (p ++ x)%list.
Proof.
  revert s; induction p as [|a p IH]; intros s; cbn [Wide.startswith].
  - split; [exists s; reflexivity | reflexivity].
  - destruct s as [|b s].
    + split; [discriminate | intros [x Hx]; discriminate].
    + rewrite andb_true_iff, wide_char_eqb_eq, IH. split.
      * intros [-> [x ->]]. exists x. reflexivity.
      * intros [x Hx]. injection Hx as -> ->. split; [reflexivity|].
        exists x. reflexivity.
Qed.

Lemma wide_startswith_app (p s x : Wide.str) :
  Wide.startswith p s = true -> Wide.startswith p (s ++ x) = true.
Proof.
  rewrite !wide_startswith_iff. intros [y ->]. exists (y ++ x)%list.
  now rewrite app_assoc.
Qed.

Lemma wide_contains_app_l (k s x : Wide.str) :
  Wide.contains k s = true -> Wide.contains k (s ++ x) = true.
Proof.
  induction s as [|a s IH].
  - cbn [Wide.contains app]. rewrite orb_false_r. intros H.
    destruct k; [|discriminate]. destruct x; reflexivity.
  - cbn [Wide.contains]. rewrite <- app_comm_cons. cbn [Wide.contains].
    rewrite !orb_true_iff. intros [H | H].
    + left. now apply (wide_startswith_app k (a :: s) x).
    + right. now apply IH.
Qed.

(** In front of a text without capital sigma the lowering goes character by
    character, whatever follows. *)
Lemma wide_lower_from_app (before d e : Wide.str) :
  Wide.has_capital_sigma d = false ->
  Wide.lower_from before (d ++ e)
  = (Wide.lower_from before d ++ Wide.lower_from (rev d ++ before) e)%list.
Proof.
  revert before; induction d as [|c d IH]; intros before H; [reflexivity|].
  unfold Wide.has_capital_sigma in H. cbn [existsb] in H.
  apply orb_false_iff in H. destruct H as [Hc Hd].
  cbn [app Wide.lower_from rev]. rewrite (IH (c :: before) Hd).
  rewrite <- app_assoc. cbn [app].
  destruct c; [reflexivity | discriminate | reflexivity | reflexivity].
Qed.

Lemma wide_plain_lowers_alike (d e : Wide.str) :
  Wide.has_capital_sigma d = false -> Wide.lowers_alike d e = true.
Proof.
  intros H. unfold Wide.lowers_alike, Wide.lower.
  rewrite (wide_lower_from_app [] d e H).
  apply wide_startswith_iff. eexists. reflexivity.
Qed.

Lemma wide_add_matches_mono (bonus : nat) (keys : list Wide.str)
  (t t' : Wide.str) (s s' : nat) :
  (forall k, Wide.contains k t = true -> Wide.contains k t' = true) ->
  s <= s' ->
  Wide.add_matches bonus keys t s <= Wide.add_matches bonus keys t' s'.
Proof.
  intros Ht. unfold Wide.add_matches. revert s s'.
  induction keys as [|k keys IH]; intros s s' Hs; cbn [fold_left]; [assumption|].
  apply IH. specialize (Ht k).
  destruct (Wide.contains k t); destruct (Wide.contains k t');
    first [lia | specialize (Ht eq_refl); discriminate].
Qed.

Lemma wide_any_in_mono (ks : list string) (t t' : Wide.str) :
  (forall k, Wide.contains k t = true -> Wide.contains k t' = true) ->
  Wide.any_in ks t = true -> Wide.any_in ks t' = true.
Proof.
  intros Ht. unfold Wide.any_in. rewrite !existsb_exists.
  intros [k [Hin Hk]]. exists k. auto.
Qed.

(** Case analysis along the chains of conditionals of a score, as
    [score_cases]. *)
Ltac wide_score_cases :=
  repeat first
    [ lia
    | match goal with
      | |- context [(Wide.eqb ?a ?b && _)%bool] =>
          destruct (Wide.eqb a b); cbn [andb]
      | Hany : forall ks, Wide.any_in ks ?t = true -> Wide.any_in ks ?t' = true
        |- context [if Wide.any_in ?ks ?t then _ else _] =>
          let E := fresh "E" in
          destruct (Wide.any_in ks t) eqn:E;
          [rewrite (Hany ks E) | destruct (Wide.any_in ks t')]; clear E
      | |- context [if ?c then _ else _] => destruct c
      end ].

Section WideGrowth.
Context (jd : Wide.jd_analysis) (d x : Wide.str).
Let d' := (d ++ x)%list.

Lemma wide_grown_any_in ks :
  Wide.any_in ks d = true -> Wide.any_in ks d' = true.
Proof. apply wide_any_in_mono. intros k. apply wide_contains_app_l. Qed.

Lemma wide_grown_matches :
  Wide.add_matches 1 (map Wide.lower (Wide.primary_skills jd)) d
    (Wide.add_matches 2 (map Wide.lower (Wide.key_technologies jd)) d 0)
  <= Wide.add_matches 1 (map Wide.lower (Wide.primary_skills jd)) d'
       (Wide.add_matches 2 (map Wide.lower (Wide.key_technologies jd)) d' 0).
Proof.
  apply wide_add_matches_mono; [intros k; apply wide_contains_app_l|].
  apply wide_add_matches_mono; [intros k; apply wide_contains_app_l|].
  apply le_n.
Qed.

End WideGrowth.

Lemma wide_experience_score_mono (jd : Wide.jd_analysis)
  (exp : Wide.Experience.t) (extra : Wide.str) :
  Wide.lowers_alike (Wide.Experience.description exp) extra = true ->
  Wide.experience_score jd exp
  <= Wide.experience_score jd
       (Wide.set_description exp
          (Wide.Experience.description exp ++ extra)).
Proof.
  unfold Wide.lowers_alike. rewrite wide_startswith_iff. intros [x Hx].
  unfold Wide.experience_score.
  cbn [Wide.set_description Wide.Experience.description
         Wide.Experience.duration].
  rewrite Hx.
  pose proof (wide_grown_any_in
                (Wide.lower (Wide.Experience.description exp)) x) as Hany.
  pose proof (wide_grown_matches jd
                (Wide.lower (Wide.Experience.description exp)) x) as Hs.
  revert Hany Hs.
  generalize (Wide.lower (Wide.Experience.description exp) ++ x)%list.
  generalize (Wide.lower (Wide.Experience.description exp)).
  intros d d' Hany.
  generalize (Wide.add_matches 1 (map Wide.lower (Wide.primary_skills jd)) d
                (Wide.add_matches 2
                   (map Wide.lower (Wide.key_technologies jd)) d 0)).
  generalize (Wide.add_matches 1 (map Wide.lower (Wide.primary_skills jd)) d'
                (Wide.add_matches 2
                   (map Wide.lower (Wide.key_technologies jd)) d' 0)).
  intros s' s Hs. wide_score_cases.
Qed.

Lemma wide_project_score_mono (jd : Wide.jd_analysis)
  (proj : Wide.Project.t) (extra : Wide.str) :
  Wide.lowers_alike (Wide.Project.description proj) extra = true ->
  Wide.project_score jd proj
  <= Wide.project_score jd
       (Wide.set_project_description proj
          (Wide.Project.description proj ++ extra)).
Proof.
  unfold Wide.lowers_alike. rewrite wide_startswith_iff. intros [x Hx].
  unfold Wide.project_score.
  cbn [Wide.set_project_description Wide.Project.description
         Wide.Project.name].
  rewrite Hx.
  pose proof (wide_grown_any_in
                (Wide.lower (Wide.Project.description proj)) x) as Hany.
  pose proof (wide_grown_matches jd
                (Wide.lower (Wide.Project.description proj)) x) as Hs.
  revert Hany Hs.
  generalize (Wide.lower (Wide.Project.description proj) ++ x)%list.
  generalize (Wide.lower (Wide.Project.description proj)).
  intros d d' Hany.
  generalize (Wide.add_matches 1 (map Wide.lower (Wide.primary_skills jd)) d
                (Wide.add_matches 2
                   (map Wide.lower (Wide.key_technologies jd)) d 0)).
  generalize (Wide.add_matches 1 (map Wide.lower (Wide.primary_skills jd)) d'
                (Wide.add_matches 2
                   (map Wide.lower (Wide.key_technologies jd)) d' 0)).
  intros s' s Hs.
  (* the industry bonus first, then the role bonus on top of it *)
  match goal with
  | |- ?L <= ?R =>
      match L with context [?x + 4] =>
        match R with context [?x' + 4] =>
          assert (Hind : x <= x') by wide_score_cases;
          revert Hind; generalize x, x'
        end
      end
  end.
  clear s s' Hs. intros s s' Hs. wide_score_cases.
Qed.

(** *** The scores of Latin-1 records *)

Lemma wide_text_cons (a : ascii) (s : string) :
  Wide.text (String a s) = Wide.Latin1 a :: Wide.text s.
Proof. reflexivity. Qed.

Lemma wide_lower_from_text (before : Wide.str) (s : string) :
  Wide.lower_from before (Wide.text s) = Wide.text (lower s).
Proof.
  revert before; induction s as [|a s IH]; intros before; [reflexivity|].
  cbn [lower]. rewrite !wide_text_cons. cbn [Wide.lower_from].
  now rewrite IH.
Qed.

Lemma wide_lower_text (s : string) :
  Wide.lower (Wide.text s) = Wide.text (lower s).
Proof. apply wide_lower_from_text. Qed.

Lemma wide_startswith_text (p s : string) :
  Wide.startswith (Wide.text p) (Wide.text s) = startswith p s.
Proof.
  revert s; induction p as [|a p IH]; intros s; [reflexivity|].
  destruct s as [|b s]; [reflexivity|].
  rewrite !wide_text_cons. cbn [Wide.startswith startswith Wide.char_eqb].
  now rewrite IH.
Qed.

Lemma wide_contains_text (k s : string) :
  Wide.contains (Wide.text k) (Wide.text s) = contains k s.
Proof.
  induction s as [|b s IH].
  - now destruct k.
  - rewrite wide_text_cons. cbn [Wide.contains contains].
    rewrite <- wide_text_cons, wide_startswith_text. now rewrite IH.
Qed.

Lemma wide_eqb_text (a b : string) :
  Wide.eqb (Wide.text a) (Wide.text b) = String.eqb a b.
Proof.
  revert b; induction a as [|x a IH]; intros [|y b]; try reflexivity.
  rewrite !wide_text_cons. cbn [Wide.eqb String.eqb Wide.char_eqb].
  rewrite IH. now destruct (Ascii.eqb x y).
Qed.

Lemma wide_any_in_text (ks : list string) (s : string) :
  Wide.any_in ks (Wide.text s) = any_in ks s.
Proof.
  unfold Wide.any_in, any_in. induction ks as [|k ks IH]; [reflexivity|].
  cbn [existsb]. now rewrite wide_contains_text, IH.
Qed.

Lemma wide_add_matches_text (bonus : nat) (keys : list string) (s : string)
  (score : nat) :
  Wide.add_matches bonus (map Wide.lower (map Wide.text keys)) (Wide.text s)
    score
  = add_matches bonus (map lower keys) s score.
Proof.
  unfold Wide.add_matches, add_matches. revert score.
  induction keys as [|k keys IH]; intros score; [reflexivity|].
  cbn [map fold_left]. now rewrite wide_lower_text, wide_contains_text, IH.
Qed.

(** On a Latin-1 profile and record the scores over the wider alphabet are
    the scores over Latin-1. *)
Lemma widen_experience_score (jd : jd_analysis) (exp : Experience.t) :
  Wide.experience_score (widen_profile jd) (widen_experience exp)
  = experience_score jd exp.
Proof.
  unfold Wide.experience_score, experience_score.
  cbn [widen_profile widen_experience Wide.role_type Wide.key_technologies
         Wide.primary_skills Wide.Experience.description
         Wide.Experience.duration].
  rewrite !wide_lower_text, !wide_add_matches_text, !wide_contains_text,
    !wide_any_in_text, !wide_eqb_text.
  reflexivity.
Qed.

Lemma widen_project_score (jd : jd_analysis) (proj : Project.t) :
  Wide.project_score (widen_profile jd) (widen_project proj)
  = project_score jd proj.
Proof.
  unfold Wide.project_score, project_score.
  cbn [widen_profile widen_project Wide.role_type Wide.key_technologies
         Wide.primary_skills Wide.industry_context
         Wide.Project.description Wide.Project.name].
  rewrite !wide_lower_text, !wide_add_matches_text, !wide_any_in_text,
    !wide_eqb_text.
  reflexivity.
Qed.

End WideScores.

(** C8, as amended.  Appending a key-technology token of the profile to the
    description of a record never lowers the score of the record, for
    experiences and for projects, provided the characters of the
    description are lowered after the appending as they were before it.
    That is the case for every description without a capital sigma, and so
    for every description in Latin-1. *)
Theorem score_monotone_in_description (jd : Wide.jd_analysis)
  (token : Wide.str) (Htoken : In token (Wide.key_technologies jd)) :
  (forall exp : Wide.Experience.t,
      Wide.lowers_alike (Wide.Experience.description exp) token = true ->
      Wide.experience_score jd exp
      <= Wide.experience_score jd
           (Wide.set_description exp
              (Wide.Experience.description exp ++ token)%list))
  /\
  (forall proj : Wide.Project.t,
      Wide.lowers_alike (Wide.Project.description proj) token = true ->
      Wide.project_score jd proj
      <= Wide.project_score jd
           (Wide.set_project_description proj
              (Wide.Project.description proj ++ token)%list))
  /\
  (forall description : Wide.str,
      Wide.has_capital_sigma description = false ->
      Wide.lowers_alike description token = true).
Proof.
  split; [|split].
  - intros exp. apply wide_experience_score_mono.
  - intros proj. apply wide_project_score_mono.
  - intros description. apply wide_plain_lowers_alike.
Qed.

Lemma score_monotone_in_description_witness :
  In (Wide.text "PostgreSQL")
    (Wide.key_technologies (widen_profile backend_profile)) /\
  Wide.lowers_alike (Wide.text "Built APIs") (Wide.text "PostgreSQL") = true /\
  Wide.experience_score (widen_profile backend_profile)
    (widen_experience (experience "ACME" "2019" "Built APIs"))
  <= Wide.experience_score (widen_profile backend_profile)
       (Wide.set_description
          (widen_experience (experience "ACME" "2019" "Built APIs"))
          (Wide.text "Built APIs" ++ Wide.text "PostgreSQL")%list).
Proof.
  split; [simpl; auto|]. split; [reflexivity|].
  apply (proj1 (score_monotone_in_description (widen_profile backend_profile)
                  (Wide.text "PostgreSQL") (or_introl eq_refl))
           (widen_experience (experience "ACME" "2019" "Built APIs"))).
  reflexivity.
Defined.

(** C8 as stated fails.  The description "A" followed by a capital sigma is
    lowered to "a" and a final sigma, which the profile asks for as a key
    technology and as a primary skill: the score is 3.  With the key
    technology "B" appended the sigma is no longer at the end of a word and
    is lowered to a small sigma: only "b" matches and the score is 2.  The
    same holds for a project with that description. *)
Lemma score_falls_behind_capital_sigma :
  In (Wide.text "B") (Wide.key_technologies sigma_profile) /\
  Wide.lower (Wide.Experience.description sigma_record)
  = [Wide.Latin1 "a"%char; Wide.FinalSigma] /\
  Wide.lower (Wide.Experience.description sigma_record ++ Wide.text "B")%list
  = [Wide.Latin1 "a"%char; Wide.SmallSigma; Wide.Latin1 "b"%char] /\
  Wide.experience_score sigma_profile sigma_record = 3 /\
  Wide.experience_score sigma_profile
    (Wide.set_description sigma_record
       (Wide.Experience.description sigma_record ++ Wide.text "B")%list) = 2 /\
  Wide.project_score sigma_profile sigma_project = 3 /\
  Wide.project_score sigma_profile
    (Wide.set_project_description sigma_project
       (Wide.Project.description sigma_project ++ Wide.text "B")%list) = 2.
Proof. repeat split; try reflexivity. simpl; auto. Qed.


(** Under a profile whose only key technology is PostgreSQL, the score of a
    record is its score without key technologies, plus 2 when its
    description mentions PostgreSQL in any letter case. *)
Lemma experience_score_postgresql (jd : jd_analysis) (exp : Experience.t) :
  key_technologies jd = ["PostgreSQL"] ->
  experience_score jd exp
  = experience_score (without_key_technologies jd) exp
    + (if contains "postgresql" (lower (Experience.description exp))
       then 2 else 0).
Proof.
  intros Htech. unfold experience_score.
  cbn [without_key_technologies role_type primary_skills key_technologies].
  rewrite Htech. cbn [map add_matches fold_left].
  replace (lower "PostgreSQL") with "postgresql" by reflexivity.
  destruct (contains "postgresql" (lower (Experience.description exp))).
  - replace (0 + 2) with (2 + 0) by reflexivity. rewrite add_matches_shift.
    generalize (add_matches 1 (map lower (primary_skills jd))
                  (lower (Experience.description exp)) 0).
    intros s. score_cases.
  - generalize (add_matches 1 (map lower (primary_skills jd))
                  (lower (Experience.description exp)) 0).
    intros s. score_cases.
Qed.

Lemma select_pair (jd : jd_analysis) (a b : Experience.t) :
  experience_score jd b < experience_score jd a ->
  select_relevant_experiences [a; b] jd 4 = [a; b] /\
  select_relevant_experiences [b; a] jd 4 = [a; b].
Proof.
  intros H. rewrite !select_relevant_experiences_eq.
  cbn [sort_reverse insert_desc].
  destruct (Nat.ltb_spec (experience_score jd a) (experience_score jd b));
    [lia|].
  destruct (Nat.ltb_spec (experience_score jd b) (experience_score jd a));
    [|lia].
  split; reflexivity.
Qed.

Lemma descending_before {A} (key : A -> nat) (l : list A) (x y : A) :
  descending key l -> before x y l -> key y <= key x.
Proof.
  intros Hl [l1 [l2 [l3 ->]]]. unfold descending in Hl.
  induction l1 as [|z l1 IH]; cbn [app] in Hl.
  - apply StronglySorted_inv in Hl. destruct Hl as [_ Hx].
    rewrite Forall_forall in Hx. apply Hx.
    apply in_or_app. right. now left.
  - apply StronglySorted_inv in Hl. destruct Hl as [Hl _]. auto.
Qed.

Lemma before_or_after {A} (l : list A) (x y : A) :
  In x l -> In y l -> x <> y -> before x y l \/ before y x l.
Proof.
  intros Hx Hy Hne. destruct (in_split _ _ Hx) as [l1 [l2 ->]].
  apply in_app_or in Hy. destruct Hy as [Hy | [Hy | Hy]].
  - right. destruct (in_split _ _ Hy) as [m1 [m2 ->]].
    exists m1, m2, l2. now rewrite <- app_assoc.
  - congruence.
  - left. destruct (in_split _ _ Hy) as [m1 [m2 ->]].
    exists l1, m1, m2. reflexivity.
Qed.

(** Of two selected records the one with the higher score comes first. *)
Lemma select_higher_first (jd : jd_analysis) (exps : list Experience.t)
  (k : nat) (a b : Experience.t) :
  experience_score jd b < experience_score jd a ->
  In a (select_relevant_experiences exps jd k) ->
  In b (select_relevant_experiences exps jd k) ->
  before a b (select_relevant_experiences exps jd k).
Proof.
  intros Hlt Ha Hb.
  assert (Hne : a <> b) by (intros ->; lia).
  destruct (before_or_after _ _ _ Ha Hb Hne) as [H | H]; [assumption|].
  exfalso. rewrite select_relevant_experiences_eq in H.
  apply (descending_before (experience_score jd)) in H; [lia|].
  apply descending_firstn, sort_reverse_descending.
Qed.

(** C9, as amended.  Under a backend profile with primary skills [Node.js]
    and key technologies [PostgreSQL], of two experience records of which
    exactly one mentions PostgreSQL (in any letter case) that one collects 2
    points the other does not; whenever the other bonuses of the other
    record (skill, recency, role keywords) exceed its own by less than 2, it
    has the strictly higher score and is ranked first: it precedes the other
    record in every selection that contains both, and a selection from the
    two records alone lists it first. *)
Theorem postgresql_record_ranks_higher (jd : jd_analysis)
  (a b : Experience.t)
  (Hrole : role_type jd = "backend")
  (Hskills : primary_skills jd = ["Node.js"])
  (Htech : key_technologies jd = ["PostgreSQL"])
  (Ha : contains "postgresql" (lower (Experience.description a)) = true)
  (Hb : contains "postgresql" (lower (Experience.description b)) = false)
  (Hrest : experience_score (without_key_technologies jd) b
           < experience_score (without_key_technologies jd) a + 2) :
  experience_score jd a
  = experience_score (without_key_technologies jd) a + 2 /\
  experience_score jd b = experience_score (without_key_technologies jd) b /\
  experience_score jd b < experience_score jd a /\
  (forall exps k,
      In a (select_relevant_experiences exps jd k) ->
      In b (select_relevant_experiences exps jd k) ->
      before a b (select_relevant_experiences exps jd k)) /\
  select_relevant_experiences [a; b] jd 4 = [a; b] /\
  select_relevant_experiences [b; a] jd 4 = [a; b].
Proof.
  pose proof (experience_score_postgresql jd a Htech) as Ea.
  pose proof (experience_score_postgresql jd b Htech) as Eb.
  rewrite Ha in Ea. rewrite Hb, Nat.add_0_r in Eb.
  assert (experience_score jd b < experience_score jd a) by lia.
  repeat split; try assumption;
    [intros exps k; now apply select_higher_first | now apply select_pair ..].
Qed.

Lemma postgresql_record_ranks_higher_witness :
  experience_score backend_profile plain_record
  < experience_score backend_profile postgresql_record /\
  select_relevant_experiences [plain_record; postgresql_record]
    backend_profile 4
  = [postgresql_record; plain_record].
Proof.
  pose proof (postgresql_record_ranks_higher backend_profile
                postgresql_record plain_record
                eq_refl eq_refl eq_refl eq_refl eq_refl) as H.
  assert (Hrest : experience_score (without_key_technologies backend_profile)
                    plain_record
                  < experience_score (without_key_technologies backend_profile)
                      postgresql_record + 2)
    by (vm_compute; lia).
  destruct (H Hrest) as [_ [_ [Hlt [_ [_ Hsel]]]]].
  split; assumption.
Defined.

(** C9 as stated fails: a record that mentions PostgreSQL scores 2 and a
    recent record with a skill and a role keyword but without PostgreSQL
    scores 7, and is ranked first. *)
Lemma postgresql_record_can_rank_lower :
  contains "PostgreSQL" (Experience.description postgresql_record) = true /\
  contains "PostgreSQL" (Experience.description recent_api_record) = false /\
  contains "postgresql" (lower (Experience.description recent_api_record))
  = false /\
  experience_score backend_profile postgresql_record = 2 /\
  experience_score backend_profile recent_api_record = 7 /\
  select_relevant_experiences [postgresql_record; recent_api_record]
    backend_profile 4
  = [recent_api_record; postgresql_record].
Proof. repeat split; vm_compute; reflexivity. Qed.

(* ------------------------------------------------------------------ *)
(** ** Response normaliser *)

(** The three outcomes of [safe_json_parse]. *)
Lemma safe_json_parse_cases (text : option string) (fallback_data : json) :
  exists v,
    safe_json_parse text fallback_data = Ok v /\
    (v = fallback_data \/
     exists t, text = Some t /\
               loads (clean_json_response t) = Ok v /\ truthy v = true) /\
    (forall t parsed,
        text = Some t ->
        loads (clean_json_response t) = Ok parsed ->
        truthy parsed = false -> v = fallback_data).
Proof.
  unfold safe_json_parse, try_except, bind.
  destruct text as [t|]; [|exists fallback_data; repeat split; auto; discriminate].
  destruct (nonempty t); cbn [negb];
    [|exists fallback_data; repeat split; auto].
  destruct (nonempty (clean_json_response t)); cbn [negb];
    [|exists fallback_data; repeat split; auto].
  destruct (loads (clean_json_response t)) as [parsed|e] eqn:Hloads.
  - destruct (truthy parsed) eqn:Htruthy.
    + exists parsed. split; [reflexivity|]. split.
      * right. exists t. auto.
      * intros t' p' Ht' Hp' Hf. injection Ht' as <-.
        rewrite Hloads in Hp'. injection Hp' as <-. congruence.
    + exists fallback_data. repeat split; auto.
  - exists fallback_data. destruct e; repeat split; auto.
Qed.

(** C6.  [safe_json_parse] never raises: for every text (also Python's
    [None], here [None]) and every fallback it returns a value, which is
    either the fallback itself or the truthy value [json.loads] parsed from
    the cleaned text; a parsed value that is falsy (empty object, empty
    list, [null], ...) gives the fallback unchanged. *)
Theorem safe_json_parse_total (text : option string) (fallback_data : json) :
  exists v,
    safe_json_parse text fallback_data = Ok v /\
    (v = fallback_data \/
     exists t, text = Some t /\
               loads (clean_json_response t) = Ok v /\ truthy v = true) /\
    (forall t parsed,
        text = Some t ->
        loads (clean_json_response t) = Ok parsed ->
        truthy parsed = false -> v = fallback_data).
Proof. apply safe_json_parse_cases. Qed.

(** The normaliser on the inputs the specification names. *)
Example safe_json_parse_examples :
  let fb := JStr "fallback" in
  safe_json_parse (Some "") fb = Ok fb /\
  safe_json_parse None fb = Ok fb /\
  safe_json_parse (Some "null") fb = Ok fb /\
  safe_json_parse (Some "no JSON here") fb = Ok fb /\
  safe_json_parse (Some "{]") fb = Ok fb /\
  safe_json_parse (Some "{}") fb = Ok fb /\
  safe_json_parse (Some "[]") fb = Ok fb /\
  safe_json_parse (Some (json_text "['a', 'b']")) fb
  = Ok (JList [JStr "a"; JStr "b"]) /\
  clean_json_response
    (json_text ("```json" ++ String Re.newline "{'role_type':'frontend'}"
                ++ String Re.newline "```"))
  = json_text "{'role_type':'frontend'}" /\
  safe_json_parse
    (Some (json_text ("```json" ++ String Re.newline "{'role_type':'frontend'}"
                      ++ String Re.newline "```"))) fb
  = Ok (JDict [("role_type", JStr "frontend")]).
Proof. repeat split; vm_compute; reflexivity. Qed.

Lemma safe_json_parse_ok (text : option string) (fallback_data : json) :
  exists v, safe_json_parse text fallback_data = Ok v.
Proof.
  destruct (safe_json_parse_cases text fallback_data) as [v [H _]]. eauto.
Qed.

(* ------------------------------------------------------------------ *)
(** ** Random metrics and fallbacks *)

Lemma random_choice_in {A} (default : A) (l : list A) (g : rng) :
  l <> [] ->
  exists a, random_choice default l g
            = (Ok a, {| draws := draws g; pos := S (pos g) |}) /\ In a l.
Proof.
  intros Hl. unfold random_choice. eexists. split; [reflexivity|].
  apply nth_In. apply Nat.mod_upper_bound. destruct l; [congruence | discriminate].
Qed.

Lemma get_varied_metrics_total (g : rng) :
  exists m g',
    get_varied_metrics g = (Ok m, g') /\
    In (performance m) performance_improvements /\
    In (uptime m) uptime_metrics /\
    In (reduction m) reduction_metrics.
Proof.
  unfold get_varied_metrics, bindM.
  destruct (random_choice_in 0 performance_improvements g) as [p [-> Hp]];
    [discriminate|].
  destruct (random_choice_in EmptyString uptime_metrics
              {| draws := draws g; pos := S (pos g) |}) as [u [-> Hu]];
    [discriminate|].
  destruct (random_choice_in 0 reduction_metrics
              {| draws := draws g; pos := S (S (pos g)) |}) as [r [Hr1 Hr]];
    [discriminate|].
  cbn [draws pos] in *. rewrite Hr1.
  eexists. eexists. split; [reflexivity|]. cbn. auto.
Qed.

Lemma get_fallback_project_bullets_total (project_name : string) (g : rng) :
  exists x y g',
    get_fallback_project_bullets project_name g = (Ok [x; y], g').
Proof.
  unfold get_fallback_project_bullets, bindM.
  destruct (get_varied_metrics_total g) as [m [g' [-> _]]].
  unfold ret. eauto.
Qed.

(* ------------------------------------------------------------------ *)
(** ** Project bullets *)

(** What [generate_project_bullets_claude] returns, by the state of the
    gateway. *)
Lemma generate_project_bullets_cases (c : client) (job_description : string)
  (jd : jd_analysis) (proj : Project.t) (g : rng) :
  let out := run (generate_project_bullets_claude c job_description jd proj) g in
  let fallback_pair v :=
    exists g' fb,
      run (get_fallback_project_bullets (Project.name proj)) g' = Ok fb /\
      v = str_list fb in
  (exists x y, out = Ok (JList [x; y])) /\
  (forall text, c = Some (Ok text) ->
     exists g1 fb r,
       run (get_fallback_project_bullets (Project.name proj)) g1 = Ok fb /\
       safe_json_parse (Some (strip text)) (str_list fb) = Ok r /\
       (is_list_of_two_or_more r = true -> out = Ok (first_two r)) /\
       (is_list_of_two_or_more r = false ->
        exists v, out = Ok v /\ fallback_pair v)) /\
  (unavailable c = true -> exists v, out = Ok v /\ fallback_pair v).
Proof.
  intros out fallback_pair.
  destruct (get_varied_metrics_total g) as [m [g1 [Hm _]]].
  destruct c as [[text|e]|].
  - (* the gateway answered *)
    destruct (get_fallback_project_bullets_total (Project.name proj) g1)
      as [x [y [g2 Hfb]]].
    destruct (safe_json_parse_ok (Some (strip text)) (str_list [x; y]))
      as [r Hr].
    destruct (get_fallback_project_bullets_total (Project.name proj) g2)
      as [x' [y' [g3 Hfb']]].
    assert (E : out = Ok (if is_list_of_two_or_more r then first_two r
                          else str_list [x'; y'])).
    { subst out.
      unfold run, generate_project_bullets_claude, bindM, try_exceptM, lift,
        ret.
      rewrite Hm, Hfb, Hr.
      destruct (is_list_of_two_or_more r); [reflexivity|].
      rewrite Hfb'. reflexivity. }
    clearbody out. subst out. split; [|split].
    + destruct (is_list_of_two_or_more r) eqn:Hshape.
      * destruct r as [| | | | | | |l|]; try discriminate.
        destruct l as [|a [|b l]]; try discriminate.
        exists a, b. reflexivity.
      * exists (JStr x'), (JStr y'). reflexivity.
    + intros t Ht. injection Ht as <-. exists g1, [x; y], r.
      unfold run. rewrite Hfb. cbn [fst].
      split; [reflexivity|]. split; [assumption|].
      split; intros Hshape; rewrite Hshape; [reflexivity|].
      eexists. split; [reflexivity|].
      exists g2, [x'; y']. unfold run. rewrite Hfb'. auto.
    + discriminate.
  - (* the call failed *)
    destruct (get_fallback_project_bullets_total (Project.name proj) g1)
      as [x [y [g2 Hfb]]].
    assert (E : out = Ok (str_list [x; y])).
    { subst out.
      unfold run, generate_project_bullets_claude, bindM, try_exceptM, lift,
        ret.
      rewrite Hm, Hfb. reflexivity. }
    clearbody out. subst out. split; [|split].
    + exists (JStr x), (JStr y). reflexivity.
    + discriminate.
    + intros _. eexists. split; [reflexivity|].
      exists g1, [x; y]. unfold run. rewrite Hfb. auto.
  - (* no client *)
    destruct (get_fallback_project_bullets_total (Project.name proj) g)
      as [x [y [g2 Hfb]]].
    assert (E : out = Ok (str_list [x; y])).
    { subst out.
      unfold run, generate_project_bullets_claude, bindM, ret.
      rewrite Hfb. reflexivity. }
    clearbody out. subst out. split; [|split].
    + exists (JStr x), (JStr y). reflexivity.
    + discriminate.
    + intros _. eexists. split; [reflexivity|].
      exists g, [x; y]. unfold run. rewrite Hfb. auto.
Qed.

(** C3, as amended.  [generate_project_bullets_claude] always returns a list
    of exactly two elements and never raises.  When the gateway answers and
    the normalised result is a list of two or more elements, whatever their
    types, it returns the first two elements of that list; for every other
    normalised result, and when the gateway is unavailable, it returns the
    fallback pair of the project. *)
Theorem project_bullets_shape (c : client) (job_description : string)
  (jd : jd_analysis) (proj : Project.t) (g : rng) :
  let out := run (generate_project_bullets_claude c job_description jd proj) g in
  let fallback_pair v :=
    exists g' fb,
      run (get_fallback_project_bullets (Project.name proj)) g' = Ok fb /\
      v = str_list fb in
  (exists x y, out = Ok (JList [x; y])) /\
  (forall text, c = Some (Ok text) ->
     exists g1 fb r,
       run (get_fallback_project_bullets (Project.name proj)) g1 = Ok fb /\
       safe_json_parse (Some (strip text)) (str_list fb) = Ok r /\
       (is_list_of_two_or_more r = true -> out = Ok (first_two r)) /\
       (is_list_of_two_or_more r = false ->
        exists v, out = Ok v /\ fallback_pair v)) /\
  (unavailable c = true -> exists v, out = Ok v /\ fallback_pair v).
Proof. apply generate_project_bullets_cases. Qed.

(** C3 as stated fails: a normalised result of three strings is not a list
    of two strings, yet the generator returns its first two elements, which
    are not the fallback pair; and a list of two numbers is returned as it
    is. *)
Lemma project_bullets_not_only_two_strings :
  (forall fb, safe_json_parse (Some (strip three_bullets)) fb
              = Ok (JList [JStr "a"; JStr "b"; JStr "c"])) /\
  run (generate_project_bullets_claude (Some (Ok three_bullets)) ""
         backend_profile sample_project) (constant_rng 0)
  = Ok (JList [JStr "a"; JStr "b"]) /\
  (forall g, run (get_fallback_project_bullets (Project.name sample_project)) g
             <> Ok ["a"; "b"]) /\
  run (generate_project_bullets_claude (Some (Ok two_numbers)) ""
         backend_profile sample_project) (constant_rng 0)
  = Ok (JList [JInt 1; JInt 2]).
Proof.
  split; [|split; [|split]].
  - intros fb. vm_compute. reflexivity.
  - vm_compute. reflexivity.
  - intros g H.
    destruct (get_fallback_project_bullets_total
                (Project.name sample_project) g) as [x [y [g' Hfb]]].
    unfold run, get_fallback_project_bullets, bindM in H.
    destruct (get_varied_metrics_total g) as [m [g1 [Hm _]]].
    rewrite Hm in H. cbn in H. discriminate H.
  - vm_compute. reflexivity.
Qed.

(* ------------------------------------------------------------------ *)
(** ** Dependence on the random source *)

Section Respects.
Context {A B : Type}.

Lemma respects_ret (a : A) : respects_draws (ret a).
Proof. intros g1 g2 H. split; [reflexivity | exact H]. Qed.

Lemma respects_lift (r : res A) : respects_draws (lift r).
Proof. intros g1 g2 H. split; [reflexivity | exact H]. Qed.

Lemma respects_bind (m : M A) (k : A -> M B) :
  respects_draws m -> (forall a, respects_draws (k a)) ->
  respects_draws (bindM m k).
Proof.
  intros Hm Hk g1 g2 H. unfold bindM.
  destruct (Hm g1 g2 H) as [E H']. 
  destruct (m g1) as [[a|e] g1'], (m g2) as [[a'|e'] g2'];
    cbn [fst snd] in *; try discriminate.
  - injection E as <-. now apply Hk.
  - injection E as <-. split; [reflexivity | assumption].
Qed.

Lemma respects_try (body : M A) (handler : exn -> M A) :
  respects_draws body -> (forall e, respects_draws (handler e)) ->
  respects_draws (try_exceptM body handler).
Proof.
  intros Hm Hk g1 g2 H. unfold try_exceptM.
  destruct (Hm g1 g2 H) as [E H'].
  destruct (body g1) as [[a|e] g1'], (body g2) as [[a'|e'] g2'];
    cbn [fst snd] in *; try discriminate.
  - split; assumption.
  - injection E as <-. now apply Hk.
Qed.

Lemma respects_choice (default : A) (l : list A) :
  respects_draws (random_choice default l).
Proof.
  intros g1 g2 H. unfold random_choice. cbn [fst snd]. split.
  - pose proof (H 0) as H0. rewrite !Nat.add_0_r in H0. now rewrite H0.
  - intros i. cbn [draws pos]. specialize (H (S i)).
    now rewrite !Nat.add_succ_r in H.
Qed.

End Respects.

Ltac respects :=
  repeat first
    [ apply respects_ret
    | apply respects_lift
    | apply respects_choice
    | apply respects_bind; [|intros ?]
    | apply respects_try; [|intros ?]
    | match goal with
      | |- respects_draws (if ?b then _ else _) => destruct b
      | |- respects_draws (match ?c with Some _ => _ | None => _ end) =>
          destruct c
      end ].

Lemma get_varied_metrics_respects : respects_draws get_varied_metrics.
Proof. unfold get_varied_metrics. respects. Qed.

Lemma get_fallback_bullets_respects company :
  respects_draws (get_fallback_bullets company).
Proof.
  unfold get_fallback_bullets.
  apply respects_bind; [apply get_varied_metrics_respects | intros m].
  respects.
Qed.

Lemma get_fallback_project_bullets_respects project_name :
  respects_draws (get_fallback_project_bullets project_name).
Proof.
  unfold get_fallback_project_bullets.
  apply respects_bind; [apply get_varied_metrics_respects | intros m].
  respects.
Qed.

Lemma generate_experience_bullets_respects c job_description jd exp :
  respects_draws (generate_experience_bullets_claude c job_description jd exp).
Proof.
  unfold generate_experience_bullets_claude. destruct c as [call|].
  - apply respects_bind; [apply get_varied_metrics_respects | intros m].
    cbv zeta. apply respects_try.
    + apply respects_bind; [apply respects_lift | intros text].
      apply respects_bind; [apply get_fallback_bullets_respects | intros fb].
      respects.
    + intros e.
      apply respects_bind; [apply get_fallback_bullets_respects | intros fb].
      respects.
  - apply respects_bind; [apply get_fallback_bullets_respects | intros fb].
    respects.
Qed.

Lemma generate_project_bullets_respects c job_description jd proj :
  respects_draws (generate_project_bullets_claude c job_description jd proj).
Proof.
  unfold generate_project_bullets_claude. destruct c as [call|].
  - apply respects_bind; [apply get_varied_metrics_respects | intros m].
    apply respects_try.
    + apply respects_bind; [apply respects_lift | intros text].
      apply respects_bind;
        [apply get_fallback_project_bullets_respects | intros fb].
      apply respects_bind; [apply respects_lift | intros r].
      destruct (is_list_of_two_or_more r); [apply respects_ret|].
      apply respects_bind;
        [apply get_fallback_project_bullets_respects | intros fb'].
      respects.
    + intros e.
      apply respects_bind;
        [apply get_fallback_project_bullets_respects | intros fb].
      respects.
  - apply respects_bind;
      [apply get_fallback_project_bullets_respects | intros fb].
    respects.
Qed.

(** C4, as amended.  With the gateway unavailable (client not configured or
    call failed), the summary, the tech stack and the skills taxonomy are
    the fallbacks indexed by the role category alone.  The experience
    bullets and the project bullets embed metrics drawn by [random.choice]:
    for a fixed record, two executions produce identical bullets when the
    random source delivers the same draws in both. *)
Theorem fallback_deterministic_given_draws (c : client)
  (job_description : string) (jd : jd_analysis)
  (exp : Experience.t) (proj : Project.t)
  (all_experiences : list Experience.t) (all_projects : list Project.t)
  (g1 g2 : rng)
  (Hc : unavailable c = true) (Hg : same_draws g1 g2) :
  run (generate_experience_bullets_claude c job_description jd exp) g1
  = run (generate_experience_bullets_claude c job_description jd exp) g2 /\
  run (generate_project_bullets_claude c job_description jd proj) g1
  = run (generate_project_bullets_claude c job_description jd proj) g2 /\
  generate_professional_summary_claude c job_description jd
  = Ok (get_fallback_summary (role_type jd)) /\
  extract_tech_stack_claude c (Project.description proj) (Project.name proj) jd
  = Ok (get_fallback_tech_stack (role_type jd)) /\
  generate_skills_section_claude c job_description jd all_experiences
    all_projects
  = Ok (get_fallback_skills (role_type jd)).
Proof.
  split; [|split].
  - apply (generate_experience_bullets_respects c job_description jd exp g1 g2 Hg).
  - apply (generate_project_bullets_respects c job_description jd proj g1 g2 Hg).
  - destruct c as [[text|e]|]; [discriminate | |]; repeat split; reflexivity.
Qed.

Lemma fallback_deterministic_given_draws_witness :
  run (generate_experience_bullets_claude None "" backend_profile acme_record)
    rng_a
  = run (generate_experience_bullets_claude None "" backend_profile acme_record)
      rng_b.
Proof.
  apply (fallback_deterministic_given_draws None "" backend_profile
           acme_record sample_project [] [] rng_a rng_b eq_refl).
  intros i. cbn. lia.
Defined.

(** C4 as stated fails: with the client not configured, or with a failing
    call, two executions on the same record whose random draws differ return
    different bullets. *)
Lemma fallback_bullets_vary :
  run (generate_experience_bullets_claude None "" backend_profile acme_record)
    (constant_rng 0)
  <> run (generate_experience_bullets_claude None "" backend_profile
            acme_record) (constant_rng 1) /\
  run (generate_experience_bullets_claude (Some (Raise GatewayError)) ""
         backend_profile acme_record) (constant_rng 0)
  <> run (generate_experience_bullets_claude (Some (Raise GatewayError)) ""
            backend_profile acme_record) (constant_rng 1) /\
  run (generate_project_bullets_claude None "" backend_profile sample_project)
    (constant_rng 0)
  <> run (generate_project_bullets_claude None "" backend_profile
            sample_project) (constant_rng 1).
Proof. repeat split; vm_compute; discriminate. Qed.

(* ------------------------------------------------------------------ *)
(** ** Experience bullets of a flagged record *)

(** C5 fails on the code: for a record of a recognised healthcare employer
    the normalised answer of the gateway is returned as it is, here a list
    of one bullet and a dict. *)
Lemma flagged_record_bullets_unchecked :
  is_healthcare_experience bicyclehealth_record = true /\
  run (generate_experience_bullets_claude (Some (Ok one_healthcare_bullet)) ""
         backend_profile bicyclehealth_record) (constant_rng 0)
  = Ok (str_list ["Led development of the telemedicine app"]) /\
  run (generate_experience_bullets_claude (Some (Ok bullets_in_an_object)) ""
         backend_profile bicyclehealth_record) (constant_rng 0)
  = Ok (JDict [("bullets", str_list ["a"; "b"; "c"])]).
Proof. repeat split; vm_compute; reflexivity. Qed.

(* ------------------------------------------------------------------ *)
(** ** Truthfulness filter *)

Lemma existsb_false_iff {A} (f : A -> bool) (l : list A) :
  existsb f l = false <-> forall x, In x l -> f x = false.
Proof.
  induction l as [|a l IH]; cbn [existsb In].
  - split; [intros _ x [] | reflexivity].
  - rewrite orb_false_iff, IH. split.
    + intros [Ha Hl] x [<- | Hx]; auto.
    + intros H. split; [apply H; now left | intros x Hx; apply H; now right].
Qed.

Lemma clean_iff (s : string) :
  clean s <->
  forall k, In k healthcare_keywords -> contains k (lower s) = false.
Proof. unfold clean, mentions_healthcare. apply existsb_false_iff. Qed.

Lemma healthcare_keywords_have_no_space (k : string) :
  In k healthcare_keywords -> occurs " "%char k = false.
Proof.
  intros H. cbn in H.
  repeat destruct H as [<- | H]; try reflexivity. contradiction.
Qed.

(** A text put between two clean texts, a space on either side, is clean
    when the text itself is. *)
Lemma clean_embedded (pre c suf : string) :
  clean pre -> clean suf -> clean c ->
  clean (pre ++ String " "%char (c ++ String " "%char suf)).
Proof.
  rewrite !clean_iff. intros Hpre Hsuf Hc k Hk.
  pose proof (healthcare_keywords_have_no_space k Hk) as Hsp.
  rewrite lower_append. cbn [lower].
  change (lower_char " "%char) with " "%char.
  rewrite (contains_separated _ _ _ _ Hsp).
  rewrite lower_append. cbn [lower].
  change (lower_char " "%char) with " "%char.
  rewrite (contains_separated _ _ _ _ Hsp).
  now rewrite (Hpre k Hk), (Hc k Hk), (Hsuf k Hk).
Qed.

Lemma filler_bullet_clean (company : string) :
  clean company -> clean (filler_bullet company).
Proof.
  intros Hc.
  change (filler_bullet company)
    with ("Delivered high-performance solutions at"
          ++ String " "%char
               (company ++ String " "%char "with measurable business impact")).
  apply clean_embedded; [reflexivity | reflexivity | assumption].
Qed.

(** Case analysis on the member of a list of constants a value is. *)
Ltac by_cases H :=
  cbn in H; repeat destruct H as [<- | H]; [reflexivity .. | contradiction].

Lemma get_fallback_bullets_total (company : string) (g : rng) :
  exists bs g',
    get_fallback_bullets company g = (Ok bs, g') /\
    List.length bs = 4 /\
    (clean company -> Forall clean bs).
Proof.
  unfold get_fallback_bullets, bindM.
  destruct (get_varied_metrics_total g) as [[p u r] [g' [-> [Hp [Hu Hr]]]]].
  cbn [performance uptime reduction] in *. unfold ret.
  destruct (contains "hellogov" (lower company));
    [|destruct (contains "facebook" (lower company));
      [|destruct (contains "microsoft" (lower company))]];
    (eexists; eexists; split; [reflexivity|]; split; [reflexivity|]);
    intros Hc; repeat apply Forall_cons; try apply Forall_nil;
    try reflexivity;
    try (clear - Hp; by_cases Hp);
    try (clear - Hu; by_cases Hu);
    try (clear - Hr; by_cases Hr).
  change ("Developed scalable applications at " ++ company
          ++ " using modern frameworks and architectural patterns")
    with ("Developed scalable applications at"
          ++ String " "%char
               (company ++ String " "%char
                  "using modern frameworks and architectural patterns")).
  apply clean_embedded; [reflexivity | reflexivity | assumption].
Qed.

Lemma filter_bullets_clean (items : list json) (acc res : list string) :
  filter_bullets items acc = Ok res -> Forall clean acc -> Forall clean res.
Proof.
  revert acc; induction items as [|item items IH]; intros acc H Hacc.
  - cbn in H. injection H as <-. assumption.
  - destruct item; try discriminate. cbn [filter_bullets] in H.
    destruct (mentions_healthcare s) eqn:E; cbn [negb] in H.
    + now apply (IH acc).
    + apply (IH _ H). apply Forall_app. split; [assumption|].
      constructor; [exact E | constructor].
Qed.

Lemma pad_bullets_length (company : string) (l : list string) :
  3 <= List.length (pad_bullets 3 company l).
Proof.
  destruct l as [|a [|b [|c l]]]; cbn; lia.
Qed.

Lemma pad_bullets_clean (fuel : nat) (company : string) (l : list string) :
  clean company -> Forall clean l -> Forall clean (pad_bullets fuel company l).
Proof.
  intros Hc. revert l; induction fuel as [|fuel IH]; intros l Hl;
    cbn [pad_bullets]; [assumption|].
  destruct (List.length l <? 3); [|assumption].
  apply IH. apply Forall_app. split; [assumption|].
  constructor; [now apply filler_bullet_clean | constructor].
Qed.

Lemma Forall_firstn {A} (P : A -> Prop) (n : nat) (l : list A) :
  Forall P l -> Forall P (firstn n l).
Proof.
  rewrite !Forall_forall. intros H x Hx. apply H.
  rewrite <- (firstn_skipn n l). apply in_or_app. now left.
Qed.

Lemma truthful_clean (company : string) (bs : list string) :
  clean company -> Forall (truthful company) bs -> Forall clean bs.
Proof.
  intros Hc. apply Forall_impl. intros b [Hb | [Hm _]]; [assumption|].
  unfold clean in Hc. congruence.
Qed.

Lemma clean_truthful (company : string) (bs : list string) :
  Forall clean bs -> Forall (truthful company) bs.
Proof. apply Forall_impl. intros b Hb. now left. Qed.

Lemma filler_bullet_truthful (company : string) :
  truthful company (filler_bullet company).
Proof.
  destruct (mentions_healthcare company) eqn:E.
  - right. split; [exact E | now left].
  - left. now apply filler_bullet_clean.
Qed.

Lemma get_fallback_bullets_truthful (company : string) (g : rng) :
  exists bs g',
    get_fallback_bullets company g = (Ok bs, g') /\
    List.length bs = 4 /\
    Forall (truthful company) bs.
Proof.
  unfold get_fallback_bullets, bindM.
  destruct (get_varied_metrics_total g) as [[p u r] [g' [-> [Hp [Hu Hr]]]]].
  cbn [performance uptime reduction] in *. unfold ret.
  destruct (contains "hellogov" (lower company));
    [|destruct (contains "facebook" (lower company));
      [|destruct (contains "microsoft" (lower company))]];
    (eexists; eexists; split; [reflexivity|]; split; [reflexivity|]);
    repeat apply Forall_cons; try apply Forall_nil;
    try (left; reflexivity);
    try (left; clear - Hp; by_cases Hp);
    try (left; clear - Hu; by_cases Hu);
    try (left; clear - Hr; by_cases Hr).
  destruct (mentions_healthcare company) eqn:E.
  - right. split; [exact E | now right].
  - left.
    change ("Developed scalable applications at " ++ company
            ++ " using modern frameworks and architectural patterns")
      with ("Developed scalable applications at"
            ++ String " "%char
                 (company ++ String " "%char
                    "using modern frameworks and architectural patterns")).
    apply clean_embedded; [reflexivity | reflexivity | assumption].
Qed.

Lemma pad_bullets_truthful (fuel : nat) (company : string)
  (l : list string) :
  Forall (truthful company) l ->
  Forall (truthful company) (pad_bullets fuel company l).
Proof.
  revert l; induction fuel as [|fuel IH]; intros l Hl;
    cbn [pad_bullets]; [assumption|].
  destruct (List.length l <? 3); [|assumption].
  apply IH. apply Forall_app. split; [assumption|].
  constructor; [apply filler_bullet_truthful | constructor].
Qed.

(** What [generate_experience_bullets_claude] returns for a record that is
    not flagged. *)
Lemma unflagged_bullets (c : client) (job_description : string)
  (jd : jd_analysis) (exp : Experience.t) (g : rng) :
  unflagged exp ->
  exists bullets,
    run (generate_experience_bullets_claude c job_description jd exp) g
    = Ok (str_list bullets) /\
    (List.length bullets = 3 \/ List.length bullets = 4) /\
    Forall (truthful (Experience.company exp)) bullets.
Proof.
  intros [Hcompany Hdesc].
  destruct (get_varied_metrics_total g) as [m [g1 [Hm _]]].
  destruct c as [[text|e]|].
  - (* the gateway answered *)
    destruct (get_fallback_bullets_truthful (Experience.company exp) g1)
      as [fb [g2 [Hfb _]]].
    destruct (safe_json_parse_ok (Some (strip text)) (str_list fb)) as [r Hr].
    destruct (get_fallback_bullets_truthful (Experience.company exp) g2)
      as [fb' [g3 [Hfb' [Hlen' Htruthful']]]].
    set (kept :=
           items <- iterate r ;; filter_bullets items []).
    assert (E : run (generate_experience_bullets_claude (Some (Ok text))
                       job_description jd exp) g
                = Ok (str_list
                        match kept with
                        | Ok filtered =>
                            firstn 4 (pad_bullets 3 (Experience.company exp)
                                        filtered)
                        | Raise _ => fb'
                        end)).
    { unfold run, generate_experience_bullets_claude, bindM, try_exceptM,
        lift, ret.
      rewrite Hm, Hfb, Hr, Hcompany, Hdesc. cbn [negb andb].
      subst kept. unfold bind.
      destruct (iterate r) as [items|e]; [|rewrite Hfb'; reflexivity].
      destruct (filter_bullets items []) as [filtered|e];
        [reflexivity | rewrite Hfb'; reflexivity]. }
    rewrite E. eexists. split; [reflexivity|].
    destruct kept as [filtered|e] eqn:Hkept; [|auto].
    split.
    + rewrite length_firstn.
      pose proof (pad_bullets_length (Experience.company exp) filtered). lia.
    + apply Forall_firstn, pad_bullets_truthful, clean_truthful.
      subst kept. unfold bind in Hkept.
      destruct (iterate r) as [items|e]; [|discriminate].
      apply (filter_bullets_clean items [] filtered Hkept). constructor.
  - (* the call failed *)
    destruct (get_fallback_bullets_truthful (Experience.company exp) g1)
      as [fb [g2 [Hfb [Hlen Htruthful]]]].
    exists fb. split; [|auto].
    unfold run, generate_experience_bullets_claude, bindM, try_exceptM,
      lift, ret.
    rewrite Hm, Hfb. reflexivity.
  - (* no client *)
    destruct (get_fallback_bullets_truthful (Experience.company exp) g)
      as [fb [g2 [Hfb [Hlen Htruthful]]]].
    exists fb. split; [|auto].
    unfold run, generate_experience_bullets_claude, bindM, ret.
    rewrite Hfb. reflexivity.
Qed.

(** C1, as amended.  For a record that is flagged as healthcare neither by
    its employer name nor by its description, the experience-bullet
    generator returns a list of 3 or 4 strings.  Every returned bullet is
    free of the banned keywords, with one exception: the two sentences that
    quote the employer name (the filler of the filter and the first
    sentence of the general fallback) when the employer name itself
    contains a banned keyword.  In particular, when the employer name
    contains none, no returned bullet contains one. *)
Theorem unflagged_bullets_truthful (c : client) (job_description : string)
  (jd : jd_analysis) (exp : Experience.t) (g : rng)
  (Hexp : unflagged exp) :
  exists bullets,
    run (generate_experience_bullets_claude c job_description jd exp) g
    = Ok (str_list bullets) /\
    (List.length bullets = 3 \/ List.length bullets = 4) /\
    Forall (fun bullet =>
              clean bullet \/
              (mentions_healthcare (Experience.company exp) = true /\
               names_employer (Experience.company exp) bullet))
      bullets /\
    (clean (Experience.company exp) -> Forall clean bullets).
Proof.
  destruct (unflagged_bullets c job_description jd exp g Hexp)
    as [bullets [Hrun [Hlen Hbullets]]].
  exists bullets. repeat split; try assumption.
  intros Hc. now apply (truthful_clean (Experience.company exp)).
Qed.

Lemma unflagged_bullets_truthful_witness :
  exists bullets,
    run (generate_experience_bullets_claude (Some (Ok one_plain_bullet)) ""
           backend_profile acme_record) (constant_rng 0)
    = Ok (str_list bullets) /\
    (List.length bullets = 3 \/ List.length bullets = 4) /\
    Forall (fun bullet =>
              clean bullet \/
              (mentions_healthcare (Experience.company acme_record) = true /\
               names_employer (Experience.company acme_record) bullet))
      bullets /\
    (clean (Experience.company acme_record) -> Forall clean bullets).
Proof.
  apply (unflagged_bullets_truthful (Some (Ok one_plain_bullet)) ""
           backend_profile acme_record (constant_rng 0)).
  split; reflexivity.
Defined.

(** C1 as stated fails: the employer "Healthy Snacks" is not flagged, the
    gateway returns one bullet, and the two bullets synthesised to reach
    three name the employer and so contain the banned keyword "health". *)
Lemma filler_bullets_can_mention_healthcare :
  unflagged healthy_snacks_record /\
  run (generate_experience_bullets_claude (Some (Ok one_plain_bullet)) ""
         backend_profile healthy_snacks_record) (constant_rng 0)
  = Ok (str_list
          ["Built the ordering API";
           "Delivered high-performance solutions at Healthy Snacks with measurable business impact";
           "Delivered high-performance solutions at Healthy Snacks with measurable business impact"]) /\
  mentions_healthcare
    "Delivered high-performance solutions at Healthy Snacks with measurable business impact"
  = true.
Proof. repeat split; vm_compute; reflexivity. Qed.

(** Scenario D: of five generated bullets for an unflagged record the two
    about patient care are discarded; three remain, so nothing is
    synthesised.  With a single generated bullet two filler bullets are
    appended. *)
Example truthfulness_filter_scenario_D :
  run (generate_experience_bullets_claude (Some (Ok five_bullets)) ""
         backend_profile acme_record) (constant_rng 0)
  = Ok (str_list ["Built APIs"; "Led a team"; "Cut latency"]) /\
  run (generate_experience_bullets_claude (Some (Ok one_plain_bullet)) ""
         backend_profile acme_record) (constant_rng 0)
  = Ok (str_list ["Built the ordering API";
                  filler_bullet "ACME"; filler_bullet "ACME"]).
Proof. split; vm_compute; reflexivity. Qed.

(* ------------------------------------------------------------------ *)
(** ** LaTeX escaping *)

Lemma replace_append (old : ascii) (new a b : string) :
  replace old new (a ++ b) = replace old new a ++ replace old new b.
Proof.
  induction a as [|c a IH]; cbn [replace append]; [reflexivity|].
  destruct (Ascii.eqb c old); cbn [append]; rewrite IH;
    [now rewrite append_assoc | reflexivity].
Qed.

Section Escaping.

(** The loop of [escape_latex_chars]. *)
Let escape_loop (s : string) : string :=
  fold_left (fun escaped_text item => replace (fst item) (snd item) escaped_text)
    latex_special_chars s.

Lemma escape_loop_append (a b : string) :
  escape_loop (a ++ b) = escape_loop a ++ escape_loop b.
Proof.
  unfold escape_loop. cbn [fold_left latex_special_chars fst snd].
  now rewrite !replace_append.
Qed.

Lemma escape_loop_char (c : ascii) :
  escape_loop (String c EmptyString) = escape_char c.
Proof.
  destruct c as [[|] [|] [|] [|] [|] [|] [|] [|]]; vm_compute; reflexivity.
Qed.

Lemma escape_loop_each (s : string) : escape_loop s = escape_each s.
Proof.
  induction s as [|c s IH]; [reflexivity|].
  change (String c s) with (String c EmptyString ++ s).
  rewrite escape_loop_append, escape_loop_char, IH. reflexivity.
Qed.

Lemma escape_latex_chars_each (s : string) :
  escape_latex_chars s = escape_each s.
Proof.
  unfold escape_latex_chars. destruct s as [|c s]; [reflexivity|].
  cbn [nonempty negb]. apply escape_loop_each.
Qed.

End Escaping.

Lemma escape_each_append (a b : string) :
  escape_each (a ++ b) = escape_each a ++ escape_each b.
Proof.
  induction a as [|c a IH]; cbn [escape_each append]; [reflexivity|].
  now rewrite IH, append_assoc.
Qed.

Lemma escape_char_cases (c : ascii) :
  (is_special c = false /\ escape_char c = String c EmptyString) \/
  (is_special c = true /\
   2 <= String.length (escape_char c) <= 18 /\
   has_special (escape_char c) = true).
Proof.
  destruct c as [[|] [|] [|] [|] [|] [|] [|] [|]];
    first [ left; split; vm_compute; reflexivity
          | right; split; [reflexivity|]; split; [vm_compute; lia|];
            vm_compute; reflexivity ].
Qed.

Lemma has_special_append (a b : string) :
  has_special (a ++ b) = has_special a || has_special b.
Proof.
  induction a as [|c a IH]; cbn [has_special append]; [reflexivity|].
  now rewrite IH, orb_assoc.
Qed.

Lemma escape_each_length (s : string) :
  String.length s <= String.length (escape_each s) <= 18 * String.length s /\
  (has_special s = true -> String.length s < String.length (escape_each s)) /\
  (has_special s = false -> escape_each s = s) /\
  has_special (escape_each s) = has_special s.
Proof.
  induction s as [|c s [[IH1 IH2] [IH3 [IH4 IH5]]]];
    [cbn; repeat split; auto; try discriminate; lia|].
  cbn [escape_each has_special String.length].
  rewrite length_append, has_special_append, IH5.
  destruct (escape_char_cases c) as [[Hc ->] | [Hc [[Hl1 Hl2] Hs]]];
    rewrite Hc.
  - cbn [String.length has_special append orb]. rewrite Hc. cbn [orb].
    repeat split; try lia.
    + intros H. specialize (IH3 H). lia.
    + intros H. now rewrite (IH4 H).
  - rewrite Hs. cbn [orb]. repeat split; first [lia | discriminate].
Qed.

(** X1.  [escape_latex_chars] escapes each character once: the nine
    successive replacements give what one pass gives that replaces every
    special character by its entry of the table, so no escape sequence is
    escaped again; hence the escape of a concatenation is the
    concatenation of the escapes. *)
Theorem escape_latex_chars_charwise (a b : string) :
  escape_latex_chars a = escape_each a /\
  escape_latex_chars (a ++ b) = escape_latex_chars a ++ escape_latex_chars b.
Proof.
  split; [apply escape_latex_chars_each|].
  rewrite !escape_latex_chars_each. apply escape_each_append.
Qed.

(** X2.  [escape_latex_chars] never drops a character and at most
    multiplies the length by 18; it leaves a text unchanged exactly when
    the text has none of the nine special characters (a backslash is not
    one of them and is left as it is). *)
Theorem escape_latex_chars_growth (s : string) :
  String.length s <= String.length (escape_latex_chars s)
  <= 18 * String.length s /\
  (escape_latex_chars s = s <-> has_special s = false).
Proof.
  rewrite escape_latex_chars_each.
  destruct (escape_each_length s) as [Hl [Hgrow [Hsame _]]].
  split; [exact Hl|]. split; [|exact Hsame].
  intros E. destruct (has_special s) eqn:Hs; [|reflexivity].
  specialize (Hgrow eq_refl). rewrite E in Hgrow. lia.
Qed.

(** X3.  [escape_latex_chars] is not idempotent: escaping an escaped text
    again changes it, unless the text had no special character. *)
Theorem escape_latex_chars_twice (s : string) :
  escape_latex_chars (escape_latex_chars s) = escape_latex_chars s
  <-> has_special s = false.
Proof.
  rewrite !escape_latex_chars_each.
  destruct (escape_each_length s) as [_ [_ [Hsame Hkeep]]].
  destruct (escape_each_length (escape_each s)) as [_ [Hgrow [Hsame' _]]].
  rewrite Hkeep in Hgrow, Hsame'. split.
  - intros E. destruct (has_special s); [|reflexivity].
    specialize (Hgrow eq_refl). rewrite E in Hgrow. lia.
  - intros H. now apply Hsame'.
Qed.

(* ------------------------------------------------------------------ *)
(** ** What the cleaning keeps *)

Lemma occurs_append_false (c : ascii) (a b : string) :
  occurs c (a ++ b) = false <-> occurs c a = false /\ occurs c b = false.
Proof. rewrite occurs_append. apply orb_false_iff. Qed.

Lemma occurs_drop (c : ascii) (n : nat) (s : string) :
  occurs c s = false -> occurs c (drop n s) = false.
Proof.
  revert s; induction n as [|n IH]; intros [|a s]; cbn [drop occurs]; auto.
  intros H. apply orb_false_iff in H. now apply IH.
Qed.

Lemma occurs_lstrip_with (c : ascii) (p : ascii -> bool) (s : string) :
  occurs c s = false -> occurs c (lstrip_with p s) = false.
Proof.
  induction s as [|a s IH]; cbn [lstrip_with occurs]; [auto|].
  intros H. destruct (p a); [|exact H].
  apply orb_false_iff in H. now apply IH.
Qed.

Lemma occurs_skip_space (c : ascii) (nl : bool) (s : string) :
  occurs c s = false -> occurs c (snd (Re.skip_space nl s)) = false.
Proof.
  revert nl; induction s as [|a s IH]; intros nl; cbn [Re.skip_space occurs];
    [auto|].
  intros H. destruct (isspace a); [|exact H].
  apply orb_false_iff in H. now apply IH.
Qed.

(** The substitutions only delete: a character that does not occur in the
    text does not occur in the result. *)
Lemma occurs_sub_line_prefix (c : ascii) (marker : string) (fuel : nat)
  (bol : bool) (s : string) :
  occurs c s = false ->
  occurs c (Re.sub_line_prefix marker fuel bol s) = false.
Proof.
  revert bol s; induction fuel as [|fuel IH]; intros bol s H; [exact H|].
  destruct s as [|a t]; [reflexivity|]. cbn [Re.sub_line_prefix].
  destruct (bol && startswith marker (String a t)).
  - pose proof (occurs_skip_space c false _
                  (occurs_drop c (String.length marker) _ H)) as Hr.
    destruct (Re.skip_space false (drop (String.length marker) (String a t)))
      as [nl r].
    now apply IH.
  - cbn [occurs] in *. apply orb_false_iff in H. destruct H as [-> H].
    now apply IH.
Qed.

Lemma occurs_match_close_fence (c : ascii) (s r : string) :
  Re.match_close_fence s = Some r -> occurs c s = false -> occurs c r = false.
Proof.
  unfold Re.match_close_fence. intros H Hs.
  destruct (startswith "```" (lstrip_with isspace s)); [|discriminate].
  pose proof (occurs_drop c 3 _ (occurs_lstrip_with c isspace s Hs)) as Hd.
  destruct (drop 3 (lstrip_with isspace s)) as [|a t];
    [injection H as <-; reflexivity|].
  destruct (Ascii.eqb a Re.newline); [|discriminate].
  injection H as <-. exact Hd.
Qed.

Lemma occurs_sub_close_fence (c : ascii) (fuel : nat) (s : string) :
  occurs c s = false -> occurs c (Re.sub_close_fence fuel s) = false.
Proof.
  revert s; induction fuel as [|fuel IH]; intros s H; [exact H|].
  destruct s as [|a t]; [reflexivity|]. cbn [Re.sub_close_fence].
  destruct (Re.match_close_fence (String a t)) as [r|] eqn:E.
  - apply IH. now apply (occurs_match_close_fence c _ _ E).
  - cbn [occurs] in *. apply orb_false_iff in H. destruct H as [-> H].
    now apply IH.
Qed.

(** A literal without opening brace that starts a text with an opening
    brace lies before the brace. *)
Lemma startswith_before_brace (marker pre x : string) :
  occurs "{"%char marker = false ->
  startswith marker (pre ++ String "{"%char x) = true ->
  exists pre1, pre = marker ++ pre1.
Proof.
  revert pre; induction marker as [|a marker IH]; intros pre Hmk H.
  - exists pre. reflexivity.
  - cbn [occurs] in Hmk. apply orb_false_iff in Hmk. destruct Hmk as [Ha Hmk].
    destruct pre as [|b pre]; cbn [append startswith] in H.
    + apply andb_true_iff in H. destruct H as [H _].
      apply Ascii.eqb_eq in H. subst a. discriminate.
    + apply andb_true_iff in H. destruct H as [H1 H2].
      apply Ascii.eqb_eq in H1. subst b.
      destruct (IH pre Hmk H2) as [pre1 ->]. exists pre1. reflexivity.
Qed.

Lemma drop_append_exact (a b : string) : drop (String.length a) (a ++ b) = b.
Proof. induction a; cbn; auto. Qed.

Lemma skip_space_before_brace (nl : bool) (pre x : string) :
  exists pre1 nl',
    Re.skip_space nl (pre ++ String "{"%char x)
    = (nl', pre1 ++ String "{"%char x) /\
    String.length pre1 <= String.length pre /\
    (occurs "{"%char pre = false -> occurs "{"%char pre1 = false).
Proof.
  revert nl; induction pre as [|a pre IH]; intros nl.
  - exists EmptyString, nl. cbn. auto.
  - cbn [append Re.skip_space]. destruct (isspace a).
    + destruct (IH (Ascii.eqb a Re.newline)) as [pre1 [nl' [E [Hl Ho]]]].
      exists pre1, nl'. split; [exact E|]. split; [cbn; lia|].
      intros H. cbn in H. apply orb_false_iff in H. now apply Ho.
    + exists (String a pre), nl. auto.
Qed.

Lemma lstrip_before_brace (pre x : string) :
  exists pre1,
    lstrip_with isspace (pre ++ String "{"%char x)
    = pre1 ++ String "{"%char x /\
    String.length pre1 <= String.length pre /\
    (occurs "{"%char pre = false -> occurs "{"%char pre1 = false).
Proof.
  induction pre as [|a pre IH].
  - exists EmptyString. cbn. auto.
  - cbn [append lstrip_with]. destruct (isspace a).
    + destruct IH as [pre1 [E [Hl Ho]]].
      exists pre1. split; [exact E|]. split; [cbn; lia|].
      intros H. cbn in H. apply orb_false_iff in H. now apply Ho.
    + exists (String a pre). auto.
Qed.

(** Scanning for a marker that starts with a backtick passes over a text
    without backtick. *)
Lemma sub_line_prefix_plain (marker : string) (p q : string) :
  startswith "`" marker = true ->
  occurs "`"%char p = false ->
  forall fuel bol,
    String.length (p ++ q) <= fuel ->
    exists fuel' bol',
      Re.sub_line_prefix marker fuel bol (p ++ q)
      = p ++ Re.sub_line_prefix marker fuel' bol' q /\
      String.length q <= fuel'.
Proof.
  intros Hmk. induction p as [|a p IH]; intros Hp fuel bol Hf.
  - exists fuel, bol. auto.
  - cbn [occurs] in Hp. apply orb_false_iff in Hp. destruct Hp as [Ha Hp].
    destruct fuel as [|fuel]; [cbn in Hf; lia|].
    cbn [append Re.sub_line_prefix].
    assert (E : startswith marker (String a (p ++ q)) = false).
    { destruct marker as [|b marker]; [discriminate|].
      cbn [startswith] in Hmk |- *.
      apply andb_true_iff in Hmk. destruct Hmk as [Hb _].
      apply Ascii.eqb_eq in Hb. subst b.
      rewrite Ascii.eqb_sym, Ha. reflexivity. }
    rewrite E, andb_false_r.
    destruct (IH Hp fuel (Ascii.eqb a Re.newline)) as [fuel' [bol' [-> Hq]]];
      [cbn in Hf; lia|].
    exists fuel', bol'. auto.
Qed.

(** No closing fence starts inside a text without backtick that a closing
    brace follows. *)
Lemma match_close_fence_plain (p q : string) :
  occurs "`"%char p = false ->
  Re.match_close_fence (p ++ String "}"%char q) = None.
Proof.
  intros Hp. unfold Re.match_close_fence.
  assert (E : startswith "```" (lstrip_with isspace (p ++ String "}"%char q))
              = false).
  { induction p as [|a p IH]; [reflexivity|].
    cbn [occurs] in Hp. apply orb_false_iff in Hp. destruct Hp as [Ha Hp].
    cbn [append lstrip_with]. destruct (isspace a); [now apply IH|].
    cbn [startswith]. rewrite Ascii.eqb_sym, Ha. reflexivity. }
  now rewrite E.
Qed.

Lemma sub_close_fence_plain (p q : string) :
  occurs "`"%char p = false ->
  forall fuel,
    String.length (p ++ String "}"%char q) <= fuel ->
    exists fuel',
      Re.sub_close_fence fuel (p ++ String "}"%char q)
      = p ++ String "}"%char (Re.sub_close_fence fuel' q) /\
      String.length q <= fuel'.
Proof.
  induction p as [|a p IH]; intros Hp fuel Hf.
  - destruct fuel as [|fuel]; [cbn in Hf; lia|].
    pose proof (match_close_fence_plain EmptyString q eq_refl) as E.
    cbn [append Re.sub_close_fence] in *. rewrite E.
    exists fuel. split; [reflexivity | cbn in Hf; lia].
  - pose proof (match_close_fence_plain (String a p) q Hp) as E.
    cbn [occurs] in Hp. apply orb_false_iff in Hp. destruct Hp as [Ha Hp].
    destruct fuel as [|fuel]; [cbn in Hf; lia|].
    cbn [append Re.sub_close_fence] in *. rewrite E.
    destruct (IH Hp fuel) as [fuel' [-> Hq]]; [cbn in Hf; lia|].
    exists fuel'. auto.
Qed.

Lemma match_close_fence_before_brace (pre x r : string) :
  Re.match_close_fence (pre ++ String "{"%char x) = Some r ->
  exists pre1,
    r = pre1 ++ String "{"%char x /\
    String.length pre1 < String.length pre /\
    (occurs "{"%char pre = false -> occurs "{"%char pre1 = false).
Proof.
  unfold Re.match_close_fence. intros H.
  destruct (lstrip_before_brace pre x) as [pre1 [E [Hl Ho]]].
  rewrite E in H.
  destruct (startswith "```" (pre1 ++ String "{"%char x)) eqn:Es;
    [|discriminate].
  destruct (startswith_before_brace "```" pre1 x eq_refl Es) as [pre2 ->].
  rewrite append_assoc in H.
  assert (Hd : drop 3 ("```" ++ pre2 ++ String "{"%char x)
               = pre2 ++ String "{"%char x)
    by apply (drop_append_exact "```").
  rewrite Hd in H.
  exists pre2. rewrite length_append in Hl. cbn [String.length] in Hl.
  assert (r = pre2 ++ String "{"%char x) as ->.
  { destruct (pre2 ++ String "{"%char x) as [|c t] eqn:E2;
      [injection H as <-; reflexivity|].
    destruct (Ascii.eqb c Re.newline); [|discriminate].
    now injection H as <-. }
  split; [reflexivity|]. split; [lia|].
  intros Hpre. specialize (Ho Hpre).
  now apply occurs_append_false in Ho.
Qed.

Section Core.
(** A brace span without backtick. *)
Context (m : string) (Hm : occurs "`"%char m = false).
Let core : string := String "{"%char (m ++ String "}"%char EmptyString).

Lemma core_no_backtick : occurs "`"%char core = false.
Proof. unfold core. cbn [occurs]. rewrite occurs_append, Hm. reflexivity. Qed.

Lemma core_append (post : string) :
  core ++ post = String "{"%char (m ++ String "}"%char post).
Proof. unfold core. cbn [append]. now rewrite append_assoc. Qed.

(** A substitution of an opening fence leaves the brace span in place. *)
Lemma sub_line_prefix_core (marker : string) :
  startswith "`" marker = true ->
  occurs "{"%char marker = false ->
  forall fuel pre post bol,
    String.length (pre ++ core ++ post) <= fuel ->
    exists pre' post',
      Re.sub_line_prefix marker fuel bol (pre ++ core ++ post)
      = pre' ++ core ++ post' /\
      (occurs "{"%char pre = false -> occurs "{"%char pre' = false) /\
      (occurs "}"%char post = false -> occurs "}"%char post' = false).
Proof.
  intros Hmk Hbr.
  assert (Hlen : 0 < String.length marker)
    by (destruct marker; [discriminate | cbn; lia]).
  induction fuel as [|fuel IH]; intros pre post bol Hf.
  - rewrite !length_append in Hf. unfold core in Hf. cbn in Hf. lia.
  - destruct pre as [|a pre].
    + cbn [append].
      destruct (sub_line_prefix_plain marker core post Hmk core_no_backtick
                  (S fuel) bol Hf) as [fuel' [bol' [-> _]]].
      exists EmptyString, (Re.sub_line_prefix marker fuel' bol' post).
      split; [reflexivity|]. split; [auto|]. apply occurs_sub_line_prefix.
    + cbn [append Re.sub_line_prefix].
      destruct (bol && startswith marker (String a (pre ++ core ++ post)))
        eqn:E.
      * apply andb_true_iff in E. destruct E as [_ E].
        change (String a (pre ++ core ++ post))
          with (String a pre ++ core ++ post) in *.
        rewrite core_append in E |- *.
        destruct (startswith_before_brace marker (String a pre) _ Hbr E)
          as [pre1 Epre].
        rewrite Epre, append_assoc, drop_append_exact.
        destruct (skip_space_before_brace false pre1
                    (m ++ String "}"%char post))
          as [pre2 [nl' [-> [Hl Ho]]]].
        rewrite <- core_append.
        apply (f_equal String.length) in Epre as Hlp.
        rewrite length_append in Hlp. cbn [String.length] in Hlp.
        destruct (IH pre2 post nl') as [pre' [post' [-> [Ho' Hp']]]].
        { rewrite !length_append in *. cbn [String.length] in Hf. lia. }
        exists pre', post'. split; [reflexivity|]. split; [|exact Hp'].
        intros Hpre. apply Ho', Ho.
        now apply occurs_append_false in Hpre.
      * destruct (IH pre post (Ascii.eqb a Re.newline))
          as [pre' [post' [-> [Ho' Hp']]]].
        { change (String a (pre ++ core ++ post))
            with (String a pre ++ core ++ post) in Hf.
          rewrite !length_append in *. cbn [String.length] in Hf. lia. }
        exists (String a pre'), post'. split; [reflexivity|].
        split; [|exact Hp'].
        cbn [occurs]. intros H. apply orb_false_iff in H.
        destruct H as [-> H]. now apply Ho'.
Qed.

(** The substitution of the closing fences leaves the brace span in
    place. *)
Lemma sub_close_fence_core :
  forall fuel pre post,
    String.length (pre ++ core ++ post) <= fuel ->
    exists pre' post',
      Re.sub_close_fence fuel (pre ++ core ++ post) = pre' ++ core ++ post' /\
      (occurs "{"%char pre = false -> occurs "{"%char pre' = false) /\
      (occurs "}"%char post = false -> occurs "}"%char post' = false).
Proof.
  induction fuel as [|fuel IH]; intros pre post Hf.
  - rewrite !length_append in Hf. unfold core in Hf. cbn in Hf. lia.
  - destruct pre as [|a pre].
    + cbn [append]. rewrite core_append.
      change (String "{"%char (m ++ String "}"%char post))
        with (String "{"%char m ++ String "}"%char post).
      destruct (sub_close_fence_plain (String "{"%char m) post) with (fuel := S fuel)
        as [fuel' [-> _]].
      { cbn [occurs]. now rewrite Hm. }
      { cbn [append] in Hf. rewrite core_append in Hf. exact Hf. }
      exists EmptyString, (Re.sub_close_fence fuel' post).
      split; [cbn [append]; now rewrite core_append|].
      split; [auto|]. apply occurs_sub_close_fence.
    + cbn [append Re.sub_close_fence].
      destruct (Re.match_close_fence (String a (pre ++ core ++ post)))
        as [r|] eqn:E.
      * change (String a (pre ++ core ++ post))
          with (String a pre ++ core ++ post) in E.
        rewrite core_append in E.
        destruct (match_close_fence_before_brace _ _ _ E)
          as [pre1 [-> [Hl Ho]]].
        rewrite <- core_append.
        destruct (IH pre1 post) as [pre' [post' [-> [Ho' Hp']]]].
        { rewrite !length_append in *. cbn [String.length] in Hf, Hl. lia. }
        exists pre', post'. split; [reflexivity|]. split; [|exact Hp'].
        intros Hpre. now apply Ho', Ho.
      * destruct (IH pre post) as [pre' [post' [-> [Ho' Hp']]]].
        { change (String a (pre ++ core ++ post))
            with (String a pre ++ core ++ post) in Hf.
          rewrite !length_append in *. cbn [String.length] in Hf. lia. }
        exists (String a pre'), post'. split; [reflexivity|].
        split; [|exact Hp'].
        cbn [occurs]. intros H. apply orb_false_iff in H.
        destruct H as [-> H]. now apply Ho'.
Qed.

Lemma after_first_skips (c : ascii) (pre x : string) :
  occurs c pre = false -> Re.after_first c (pre ++ String c x) = Some x.
Proof.
  induction pre as [|a pre IH]; cbn [append Re.after_first occurs].
  - now rewrite Ascii.eqb_refl.
  - intros H. apply orb_false_iff in H. destruct H as [-> H]. now apply IH.
Qed.

Lemma upto_last_none (c : ascii) (s : string) :
  occurs c s = false -> Re.upto_last c s = None.
Proof.
  induction s as [|a s IH]; cbn [Re.upto_last occurs]; [reflexivity|].
  intros H. apply orb_false_iff in H. destruct H as [-> H]. now rewrite IH.
Qed.

Lemma upto_last_stops (c : ascii) (p post : string) :
  occurs c post = false ->
  Re.upto_last c (p ++ String c post) = Some (p ++ String c EmptyString).
Proof.
  intros H. induction p as [|a p IH]; cbn [append Re.upto_last].
  - now rewrite (upto_last_none c post H), Ascii.eqb_refl.
  - now rewrite IH.
Qed.

Lemma search_span_core (pre post : string) :
  occurs "{"%char pre = false -> occurs "}"%char post = false ->
  Re.search_span "{"%char "}"%char (pre ++ core ++ post) = Some core.
Proof.
  intros Hpre Hpost. unfold Re.search_span.
  rewrite core_append, (after_first_skips _ pre _ Hpre).
  now rewrite (upto_last_stops _ m post Hpost).
Qed.

Lemma clean_json_response_core (pre post : string) :
  occurs "{"%char pre = false -> occurs "}"%char post = false ->
  clean_json_response (pre ++ core ++ post) = core.
Proof.
  intros Hpre Hpost. unfold clean_json_response.
  assert (Hne : nonempty (pre ++ core ++ post) = true)
    by (destruct pre; reflexivity).
  rewrite Hne. cbn [negb].
  destruct (sub_line_prefix_core "```json" eq_refl eq_refl
              (String.length (pre ++ core ++ post)) pre post true (le_n _))
    as [pre1 [post1 [-> [Hpre1 Hpost1]]]].
  destruct (sub_line_prefix_core "```" eq_refl eq_refl
              (String.length (pre1 ++ core ++ post1)) pre1 post1 true (le_n _))
    as [pre2 [post2 [-> [Hpre2 Hpost2]]]].
  destruct (sub_close_fence_core
              (String.length (pre2 ++ core ++ post2)) pre2 post2 (le_n _))
    as [pre3 [post3 [-> [Hpre3 Hpost3]]]].
  rewrite search_span_core; auto.
Qed.

End Core.

(** X4.  Whatever surrounds it, a brace span without backtick is extracted
    as it is: for a text made of a part without opening brace, an opening
    brace, a part without backtick, a closing brace and a part without
    closing brace, [clean_json_response] returns the span from brace to
    brace unchanged (fences and prose around it are dropped), and
    [safe_json_parse] decides on that span alone. *)
Theorem clean_json_response_extracts_object (pre m post : string)
  (fallback_data : json)
  (Hm : occurs "`"%char m = false)
  (Hpre : occurs "{"%char pre = false)
  (Hpost : occurs "}"%char post = false) :
  let span := String "{"%char (m ++ String "}"%char EmptyString) in
  clean_json_response (pre ++ span ++ post) = span /\
  safe_json_parse (Some (pre ++ span ++ post)) fallback_data
  = safe_json_parse (Some span) fallback_data.
Proof.
  intros span.
  pose proof (clean_json_response_core m Hm pre post Hpre Hpost) as E.
  pose proof (clean_json_response_core m Hm EmptyString EmptyString
                eq_refl eq_refl) as E0.
  cbn [append] in E0. rewrite append_nil_r in E0.
  split; [exact E|].
  unfold safe_json_parse. fold span in E, E0. rewrite E, E0.
  assert (Hne : nonempty (pre ++ span ++ post) = true)
    by (destruct pre; reflexivity).
  rewrite Hne. reflexivity.
Qed.

Lemma clean_json_response_extracts_object_witness :
  clean_json_response
    (json_text ("Here is the profile:" ++ String Re.newline "```json"
                ++ String Re.newline "{'role_type': 'frontend'}"
                ++ String Re.newline "```" ++ String Re.newline "Done."))
  = json_text "{'role_type': 'frontend'}".
Proof.
  apply (clean_json_response_extracts_object
           (json_text ("Here is the profile:" ++ String Re.newline "```json"
                       ++ String Re.newline ""))
           (json_text "'role_type': 'frontend'")
           (json_text (String Re.newline "```" ++ String Re.newline "Done."))
           JNull); reflexivity.
Defined.

(* ------------------------------------------------------------------ *)
(** ** The shape of a normalised result *)

Lemma keep_append (p : ascii -> bool) (a b : string) :
  keep p (a ++ b) = keep p a ++ keep p b.
Proof.
  induction a as [|c a IH]; cbn [keep append]; [reflexivity|].
  destruct (p c); cbn [append]; now rewrite IH.
Qed.

Section Kept.
(** Characters that are neither whitespace nor a backtick nor a letter of
    "json". *)
Context (p : ascii -> bool)
        (Hspace : forall c, isspace c = true -> p c = false)
        (Hjson : keep p "```json" = EmptyString).

Lemma keep_fence : keep p "```" = EmptyString.
Proof.
  cbn [keep] in *. destruct (p "`"%char); [discriminate | reflexivity].
Qed.

Lemma keep_drop_marker (marker s : string) :
  keep p marker = EmptyString -> startswith marker s = true ->
  keep p (drop (String.length marker) s) = keep p s.
Proof.
  intros Hk H. apply startswith_iff in H. destruct H as [q ->].
  now rewrite drop_append_exact, keep_append, Hk.
Qed.

Lemma keep_skip_space (nl : bool) (s : string) :
  keep p (snd (Re.skip_space nl s)) = keep p s.
Proof.
  revert nl; induction s as [|c s IH]; intros nl; [reflexivity|].
  cbn [Re.skip_space keep]. destruct (isspace c) eqn:E; [|reflexivity].
  now rewrite (Hspace c E), IH.
Qed.

Lemma keep_lstrip (s : string) : keep p (lstrip_with isspace s) = keep p s.
Proof.
  induction s as [|c s IH]; [reflexivity|].
  cbn [lstrip_with keep]. destruct (isspace c) eqn:E; [|reflexivity].
  now rewrite (Hspace c E), IH.
Qed.

Lemma keep_sub_line_prefix (marker : string) (fuel : nat) (bol : bool)
  (s : string) :
  keep p marker = EmptyString ->
  keep p (Re.sub_line_prefix marker fuel bol s) = keep p s.
Proof.
  intros Hk. revert bol s; induction fuel as [|fuel IH]; intros bol s;
    [reflexivity|].
  destruct s as [|c t]; [reflexivity|]. cbn [Re.sub_line_prefix].
  destruct (bol && startswith marker (String c t)) eqn:E.
  - apply andb_true_iff in E. destruct E as [_ E].
    pose proof (keep_skip_space false
                  (drop (String.length marker) (String c t))) as Hs.
    destruct (Re.skip_space false (drop (String.length marker) (String c t)))
      as [nl r].
    cbn [snd] in Hs. now rewrite IH, Hs, keep_drop_marker.
  - cbn [keep]. now rewrite IH.
Qed.

Lemma keep_match_close_fence (s r : string) :
  Re.match_close_fence s = Some r -> keep p r = keep p s.
Proof.
  unfold Re.match_close_fence. intros H.
  destruct (startswith "```" (lstrip_with isspace s)) eqn:E; [|discriminate].
  pose proof (keep_drop_marker "```" _ keep_fence E) as Hd.
  rewrite keep_lstrip in Hd. cbn [String.length] in Hd.
  destruct (drop 3 (lstrip_with isspace s)) as [|c t];
    [injection H as <-; exact Hd|].
  destruct (Ascii.eqb c Re.newline); [|discriminate].
  injection H as <-. exact Hd.
Qed.

Lemma keep_sub_close_fence (fuel : nat) (s : string) :
  keep p (Re.sub_close_fence fuel s) = keep p s.
Proof.
  revert s; induction fuel as [|fuel IH]; intros s; [reflexivity|].
  destruct s as [|c t]; [reflexivity|]. cbn [Re.sub_close_fence].
  destruct (Re.match_close_fence (String c t)) as [r|] eqn:E.
  - rewrite IH. now apply keep_match_close_fence.
  - cbn [keep]. now rewrite IH.
Qed.

End Kept.

Lemma occurs_keep (p : ascii -> bool) (c : ascii) (s : string) :
  p c = true -> occurs c (keep p s) = occurs c s.
Proof.
  intros Hc. induction s as [|a s IH]; [reflexivity|].
  cbn [keep occurs]. destruct (p a) eqn:E; cbn [occurs]; rewrite IH;
    [reflexivity|].
  destruct (Ascii.eqb_spec a c) as [->|]; [congruence | reflexivity].
Qed.

Lemma has_span_keep (open close : ascii) (s : string) :
  has_span open close (keep (either open close) s) = has_span open close s.
Proof.
  unfold has_span. induction s as [|a s IH]; [reflexivity|].
  cbn [keep Re.after_first]. unfold either at 1.
  destruct (Ascii.eqb a open) eqn:E; cbn [orb Re.after_first].
  - rewrite E. apply occurs_keep. unfold either.
    now rewrite Ascii.eqb_refl, orb_true_r.
  - destruct (Ascii.eqb a close); cbn [Re.after_first]; [rewrite E|]; exact IH.
Qed.

Lemma upto_last_some (c : ascii) (s : string) :
  occurs c s = true -> exists m, Re.upto_last c s = Some m.
Proof.
  induction s as [|a s IH]; cbn [occurs Re.upto_last]; [discriminate|].
  intros H. destruct (Re.upto_last c s) as [m|]; [eauto|].
  destruct (Ascii.eqb a c); [eauto|]. cbn in H. destruct (IH H); discriminate.
Qed.

Lemma search_span_has_span (open close : ascii) (s : string) :
  match Re.search_span open close s with
  | Some m => has_span open close s = true /\ exists x, m = String open x
  | None => has_span open close s = false
  end.
Proof.
  unfold Re.search_span, has_span.
  destruct (Re.after_first open s) as [t|]; [|reflexivity].
  destruct (occurs close t) eqn:E.
  - destruct (upto_last_some close t E) as [m ->]. eauto.
  - now rewrite (upto_last_none _ _ E).
Qed.

Lemma either_not_space (open close : ascii) :
  isspace open = false -> isspace close = false ->
  forall c, isspace c = true -> either open close c = false.
Proof.
  intros Ho Hc c H. unfold either.
  destruct (Ascii.eqb_spec c open) as [->|]; [congruence|].
  destruct (Ascii.eqb_spec c close) as [->|]; [congruence|]. reflexivity.
Qed.

(** The text [clean_json_response] searches has a span exactly when the
    text it was given has one. *)
Lemma defenced_has_span (open close : ascii) (text : string) :
  isspace open = false -> isspace close = false ->
  keep (either open close) "```json" = EmptyString ->
  let t1 := Re.sub_line_prefix "```json" (String.length text) true text in
  let t2 := Re.sub_line_prefix "```" (String.length t1) true t1 in
  let t3 := Re.sub_close_fence (String.length t2) t2 in
  has_span open close t3 = has_span open close text.
Proof.
  intros Ho Hc Hk t1 t2 t3.
  pose proof (either_not_space open close Ho Hc) as Hsp.
  rewrite <- (has_span_keep open close t3), <- (has_span_keep open close text).
  f_equal. subst t3 t2 t1.
  rewrite (keep_sub_close_fence _ Hsp Hk).
  rewrite (keep_sub_line_prefix _ Hsp); [|apply (keep_fence _ Hk)].
  now rewrite (keep_sub_line_prefix _ Hsp).
Qed.

Lemma parse_object_is_dict (fuel : nat) (s : string)
  (acc : list (string * json)) (v : json) (r : string) :
  parse_object fuel s acc = Ok (v, r) -> is_dict v = true.
Proof.
  revert s acc; induction fuel as [|fuel IH]; intros s acc H; [discriminate|].
  cbn [parse_object] in H. unfold bind in H.
  destruct s as [|q t]; [discriminate|].
  destruct (Ascii.eqb q quote); [|discriminate].
  destruct (scanstring t) as [[k r0]|]; [|discriminate].
  destruct (skip_ws r0) as [|c r1]; [discriminate|].
  destruct (Ascii.eqb c ":"%char); [|discriminate].
  destruct (scan_once fuel (skip_ws r1)) as [[v0 r2]|]; [|discriminate].
  destruct (skip_ws r2) as [|c' r3]; [discriminate|].
  destruct (Ascii.eqb c' "}"%char); [injection H as <- _; reflexivity|].
  destruct (Ascii.eqb c' ","%char); [|discriminate].
  now apply IH in H.
Qed.

Lemma parse_array_is_list (fuel : nat) (s : string) (acc : list json)
  (v : json) (r : string) :
  parse_array fuel s acc = Ok (v, r) -> is_list v = true.
Proof.
  revert s acc; induction fuel as [|fuel IH]; intros s acc H; [discriminate|].
  cbn [parse_array] in H. unfold bind in H.
  destruct (scan_once fuel s) as [[v0 r0]|]; [|discriminate].
  destruct (skip_ws r0) as [|c r1]; [discriminate|].
  destruct (Ascii.eqb c "]"%char); [injection H as <- _; reflexivity|].
  destruct (Ascii.eqb c ","%char); [|discriminate].
  now apply IH in H.
Qed.

Lemma loads_brace (x : string) (v : json) :
  loads (String "{"%char x) = Ok v -> is_dict v = true.
Proof.
  unfold loads, bind. change (skip_ws (String "{"%char x))
    with (String "{"%char x).
  rewrite Nat.add_succ_r. cbn [scan_once].
  change (Ascii.eqb "{"%char quote) with false.
  change (Ascii.eqb "{"%char "{"%char) with true. cbv iota.
  destruct (skip_ws x) as [|c r] eqn:E; [discriminate|].
  destruct (Ascii.eqb c "}"%char).
  - destruct (skip_ws r); [|discriminate]. now intros [= <-].
  - destruct (parse_object _ (String c r) []) as [[v0 r0]|] eqn:Ep;
      [|discriminate].
    destruct (skip_ws r0); [|discriminate]. intros [= <-].
    now apply parse_object_is_dict in Ep.
Qed.

Lemma loads_bracket (x : string) (v : json) :
  loads (String "["%char x) = Ok v -> is_list v = true.
Proof.
  unfold loads, bind. change (skip_ws (String "["%char x))
    with (String "["%char x).
  rewrite Nat.add_succ_r. cbn [scan_once].
  change (Ascii.eqb "["%char quote) with false.
  change (Ascii.eqb "["%char "{"%char) with false.
  change (Ascii.eqb "["%char "["%char) with true. cbv iota.
  destruct (skip_ws x) as [|c r] eqn:E; [discriminate|].
  destruct (Ascii.eqb c "]"%char).
  - destruct (skip_ws r); [|discriminate]. now intros [= <-].
  - destruct (parse_array _ (String c r) []) as [[v0 r0]|] eqn:Ep;
      [|discriminate].
    destruct (skip_ws r0); [|discriminate]. intros [= <-].
    now apply parse_array_is_list in Ep.
Qed.

(** X5.  The braces decide first: when the text has an opening brace with
    a closing brace somewhere after it, [safe_json_parse] returns the
    fallback or a dict, never a list (so an array of objects is not returned
    as an array); when it has no such pair but an opening bracket with a
    closing bracket after it, the fallback or a list. *)
Theorem safe_json_parse_shape (text : string) (fallback_data : json) :
  exists v,
    safe_json_parse (Some text) fallback_data = Ok v /\
    (has_span "{" "}" text = true -> v = fallback_data \/ is_dict v = true) /\
    (has_span "{" "}" text = false -> has_span "[" "]" text = true ->
     v = fallback_data \/ is_list v = true).
Proof.
  destruct (safe_json_parse_cases (Some text) fallback_data)
    as [v [Hv [Hcase _]]].
  exists v. split; [exact Hv|].
  destruct Hcase as [-> | [t [[= <-] [Hloads _]]]]; [auto|].
  unfold clean_json_response in Hloads.
  destruct (nonempty text); cbn [negb] in Hloads; [|discriminate].
  pose proof (defenced_has_span "{" "}" text eq_refl eq_refl eq_refl)
    as Hbrace.
  pose proof (defenced_has_span "[" "]" text eq_refl eq_refl eq_refl)
    as Hbracket.
  cbv zeta in Hbrace, Hbracket.
  set (t3 := Re.sub_close_fence _ _) in *.
  pose proof (search_span_has_span "{" "}" t3) as Sbrace.
  pose proof (search_span_has_span "[" "]" t3) as Sbracket.
  destruct (Re.search_span "{" "}" t3) as [m|].
  - destruct Sbrace as [S1 [x ->]]. split.
    + intros _. right. now apply loads_brace in Hloads.
    + intros H. congruence.
  - split; [intros H; congruence|]. intros _ H.
    destruct (Re.search_span "[" "]" t3) as [m|].
    + destruct Sbracket as [_ [x ->]]. right.
      now apply loads_bracket in Hloads.
    + congruence.
Qed.

Lemma safe_json_parse_nonempty (text : option string) (fallback_data : json) :
  truthy fallback_data = true ->
  exists v, safe_json_parse text fallback_data = Ok v /\ truthy v = true.
Proof.
  intros Hfallback.
  destruct (safe_json_parse_cases text fallback_data) as [v [Hv [Hcase _]]].
  exists v. split; [exact Hv|].
  destruct Hcase as [-> | [t [_ [_ H]]]]; assumption.
Qed.

(** X6.  [safe_json_parse] never returns a falsy value when the fallback
    is truthy: the caller always gets a non-empty result. *)
Theorem safe_json_parse_truthy (text : option string) (fallback_data : json)
  (Hfallback : truthy fallback_data = true) :
  exists v, safe_json_parse text fallback_data = Ok v /\ truthy v = true.
Proof. exact (safe_json_parse_nonempty text fallback_data Hfallback). Qed.

Lemma safe_json_parse_truthy_witness :
  exists v, safe_json_parse (Some "[]") (str_list ["a"]) = Ok v /\
            truthy v = true.
Proof. apply (safe_json_parse_truthy (Some "[]") (str_list ["a"]) eq_refl). Defined.

(* ------------------------------------------------------------------ *)
(** ** Job-description analyser *)

(** X7.  [analyze_job_description_claude] never raises and always returns
    a dict that has the key [role_type]: the fallback profile when the
    gateway is unavailable, and otherwise either the fallback profile or
    the dict parsed from the cleaned answer. *)
Theorem analyze_job_description_profile (c : client)
  (job_description : string) :
  exists d,
    analyze_job_description_claude c job_description = Ok (JDict d) /\
    key_in "role_type" d = true /\
    (unavailable c = true -> JDict d = get_fallback_jd_analysis) /\
    (JDict d <> get_fallback_jd_analysis ->
     exists text, c = Some (Ok text) /\
                  loads (clean_json_response (strip text)) = Ok (JDict d)).
Proof.
  assert (Hfb : exists d, get_fallback_jd_analysis = JDict d /\
                          key_in "role_type" d = true)
    by (eexists; split; reflexivity).
  destruct Hfb as [dfb [Efb Hkey]].
  assert (Hdefault :
            forall c' : client,
            exists d, Ok get_fallback_jd_analysis = Ok (JDict d) /\
                      key_in "role_type" d = true /\
                      (unavailable c' = true ->
                       JDict d = get_fallback_jd_analysis) /\
                      (JDict d <> get_fallback_jd_analysis ->
                       exists text, c' = Some (Ok text) /\
                                    loads (clean_json_response (strip text))
                                    = Ok (JDict d))).
  { intros c'. exists dfb. rewrite Efb.
    split; [reflexivity|]. split; [exact Hkey|]. split; [reflexivity|].
    intros H. exfalso. now apply H. }
  unfold analyze_job_description_claude.
  unfold try_except, bind.
  destruct c as [[text|e]|]; try apply Hdefault.
  destruct (safe_json_parse_cases (Some (strip text))
              get_fallback_jd_analysis) as [v [Hv [Hcase _]]].
  rewrite Hv.
  destruct v as [| | | | | | | |d]; try apply Hdefault.
  destruct (key_in "role_type" d) eqn:Hd; unfold negb; cbv iota;
    [|apply Hdefault].
  exists d. split; [reflexivity|]. split; [exact Hd|].
  split; [discriminate|].
  intros Hne. destruct Hcase as [E | [t [[= <-] [Hl _]]]]; [congruence|].
  exists text. auto.
Qed.

(* ------------------------------------------------------------------ *)
(** ** Content generators, further properties *)

(** X8.  [get_varied_metrics] never raises, makes exactly three draws, and
    returns a performance figure between 25 and 70, a reduction figure
    between 15 and 60 and one of the five uptime phrases. *)
Theorem get_varied_metrics_ranges (g : rng) :
  exists m,
    get_varied_metrics g = (Ok m, {| draws := draws g; pos := 3 + pos g |}) /\
    25 <= performance m <= 70 /\
    15 <= reduction m <= 60 /\
    In (uptime m) uptime_metrics.
Proof.
  unfold get_varied_metrics, bindM.
  destruct (random_choice_in 0 performance_improvements g) as [p [-> Hp]];
    [discriminate|].
  destruct (random_choice_in EmptyString uptime_metrics
              {| draws := draws g; pos := S (pos g) |}) as [u [-> Hu]];
    [discriminate|].
  destruct (random_choice_in 0 reduction_metrics
              {| draws := draws g; pos := S (S (pos g)) |}) as [r [Hr1 Hr]];
    [discriminate|].
  cbn [draws pos] in *. rewrite Hr1. unfold ret.
  eexists. split; [reflexivity|]. cbn [performance uptime reduction].
  split; [|split; [|exact Hu]].
  - cbn in Hp. repeat destruct Hp as [<- | Hp]; first [lia | contradiction].
  - cbn in Hr. repeat destruct Hr as [<- | Hr]; first [lia | contradiction].
Qed.

(** X9.  With the gateway unavailable, [generate_experience_bullets_claude]
    returns exactly four strings for every record, flagged as healthcare or
    not. *)
Theorem unavailable_gateway_four_bullets (c : client)
  (job_description : string) (jd : jd_analysis) (exp : Experience.t)
  (g : rng) (Hc : unavailable c = true) :
  exists bullets,
    run (generate_experience_bullets_claude c job_description jd exp) g
    = Ok (str_list bullets) /\
    List.length bullets = 4.
Proof.
  destruct (get_varied_metrics_total g) as [m [g1 [Hm _]]].
  destruct c as [[text|e]|]; [discriminate | |].
  - destruct (get_fallback_bullets_total (Experience.company exp) g1)
      as [fb [g2 [Hfb [Hlen _]]]].
    exists fb. split; [|exact Hlen].
    unfold run, generate_experience_bullets_claude, bindM, try_exceptM,
      lift, ret.
    rewrite Hm, Hfb. reflexivity.
  - destruct (get_fallback_bullets_total (Experience.company exp) g)
      as [fb [g2 [Hfb [Hlen _]]]].
    exists fb. split; [|exact Hlen].
    unfold run, generate_experience_bullets_claude, bindM, ret.
    rewrite Hfb. reflexivity.
Qed.

Lemma unavailable_gateway_four_bullets_witness :
  exists bullets,
    run (generate_experience_bullets_claude (Some (Raise GatewayError)) ""
           backend_profile bicyclehealth_record) (constant_rng 0)
    = Ok (str_list bullets) /\
    List.length bullets = 4.
Proof.
  apply (unavailable_gateway_four_bullets (Some (Raise GatewayError)) ""
           backend_profile bicyclehealth_record (constant_rng 0) eq_refl).
Defined.

(** X10.  For a record flagged as healthcare and a gateway that answers,
    [generate_experience_bullets_claude] never raises and returns the
    normalised answer as it is: the value [safe_json_parse] gives for the
    stripped answer with the four fallback bullets as fallback; that value
    is never empty. *)
Theorem flagged_record_returns_normalised (text job_description : string)
  (jd : jd_analysis) (exp : Experience.t) (g : rng)
  (Hexp : flagged exp) :
  exists g1 fallback v,
    run (get_fallback_bullets (Experience.company exp)) g1 = Ok fallback /\
    List.length fallback = 4 /\
    safe_json_parse (Some (strip text)) (str_list fallback) = Ok v /\
    truthy v = true /\
    run (generate_experience_bullets_claude (Some (Ok text)) job_description
           jd exp) g
    = Ok v.
Proof.
  destruct (get_varied_metrics_total g) as [m [g1 [Hm _]]].
  destruct (get_fallback_bullets_total (Experience.company exp) g1)
    as [fb [g2 [Hfb [Hlen _]]]].
  assert (Htruthy : truthy (str_list fb) = true)
    by (destruct fb; [discriminate | reflexivity]).
  destruct (safe_json_parse_nonempty (Some (strip text)) (str_list fb) Htruthy)
    as [v [Hv Hvt]].
  exists g1, fb, v. unfold run at 1. rewrite Hfb.
  repeat split; auto.
  unfold run, generate_experience_bullets_claude, bindM, try_exceptM,
    lift, ret.
  rewrite Hm, Hfb, Hv.
  assert (E : negb (is_healthcare_experience exp)
              && negb (has_healthcare_in_description exp) = false).
  { destruct Hexp as [-> | ->]; [reflexivity | apply andb_false_r]. }
  rewrite E. reflexivity.
Qed.

Lemma flagged_record_returns_normalised_witness :
  exists g1 fallback v,
    run (get_fallback_bullets (Experience.company bicyclehealth_record)) g1
    = Ok fallback /\
    List.length fallback = 4 /\
    safe_json_parse (Some (strip one_healthcare_bullet)) (str_list fallback)
    = Ok v /\
    truthy v = true /\
    run (generate_experience_bullets_claude (Some (Ok one_healthcare_bullet))
           "" backend_profile bicyclehealth_record) (constant_rng 0)
    = Ok v.
Proof.
  apply (flagged_record_returns_normalised one_healthcare_bullet ""
           backend_profile bicyclehealth_record (constant_rng 0)).
  left. reflexivity.
Defined.

Lemma get_fallback_tech_stack_shape (role : string) :
  let s := get_fallback_tech_stack role in
  nonempty s = true /\ String.length s < 120 /\
  (contains "|" s = true \/ s = "Full-Stack Development").
Proof.
  unfold get_fallback_tech_stack. cbn [dict_get].
  repeat match goal with
    | |- context [String.eqb role ?k] => destruct (String.eqb role k)
    end;
    (split; [reflexivity|]; split; [cbn; lia|]);
    first [left; reflexivity | right; reflexivity].
Qed.

(** X11.  [extract_tech_stack_claude] never raises and returns a non-empty
    string of fewer than 120 characters that contains a pipe character,
    unless it is the default "Full-Stack Development" of an unknown role
    category. *)
Theorem extract_tech_stack_shape (c : client) (description project_name : string)
  (jd : jd_analysis) :
  exists s,
    extract_tech_stack_claude c description project_name jd = Ok s /\
    nonempty s = true /\ String.length s < 120 /\
    (contains "|" s = true \/ s = "Full-Stack Development").
Proof.
  pose proof (get_fallback_tech_stack_shape (role_type jd)) as Hfb.
  cbv zeta in Hfb.
  unfold extract_tech_stack_claude, try_except, bind.
  destruct c as [[text|e]|]; try (eexists; split; [reflexivity | exact Hfb]).
  destruct (contains "|" (strip text)) eqn:Hpipe; cbn [andb];
    [|eexists; split; [reflexivity | exact Hfb]].
  destruct (String.length (strip text) <? 120) eqn:Hlen;
    [|eexists; split; [reflexivity | exact Hfb]].
  exists (strip text). split; [reflexivity|].
  apply Nat.ltb_lt in Hlen. repeat split; auto.
  destruct (strip text); [discriminate | reflexivity].
Qed.

Lemma get_fallback_summary_length (role : string) :
  30 < String.length (get_fallback_summary role).
Proof.
  unfold get_fallback_summary.
  destruct (contains "healthcare" (lower role)); [vm_compute; lia|].
  cbn [dict_get].
  repeat match goal with
    | |- context [String.eqb role ?k] => destruct (String.eqb role k)
    end; try (vm_compute; lia).
  rewrite !length_append. cbn [String.length]. lia.
Qed.

(** X12.  [generate_professional_summary_claude] never raises and always
    returns a summary of more than 30 characters: the answer of the
    gateway, stripped of surrounding whitespace, double quotes and
    apostrophes, when that is longer than 30 characters, and the fallback
    summary of the role category for every other answer and when the
    gateway is unavailable. *)
Theorem professional_summary_shape (c : client) (job_description : string)
  (jd : jd_analysis) :
  exists s,
    generate_professional_summary_claude c job_description jd = Ok s /\
    30 < String.length s /\
    (unavailable c = true -> s = get_fallback_summary (role_type jd)) /\
    (forall text,
        c = Some (Ok text) ->
        let summary := strip_char "'"%char (strip_char quote (strip text)) in
        s = if 30 <? String.length summary then summary
            else get_fallback_summary (role_type jd)).
Proof.
  pose proof (get_fallback_summary_length (role_type jd)) as Hfb.
  unfold generate_professional_summary_claude, try_except, bind.
  destruct c as [[text|e]|];
    try (eexists; split; [reflexivity|]; split; [exact Hfb|];
         split; [reflexivity | discriminate]).
  set (summary := strip_char "'"%char (strip_char quote (strip text))).
  assert (Hne : (30 <? String.length summary) = true ->
                nonempty summary = true)
    by (destruct summary; [discriminate | reflexivity]).
  destruct (30 <? String.length summary) eqn:Hlen.
  - rewrite (Hne eq_refl). cbn [andb]. apply Nat.ltb_lt in Hlen.
    exists summary. split; [reflexivity|]. split; [exact Hlen|].
    split; [discriminate|]. intros t Ht. injection Ht as <-.
    cbv zeta. fold summary. apply Nat.ltb_lt in Hlen. now rewrite Hlen.
  - rewrite andb_false_r.
    eexists. split; [reflexivity|]. split; [exact Hfb|].
    split; [discriminate|]. intros t Ht. injection Ht as <-.
    cbv zeta. fold summary. now rewrite Hlen.
Qed.

Lemma get_fallback_skills_dict (role : string) :
  exists kv d, get_fallback_skills role = JDict (kv :: d).
Proof.
  unfold get_fallback_skills. cbn [dict_get].
  repeat match goal with
    | |- context [String.eqb role ?k] => destruct (String.eqb role k)
    end; unfold skills; eauto.
Qed.

(** What [safe_json_parse] returns for a text, in one expression. *)
Lemma safe_json_parse_eq (t : string) (fallback_data : json) :
  safe_json_parse (Some t) fallback_data
  = Ok match loads (clean_json_response t) with
       | Ok parsed => if truthy parsed then parsed else fallback_data
       | Raise _ => fallback_data
       end.
Proof.
  unfold safe_json_parse, try_except, bind.
  destruct t as [|a t]; [reflexivity|]. cbn [nonempty negb].
  destruct (clean_json_response (String a t)) as [|b u]; [reflexivity|].
  cbn [nonempty negb].
  destruct (loads (String b u)) as [parsed|e]; [reflexivity|].
  now destruct e.
Qed.

(** X13.  [generate_skills_section_claude] never raises and always returns
    a non-empty dict: the dict parsed from the answer when the cleaned
    answer parses to a non-empty dict, and the fallback taxonomy of the
    role category for every other answer and when the gateway is
    unavailable. *)
Theorem skills_section_shape (c : client) (job_description : string)
  (jd : jd_analysis) (all_experiences : list Experience.t)
  (all_projects : list Project.t) :
  exists kv d,
    generate_skills_section_claude c job_description jd all_experiences
      all_projects
    = Ok (JDict (kv :: d)) /\
    (unavailable c = true ->
     JDict (kv :: d) = get_fallback_skills (role_type jd)) /\
    (forall text,
        c = Some (Ok text) ->
        JDict (kv :: d)
        = match loads (clean_json_response (strip text)) with
          | Ok (JDict (kv' :: d')) => JDict (kv' :: d')
          | _ => get_fallback_skills (role_type jd)
          end).
Proof.
  destruct (get_fallback_skills_dict (role_type jd)) as [kv0 [d0 Efb]].
  unfold generate_skills_section_claude, try_except, bind.
  destruct c as [[text|e]|];
    try (exists kv0, d0; rewrite Efb; split; [reflexivity|];
         split; [reflexivity | discriminate]).
  rewrite safe_json_parse_eq.
  destruct (loads (clean_json_response (strip text))) as [parsed|e] eqn:Hloads.
  - destruct (truthy parsed) eqn:Htruthy;
      destruct parsed as [| | | | | | | |[|kv d]]; try discriminate Htruthy;
      rewrite ?Efb; cbn [is_dict];
      (do 2 eexists; split; [reflexivity|]; split; [discriminate|];
       intros t Ht; injection Ht as <-; rewrite Hloads; reflexivity).
  - rewrite Efb. cbn [is_dict]. exists kv0, d0. split; [reflexivity|].
    split; [discriminate|]. intros t Ht. injection Ht as <-.
    rewrite Hloads. reflexivity.
Qed.

(* ------------------------------------------------------------------ *)
(** ** The filter as a function *)

Lemma filter_bullets_strings (bs acc : list string) :
  filter_bullets (map JStr bs) acc
  = Ok (acc ++ filter (fun b => negb (mentions_healthcare b)) bs)%list.
Proof.
  revert acc; induction bs as [|b bs IH]; intros acc;
    cbn [map filter_bullets filter]; [now rewrite app_nil_r|].
  destruct (mentions_healthcare b); cbn [negb]; rewrite IH;
    [reflexivity | now rewrite <- app_assoc].
Qed.

Lemma pad_bullets_repeat (company : string) (l : list string) :
  pad_bullets 3 company l
  = (l ++ repeat (filler_bullet company) (3 - List.length l))%list.
Proof.
  destruct l as [|a [|b [|c l]]]; cbn; try reflexivity.
  now rewrite app_nil_r.
Qed.

(** X14.  For a record that is not flagged and an answer that normalises to
    a list of strings, the bullets returned are the first four of: the
    bullets of the answer without healthcare keyword, in their order and
    unchanged, followed by as many filler bullets as are missing to make
    three. *)
Theorem truthfulness_filter_keeps_order (text job_description : string)
  (jd : jd_analysis) (exp : Experience.t) (g : rng)
  (Hexp : unflagged exp) :
  exists g1 fallback,
    run (get_fallback_bullets (Experience.company exp)) g1 = Ok fallback /\
    forall bullets,
      safe_json_parse (Some (strip text)) (str_list fallback)
      = Ok (str_list bullets) ->
      let kept := filter (fun b => negb (mentions_healthcare b)) bullets in
      run (generate_experience_bullets_claude (Some (Ok text))
             job_description jd exp) g
      = Ok (str_list
              (firstn 4
                 (kept ++ repeat (filler_bullet (Experience.company exp))
                            (3 - List.length kept)))).
Proof.
  destruct Hexp as [Hcompany Hdesc].
  destruct (get_varied_metrics_total g) as [m [g1 [Hm _]]].
  destruct (get_fallback_bullets_total (Experience.company exp) g1)
    as [fb [g2 [Hfb _]]].
  exists g1, fb. unfold run at 1. rewrite Hfb. split; [reflexivity|].
  intros bullets Hparse.
  unfold run, generate_experience_bullets_claude, bindM, try_exceptM,
    lift, ret.
  rewrite Hm, Hfb, Hparse, Hcompany, Hdesc. cbn [negb andb].
  unfold str_list at 1. cbn [iterate].
  rewrite filter_bullets_strings. cbn [app fst].
  now rewrite pad_bullets_repeat.
Qed.

Lemma truthfulness_filter_keeps_order_witness :
  exists g1 fallback,
    run (get_fallback_bullets (Experience.company acme_record)) g1
    = Ok fallback /\
    forall bullets,
      safe_json_parse (Some (strip five_bullets)) (str_list fallback)
      = Ok (str_list bullets) ->
      let kept := filter (fun b => negb (mentions_healthcare b)) bullets in
      run (generate_experience_bullets_claude (Some (Ok five_bullets))
             "" backend_profile acme_record) (constant_rng 0)
      = Ok (str_list
              (firstn 4
                 (kept ++ repeat (filler_bullet
                                    (Experience.company acme_record))
                            (3 - List.length kept)))).
Proof.
  apply (truthfulness_filter_keeps_order five_bullets "" backend_profile
           acme_record (constant_rng 0)).
  split; reflexivity.
Defined.

(* ------------------------------------------------------------------ *)
(** ** Relevance selector, further properties *)

Lemma add_matches_bound (bonus : nat) (keys : list string) (t : string)
  (s : nat) :
  s <= add_matches bonus keys t s <= s + bonus * List.length keys.
Proof.
  unfold add_matches. revert s.
  induction keys as [|k keys IH]; intros s; cbn [fold_left List.length];
    [lia|].
  destruct (contains k t); [specialize (IH (s + bonus)) | specialize (IH s)];
    nia.
Qed.

(** X15.  A score is bounded by the profile: an experience scores at most
    2 per key technology, 1 per primary skill, 3 for recency and 3 for the
    role category; a project at most 2 per key technology, 1 per primary
    skill, 3 for the industry and 4 for the role category. *)
Theorem score_upper_bound (jd : jd_analysis) :
  (forall exp,
      experience_score jd exp
      <= 2 * List.length (key_technologies jd)
         + List.length (primary_skills jd) + 6) /\
  (forall proj,
      project_score jd proj
      <= 2 * List.length (key_technologies jd)
         + List.length (primary_skills jd) + 7).
Proof.
  split; intros r.
  - unfold experience_score.
    pose proof (add_matches_bound 2 (map lower (key_technologies jd))
                  (lower (Experience.description r)) 0) as H2.
    pose proof (add_matches_bound 1 (map lower (primary_skills jd))
                  (lower (Experience.description r))
                  (add_matches 2 (map lower (key_technologies jd))
                     (lower (Experience.description r)) 0)) as H1.
    rewrite length_map in H1, H2. revert H1.
    generalize (add_matches 1 (map lower (primary_skills jd))
                  (lower (Experience.description r))
                  (add_matches 2 (map lower (key_technologies jd))
                     (lower (Experience.description r)) 0)).
    intros s H1.
    repeat match goal with
      | |- context [if ?c then _ else _] => destruct c
      end; lia.
  - unfold project_score.
    pose proof (add_matches_bound 2 (map lower (key_technologies jd))
                  (lower (Project.description r)) 0) as H2.
    pose proof (add_matches_bound 1 (map lower (primary_skills jd))
                  (lower (Project.description r))
                  (add_matches 2 (map lower (key_technologies jd))
                     (lower (Project.description r)) 0)) as H1.
    rewrite length_map in H1, H2. revert H1.
    generalize (add_matches 1 (map lower (primary_skills jd))
                  (lower (Project.description r))
                  (add_matches 2 (map lower (key_technologies jd))
                     (lower (Project.description r)) 0)).
    intros s H1.
    match goal with
    | |- ?L <= _ =>
        match L with context [?x + 4] =>
          assert (Hind : s <= x <= s + 3)
            by (repeat match goal with
                  | |- context [if ?c then _ else _] => destruct c
                  end; lia);
          revert Hind; generalize x
        end
    end.
    intros x Hx.
    repeat match goal with
      | |- context [if ?c then _ else _] => destruct c
      end; lia.
Qed.

Lemma sort_reverse_sorted {A} (key : A -> nat) (l : list A) :
  descending key l -> sort_reverse key l = l.
Proof.
  unfold descending. induction l as [|x l IH]; intros H; [reflexivity|].
  apply StronglySorted_inv in H. destruct H as [Hl Hx].
  cbn [sort_reverse]. rewrite (IH Hl).
  destruct l as [|y l']; [reflexivity|]. cbn [insert_desc].
  apply Forall_inv in Hx.
  destruct (Nat.ltb_spec (key x) (key y)); [lia | reflexivity].
Qed.

Section TopKAgain.
Context {A : Type} (key : A -> nat).

Lemma top_idempotent (k : nat) (l : list A) :
  firstn k (sort_reverse key (firstn k (sort_reverse key l)))
  = firstn k (sort_reverse key l).
Proof.
  rewrite sort_reverse_sorted
    by apply descending_firstn, sort_reverse_descending.
  rewrite firstn_firstn. now rewrite Nat.min_id.
Qed.

Lemma top_prefix (k n : nat) (l : list A) :
  firstn k (sort_reverse key l)
  = firstn k (firstn (k + n) (sort_reverse key l)).
Proof. rewrite firstn_firstn. f_equal. lia. Qed.

Lemma descending_unique (l1 l2 : list A) :
  descending key l1 -> descending key l2 -> Permutation l1 l2 ->
  NoDup (map key l1) -> l1 = l2.
Proof.
  unfold descending. revert l2.
  induction l1 as [|x l1 IH]; intros l2 H1 H2 Hp Hnd.
  - apply Permutation_nil in Hp. now subst.
  - destruct l2 as [|y l2];
      [apply Permutation_sym, Permutation_nil in Hp; discriminate|].
    apply StronglySorted_inv in H1. destruct H1 as [H1 Hx].
    apply StronglySorted_inv in H2. destruct H2 as [H2 Hy].
    rewrite Forall_forall in Hx, Hy.
    cbn [map] in Hnd. apply NoDup_cons_iff in Hnd. destruct Hnd as [Hnx Hnd].
    assert (Exy : x = y).
    { assert (Hyin : In y (x :: l1))
        by (apply (Permutation_in _ (Permutation_sym Hp)); now left).
      assert (Hxin : In x (y :: l2))
        by (apply (Permutation_in _ Hp); now left).
      destruct Hyin as [E | Hyin]; [exact E|].
      destruct Hxin as [E | Hxin]; [now symmetry|].
      exfalso. apply Hnx. apply in_map_iff. exists y. split; [|exact Hyin].
      specialize (Hx y Hyin). specialize (Hy x Hxin). lia. }
    subst y. f_equal. apply IH; auto.
    now apply Permutation_cons_inv in Hp.
Qed.

Lemma top_order_independent (k : nat) (l l' : list A) :
  Permutation l l' -> NoDup (map key l) ->
  firstn k (sort_reverse key l) = firstn k (sort_reverse key l').
Proof.
  intros Hp Hnd. f_equal. apply descending_unique.
  - apply sort_reverse_descending.
  - apply sort_reverse_descending.
  - rewrite (sort_reverse_perm key l), (sort_reverse_perm key l'). exact Hp.
  - apply (Permutation_NoDup (l := map key l)); [|exact Hnd].
    apply Permutation_map, Permutation_sym, sort_reverse_perm.
Qed.

End TopKAgain.

(** X16.  Selecting again from a selection changes nothing, and a
    selection with a smaller limit is the beginning of the selection with
    a larger one, for experiences and for projects. *)
Theorem selection_idempotent_and_nested (jd : jd_analysis) (k n : nat) :
  (forall exps,
      select_relevant_experiences (select_relevant_experiences exps jd k) jd k
      = select_relevant_experiences exps jd k /\
      select_relevant_experiences exps jd k
      = firstn k (select_relevant_experiences exps jd (k + n))) /\
  (forall projs,
      select_relevant_projects (select_relevant_projects projs jd k) jd k
      = select_relevant_projects projs jd k /\
      select_relevant_projects projs jd k
      = firstn k (select_relevant_projects projs jd (k + n))).
Proof.
  split; intros l; split.
  - rewrite !select_relevant_experiences_eq. apply top_idempotent.
  - rewrite !select_relevant_experiences_eq. apply top_prefix.
  - rewrite !select_relevant_projects_eq. apply top_idempotent.
  - rewrite !select_relevant_projects_eq. apply top_prefix.
Qed.

(** X17.  When no two records have the same score, the selection does not
    depend on the order in which the records are given. *)
Theorem selection_order_independent (jd : jd_analysis) (k : nat)
  (exps exps' : list Experience.t)
  (Hperm : Permutation exps exps')
  (Hdistinct : NoDup (map (experience_score jd) exps)) :
  select_relevant_experiences exps jd k
  = select_relevant_experiences exps' jd k.
Proof.
  rewrite !select_relevant_experiences_eq.
  now apply top_order_independent.
Qed.

Lemma selection_order_independent_witness :
  select_relevant_experiences [postgresql_record; recent_api_record]
    backend_profile 4
  = select_relevant_experiences [recent_api_record; postgresql_record]
      backend_profile 4.
Proof.
  apply (selection_order_independent backend_profile 4
           [postgresql_record; recent_api_record]
           [recent_api_record; postgresql_record]).
  - apply perm_swap.
  - vm_compute. repeat constructor; cbn; intuition discriminate.
Defined.

Lemma add_matches_cons (bonus : nat) (k : string) (keys : list string)
  (t : string) (s : nat) :
  add_matches bonus (k :: keys) t s
  = add_matches bonus keys t s + (if contains k t then bonus else 0).
Proof.
  pose proof (add_matches_shift bonus keys t bonus s) as H.
  unfold add_matches in *. cbn [fold_left].
  destruct (contains k t); [|now rewrite Nat.add_0_r].
  rewrite (Nat.add_comm s bonus), H. lia.
Qed.

Lemma add_matches_shift_r (bonus : nat) (keys : list string) (t : string)
  (s n : nat) :
  add_matches bonus keys t (s + n) = add_matches bonus keys t s + n.
Proof. rewrite (Nat.add_comm s n), add_matches_shift. lia. Qed.

(** X18.  Every key technology of the profile counts on its own: putting
    one more token in front of the list adds exactly 2 to the score of a
    record whose description contains the token (letter case ignored) and
    nothing otherwise; so a token listed twice counts twice, and the empty
    token counts for every record. *)
Theorem key_technology_counts_alone (jd : jd_analysis) (token : string)
  (kt : list string) :
  (forall exp,
      experience_score (set_key_technologies jd (token :: kt)) exp
      = experience_score (set_key_technologies jd kt) exp
        + (if contains (lower token) (lower (Experience.description exp))
           then 2 else 0)) /\
  (forall proj,
      project_score (set_key_technologies jd (token :: kt)) proj
      = project_score (set_key_technologies jd kt) proj
        + (if contains (lower token) (lower (Project.description proj))
           then 2 else 0)) /\
  (forall exp,
      experience_score (set_key_technologies jd (EmptyString :: kt)) exp
      = experience_score (set_key_technologies jd kt) exp + 2).
Proof.
  assert (Hexp : forall t exp,
             experience_score (set_key_technologies jd (t :: kt)) exp
             = experience_score (set_key_technologies jd kt) exp
               + (if contains (lower t) (lower (Experience.description exp))
                  then 2 else 0)).
  { intros t exp. unfold experience_score.
    cbn [set_key_technologies role_type primary_skills key_technologies map].
    rewrite add_matches_cons, add_matches_shift_r.
    generalize (add_matches 1 (map lower (primary_skills jd))
                  (lower (Experience.description exp))
                  (add_matches 2 (map lower kt)
                     (lower (Experience.description exp)) 0)).
    intros s.
    destruct (contains (lower t) (lower (Experience.description exp)));
      score_cases. }
  split; [intros exp; apply Hexp|]. split.
  - intros proj. unfold project_score.
    cbn [set_key_technologies role_type primary_skills key_technologies
           industry_context map].
    rewrite add_matches_cons, add_matches_shift_r.
    generalize (add_matches 1 (map lower (primary_skills jd))
                  (lower (Project.description proj))
                  (add_matches 2 (map lower kt)
                     (lower (Project.description proj)) 0)).
    intros s.
    destruct (contains (lower token) (lower (Project.description proj)));
      [|rewrite !Nat.add_0_r; reflexivity].
    match goal with
    | |- ?L = ?R + 2 =>
        match L with context [?x + 4] =>
          match R with context [?y + 4] =>
            assert (Hind : x = y + 2) by score_cases;
            rewrite Hind; generalize y
          end
        end
    end.
    intros y. score_cases.
  - intros exp. rewrite Hexp. cbn [lower].
    now destruct (lower (Experience.description exp)).
Qed.

Lemma lower_char_idempotent (c : ascii) :
  lower_char (lower_char c) = lower_char c.
Proof.
  destruct c as [[|] [|] [|] [|] [|] [|] [|] [|]]; vm_compute; reflexivity.
Qed.

Lemma lower_idempotent (s : string) : lower (lower s) = lower s.
Proof.
  induction s as [|c s IH]; cbn [lower]; [reflexivity|].
  now rewrite lower_char_idempotent, IH.
Qed.

Lemma map_lower_idempotent (l : list string) :
  map lower (map lower l) = map lower l.
Proof.
  rewrite map_map. apply map_ext. intros s. apply lower_idempotent.
Qed.

(** X19.  Scores ignore letter case in the description and in the tokens
    of the profile: lowering the description, the key technologies and the
    primary skills leaves the score of an experience and of a project
    unchanged. *)
Theorem score_ignores_letter_case (jd : jd_analysis) :
  let jd' :=
    set_key_technologies
      (set_primary_skills jd (map lower (primary_skills jd)))
      (map lower (key_technologies jd)) in
  (forall exp,
      experience_score jd'
        (set_description exp (lower (Experience.description exp)))
      = experience_score jd exp) /\
  (forall proj,
      project_score jd'
        (set_project_description proj (lower (Project.description proj)))
      = project_score jd proj).
Proof.
  split; intros r.
  - unfold experience_score.
    cbn [set_key_technologies set_primary_skills set_description role_type
           primary_skills key_technologies Experience.description
           Experience.duration].
    now rewrite !map_lower_idempotent, lower_idempotent.
  - unfold project_score.
    cbn [set_key_technologies set_primary_skills set_project_description
           role_type primary_skills key_technologies industry_context
           Project.description Project.name].
    now rewrite !map_lower_idempotent, lower_idempotent.
Qed.

(** X20.  The score of an experience depends on its description and its
    duration only: two records with the same description and duration
    score the same, whatever their employer, role and work mode. *)
Theorem experience_score_fields (jd : jd_analysis) (exp exp' : Experience.t)
  (Hdescription : Experience.description exp = Experience.description exp')
  (Hduration : Experience.duration exp = Experience.duration exp') :
  experience_score jd exp = experience_score jd exp'.
Proof. unfold experience_score. now rewrite Hdescription, Hduration. Qed.

Lemma experience_score_fields_witness :
  experience_score backend_profile acme_record
  = experience_score backend_profile healthy_snacks_record.
Proof.
  apply (experience_score_fields backend_profile acme_record
           healthy_snacks_record eq_refl eq_refl).
Defined.

(* ------------------------------------------------------------------ *)
(** ** Loading the records *)

(** X21.  [load_experience_data] never raises.  It returns the sample data
    when the file cannot be read, is empty or blank, or is not valid JSON;
    otherwise it returns whatever value the content parses to, with no
    check of its shape: unlike [safe_json_parse], also a falsy value such
    as [null] or an empty list. *)
Theorem load_experience_data_outcomes (get_sample_data : json)
  (file : res string) :
  exists v,
    load_experience_data get_sample_data file = Ok v /\
    (v = get_sample_data \/
     exists content, file = Ok content /\ loads (strip content) = Ok v) /\
    (forall content parsed,
        file = Ok content -> nonempty (strip content) = true ->
        loads (strip content) = Ok parsed -> v = parsed) /\
    (forall content e,
        file = Ok content -> loads (strip content) = Raise e ->
        v = get_sample_data).
Proof.
  unfold load_experience_data, try_except, bind.
  destruct file as [content|e].
  - destruct (nonempty (strip content)) eqn:Hne; cbn [negb].
    + destruct (loads (strip content)) as [v|e] eqn:Hl.
      * exists v. split; [reflexivity|]. split; [right; eauto|].
        split; intros c' x [= <-]; congruence.
      * exists get_sample_data. split; [reflexivity|]. split; [now left|].
        split; intros c' x [= <-]; congruence.
    + exists get_sample_data. split; [reflexivity|]. split; [now left|].
      split; intros c' x [= <-]; [congruence|reflexivity].
  - exists get_sample_data. split; [reflexivity|]. split; [now left|].
    split; intros c' x; discriminate.
Qed.

(* ------------------------------------------------------------------ *)
(** ** Cleaning invents nothing *)

Lemma occurs_rstrip_with (c : ascii) (p : ascii -> bool) (s : string) :
  occurs c s = false -> occurs c (rstrip_with p s) = false.
Proof.
  induction s as [|a s IH]; cbn [rstrip_with occurs]; [auto|].
  intros H. apply orb_false_iff in H. destruct H as [Ha Hs].
  specialize (IH Hs). destruct (rstrip_with p s) as [|b t].
  - destruct (p a); cbn [occurs]; [reflexivity | now rewrite Ha].
  - cbn [occurs] in *. now rewrite Ha, IH.
Qed.

Lemma occurs_after_first (c open : ascii) (s t : string) :
  Re.after_first open s = Some t -> occurs c s = false -> occurs c t = false.
Proof.
  induction s as [|a s IH]; cbn [Re.after_first occurs]; [discriminate|].
  intros H Hs. apply orb_false_iff in Hs. destruct Hs as [_ Hs].
  destruct (Ascii.eqb a open); [now injection H as <- | auto].
Qed.

Lemma occurs_upto_last (c close : ascii) (s m : string) :
  Re.upto_last close s = Some m -> occurs c s = false -> occurs c m = false.
Proof.
  revert m; induction s as [|a s IH]; intros m; cbn [Re.upto_last occurs];
    [discriminate|].
  intros H Hs. apply orb_false_iff in Hs. destruct Hs as [Ha Hs].
  destruct (Re.upto_last close s) as [p|].
  - injection H as <-. cbn [occurs]. now rewrite Ha, (IH p eq_refl Hs).
  - destruct (Ascii.eqb a close); [|discriminate].
    injection H as <-. cbn [occurs]. now rewrite Ha.
Qed.

Lemma occurs_search_span (c open close : ascii) (s m : string) :
  Re.search_span open close s = Some m ->
  occurs c s = false -> occurs c m = false.
Proof.
  unfold Re.search_span. intros H Hs.
  destruct (Re.after_first open s) as [t|] eqn:Et; [|discriminate].
  destruct (Re.upto_last close t) as [p|] eqn:Ep; [|discriminate].
  injection H as <-.
  pose proof (occurs_upto_last c close t p Ep
                (occurs_after_first c open s t Et Hs)) as Hp.
  cbn [occurs]. rewrite Hp, orb_false_r.
  (* the opening character itself occurs in [s] *)
  destruct (Ascii.eqb_spec open c) as [->|]; [|reflexivity].
  exfalso. clear - Et Hs. induction s as [|a s IH]; [discriminate|].
  cbn [Re.after_first occurs] in *. apply orb_false_iff in Hs.
  destruct Hs as [Ha Hs]. rewrite Ha in Et. auto.
Qed.

(** X22.  [clean_json_response] invents nothing: a character that does not
    occur in the text does not occur in the cleaned text. *)
Theorem clean_json_response_no_new_character (c : ascii) (text : string)
  (Hc : occurs c text = false) :
  occurs c (clean_json_response text) = false.
Proof.
  unfold clean_json_response.
  destruct (nonempty text); cbn [negb]; [|reflexivity].
  set (t1 := Re.sub_line_prefix "```json" (String.length text) true text).
  set (t2 := Re.sub_line_prefix "```" (String.length t1) true t1).
  set (t3 := Re.sub_close_fence (String.length t2) t2).
  assert (H3 : occurs c t3 = false).
  { subst t3 t2 t1.
    now apply occurs_sub_close_fence, occurs_sub_line_prefix,
      occurs_sub_line_prefix. }
  destruct (Re.search_span "{" "}" t3) as [m|] eqn:E1;
    [now apply (occurs_search_span c _ _ _ _ E1)|].
  destruct (Re.search_span "[" "]" t3) as [m|] eqn:E2;
    [now apply (occurs_search_span c _ _ _ _ E2)|].
  now apply occurs_rstrip_with, occurs_lstrip_with.
Qed.

Lemma clean_json_response_no_new_character_witness :
  occurs "`"%char (clean_json_response "no fences at all") = false.
Proof.
  apply (clean_json_response_no_new_character "`"%char "no fences at all"
           eq_refl).
Defined.
